(** * pyo unit generators: trigger objects, envelopes and the Hilbert filter

    A shallow embedding of the per-block compute functions of
    [trunk/src/objects/trigmodule.c], [src/objects/hilbertmodule.c] and of
    the Fader/Adsr envelope code, together with the properties that the
    design document states about them.

    Conventions of the embedding.
    - A C [float]/[double] sample is an exact rational ([Q]); rounding,
      infinities and NaN are not modelled.  [(int)x] is truncation toward
      zero ([Qtrunc]), integer [/] and [%] are [Z.quot] and [Z.rem].
    - A [Stream] is a handle; [Stream_getData] is the server's table of the
      buffers of the current block.  A read past the end of a buffer yields
      [0] (the engine guarantees [bufsize] samples per stream).
    - [self->data[i] = v] is the list update [<[i:=v]>]; the buffer of an
      object has [bufsize] cells.
    - [rand()] reads the next element of a process-wide sequence
      [rand_src]; the position in that sequence is threaded through every
      function that draws a number. *)

From Stdlib Require Import ZArith QArith Qround Qabs Lia Lqa List Bool String.
From stdpp Require Import base list.
Import ListNotations.

Local Open Scope Z_scope.
Local Open Scope Q_scope.

(** ** C arithmetic on rationals *)

(** [a < b] on floats. *)
Definition Qltb (a b : Q) : bool := negb (Qle_bool b a).

(** [(int)x]: truncation toward zero. *)
Definition Qtrunc (x : Q) : Z := Z.quot (Qnum x) (Zpos (Qden x)).

(** ** Streams, Python objects and the common object header *)

(** A stream handle. *)
Definition Stream := nat.

(** The arguments a setter can receive from Python. [PyStreamObj s] is a
    pyo object whose [_getStream] method returns [s]; [PyOther] is any
    object that is neither a number, a list nor a pyo object. *)
Inductive PyObject : Type :=
  | PyFloat (q : Q)
  | PyInt (z : Z)
  | PyList (items : list PyObject)
  | PyStreamObj (s : Stream)
  | PyOther.

Definition PyNumber_Check (o : PyObject) : bool :=
  match o with PyFloat _ | PyInt _ => true | _ => false end.

Definition PyList_Check (o : PyObject) : bool :=
  match o with PyList _ => true | _ => false end.

Definition PyInt_Check (o : PyObject) : bool :=
  match o with PyInt _ => true | _ => false end.

(** [PyInt_AsLong] on an object that passed [PyInt_Check]; on another
    object the call fails and returns [-1]. *)
Definition PyInt_AsLong (o : PyObject) : Z :=
  match o with PyInt z => z | _ => (-1)%Z end.

(** The conversion of the [long] that [PyInt_AsLong] returns to the [int]
    it is assigned to ([self->dir = PyInt_AsLong(arg)]): where a [long]
    is wider than an [int], the value is reduced modulo 2^32 into the
    range of a 32-bit [int]; a value of that range is kept. *)
Definition int_of_long (z : Z) : Z := ((z + 2 ^ 31) mod 2 ^ 32 - 2 ^ 31)%Z.


(** [PyNumber_Float]: [None] is the NULL result on a non-number. *)
Definition PyNumber_Float (o : PyObject) : option Q :=
  match o with
  | PyFloat q => Some q
  | PyInt z => Some (inject_Z z)
  | _ => None
  end.

(** [PyFloat_AS_DOUBLE] is a raw field read; on a non-float object the
    value is unspecified and [0] stands for it. *)
Definition PyFloat_AS_DOUBLE (o : PyObject) : Q :=
  match o with PyFloat q => q | _ => 0 end.

(** [PyObject_CallMethod(o, "_getStream", NULL)]. *)
Definition getStream (o : PyObject) : option Stream :=
  match o with PyStreamObj s => Some s | _ => None end.

(** What a call from Python can do: return, possibly with the Python error
    indicator set, or crash the process (a NULL dereference, a division
    by zero). *)
Inductive PyErr : Type := TypeError (msg : string).

Inductive call (A : Type) : Type :=
  | Returned (a : A) (err : option PyErr)
  | Crashed.
Arguments Returned {A} _ _.
Arguments Crashed {A}.

(** ** The C library random generator *)

(** The sequence of numbers that successive calls of [rand()] return. *)
Definition RandSrc : Type := nat -> Z.

(** [RAND_MAX] of the C library (the glibc value; only its sign matters
    below). *)
Definition RAND_MAX : Z := 2147483647.

(** [rand()] at position [pos] of the sequence. *)
Definition rand (src : RandSrc) (pos : nat) : Z * nat := (src pos, S pos).

(** The macro [RANDOM_UNIFORM] of pyomodule.h, which is not part of the
    analysed sources; it is the expression that [TrigRand_generate_ii]
    writes out, [rand()/((float)(RAND_MAX)+1)]. *)
Definition RANDOM_UNIFORM (src : RandSrc) (pos : nat) : Q * nat :=
  (inject_Z (src pos) / (inject_Z RAND_MAX + 1), S pos).

(** [buf[i]]. *)
Definition sample (buf : list Q) (i : nat) : Q := nth i buf 0.

(** The fields of [pyo_audio_HEAD] that the compute functions use,
    followed by the object's own fields. *)
Record pyo_audio (P : Type) : Type := PyoAudio {
  bufsize : nat;
  sr : Q;
  data : list Q;
  st : P
}.
Arguments PyoAudio {P} _ _ _ _.
Arguments bufsize {P} _.
Arguments sr {P} _.
Arguments data {P} _.
Arguments st {P} _.

Definition set_data {P} (d : list Q) (o : pyo_audio P) : pyo_audio P :=
  PyoAudio (bufsize o) (sr o) d (st o).

Definition set_st {P} (p : P) (o : pyo_audio P) : pyo_audio P :=
  PyoAudio (bufsize o) (sr o) (data o) p.

(** [self->data[i] = v]. *)
Definition store {P} (i : nat) (v : Q) (o : pyo_audio P) : pyo_audio P :=
  set_data (<[i := v]> (data o)) o.

(** [for (i=0; i<n; i++) body]. *)
Definition for_loop {S : Type} (n : nat) (body : nat -> S -> S) (s : S) : S :=
  fold_left (fun s i => body i s) (seq 0 n) s.

(** [for (i=lo; i<hi; i++) body]. *)
Definition for_range {S : Type} (lo hi : nat) (body : nat -> S -> S) (s : S) : S :=
  fold_left (fun s i => body i s) (seq lo (hi - lo)) s.

(** ** Thresh: threshold detector *)

Module Thresh.

Record fields : Type := Fields {
  input_stream : Stream;
  threshold : PyObject;
  threshold_stream : Stream;
  dir : Z;
  ready : Z;
  modebuffer : Z            (* modebuffer[0] *)
}.

Definition self : Type := pyo_audio fields.

Definition set_ready (r : Z) (o : self) : self :=
  let s := st o in
  set_st (Fields (input_stream s) (threshold s) (threshold_stream s)
                 (dir s) r (modebuffer s)) o.

(** The loop bodies of the three modes, for the input sample [x] and the
    threshold [th] at index [i]. *)
Definition upward (th x : Q) (i : nat) (o : self) : self :=
  let o := store i 0 o in
  if Qltb th x && (ready (st o) =? 1)%Z then set_ready 0 (store i 1 o)
  else if Qle_bool x th && (ready (st o) =? 0)%Z then set_ready 1 o
  else o.

Definition downward (th x : Q) (i : nat) (o : self) : self :=
  let o := store i 0 o in
  if Qltb x th && (ready (st o) =? 1)%Z then set_ready 0 (store i 1 o)
  else if Qle_bool th x && (ready (st o) =? 0)%Z then set_ready 1 o
  else o.

(** Third mode as [Thresh_generates_i] has it: both assignments of the
    second branch are inside its braces. *)
Definition updown_i (th x : Q) (i : nat) (o : self) : self :=
  let o := store i 0 o in
  if Qltb th x && (ready (st o) =? 1)%Z then set_ready 0 (store i 1 o)
  else if Qle_bool x th && (ready (st o) =? 0)%Z then set_ready 1 (store i 1 o)
  else o.

(** Third mode as [Thresh_generates_a] has it: the second branch has no
    braces, [self->ready = 1] follows the if/else chain and runs on every
    sample. *)
Definition updown_a (th x : Q) (i : nat) (o : self) : self :=
  let o := store i 0 o in
  let o :=
    if Qltb th x && (ready (st o) =? 1)%Z then set_ready 0 (store i 1 o)
    else if Qle_bool x th && (ready (st o) =? 0)%Z then store i 1 o
    else o in
  set_ready 1 o.

Section Generate.
Variable Stream_getData : Stream -> list Q.

(** Constant threshold. *)
Definition Thresh_generates_i (o : self) : self :=
  let inp := Stream_getData (input_stream (st o)) in
  let thresh := PyFloat_AS_DOUBLE (threshold (st o)) in
  match dir (st o) with
  | 0%Z => for_loop (bufsize o) (fun i => upward thresh (sample inp i) i) o
  | 1%Z => for_loop (bufsize o) (fun i => downward thresh (sample inp i) i) o
  | 2%Z => for_loop (bufsize o) (fun i => updown_i thresh (sample inp i) i) o
  | _ => o
  end.

(** Streaming threshold. *)
Definition Thresh_generates_a (o : self) : self :=
  let inp := Stream_getData (input_stream (st o)) in
  let thresh := Stream_getData (threshold_stream (st o)) in
  match dir (st o) with
  | 0%Z => for_loop (bufsize o) (fun i => upward (sample thresh i) (sample inp i) i) o
  | 1%Z => for_loop (bufsize o) (fun i => downward (sample thresh i) (sample inp i) i) o
  | 2%Z => for_loop (bufsize o) (fun i => updown_a (sample thresh i) (sample inp i) i) o
  | _ => o
  end.

End Generate.


(** [Thresh_setDir]: an [int] replaces the mode, whatever its value, after
    its conversion to the [int] field [dir]; any other argument is
    ignored.  The method returns [None] in every case
    and sets no error; [None] as argument stands for the NULL pointer. *)
Definition Thresh_setDir (arg : option PyObject) (o : self) : self :=
  match arg with
  | None => o
  | Some a =>
      if PyInt_Check a then
        let s := st o in
        set_st (Fields (input_stream s) (threshold s) (threshold_stream s)
                       (int_of_long (PyInt_AsLong a)) (ready s) (modebuffer s)) o
      else o
  end.

End Thresh.

(** ** Counter: integer count on triggers *)

Module Counter.

(** [tmp], [min] and [max] are C [long]s; signed overflow is undefined in
    C and is not modelled, the integers are unbounded. *)
Record fields : Type := Fields {
  input_stream : Stream;
  tmp : Z;
  min : Z;
  max : Z;
  dir : Z;
  direction : Z;
  value : Q
}.

Definition self : Type := pyo_audio fields.

(** The body of [if (in[i] == 1) { ... }]. *)
Definition on_trigger (s : fields) : fields :=
  if (dir s =? 0)%Z then
    let value' := inject_Z (tmp s) in
    let tmp' := (tmp s + 1)%Z in
    let tmp' := if (tmp' >? max s)%Z then min s else tmp' in
    Fields (input_stream s) tmp' (min s) (max s) (dir s) (direction s) value'
  else if (dir s =? 1)%Z then
    let value' := inject_Z (tmp s) in
    let tmp' := (tmp s - 1)%Z in
    let tmp' := if (tmp' <? min s)%Z then max s else tmp' in
    Fields (input_stream s) tmp' (min s) (max s) (dir s) (direction s) value'
  else if (dir s =? 2)%Z then
    let value' := inject_Z (tmp s) in
    let tmp' := (tmp s + direction s)%Z in
    if (tmp' >=? max s)%Z then
      Fields (input_stream s) (tmp' - 1) (min s) (max s) (dir s) (-1) value'
    else if (tmp' <=? min s)%Z then
      Fields (input_stream s) (tmp' + 1) (min s) (max s) (dir s) 1 value'
    else
      Fields (input_stream s) tmp' (min s) (max s) (dir s) (direction s) value'
  else s.

Definition Counter_generates (Stream_getData : Stream -> list Q) (o : self) : self :=
  let inp := Stream_getData (input_stream (st o)) in
  for_loop (bufsize o) (fun i o =>
    let o := if Qeq_bool (sample inp i) 1 then set_st (on_trigger (st o)) o else o in
    store i (value (st o)) o) o.

(** The count after [Counter_new] and [Counter_init] with keyword
    arguments [min], [max] and [dir]: [tmp] starts at [min] in the forward
    and back-and-forth modes and at [max] in the backward mode. *)
Definition Counter_init (n : nat) (rate : Q) (input : Stream) (mi ma : Z) (d : Z) : self :=
  PyoAudio n rate (repeat 0 n)
    (Fields input (if (d =? 0)%Z || (d =? 2)%Z then mi else ma) mi ma d 1 0).

(** The values that [k] successive triggers emit, oldest first. *)
Fixpoint emitted (k : nat) (s : fields) : list Q :=
  match k with
  | O => []
  | S k' => let s' := on_trigger s in value s' :: emitted k' s'
  end.

(** The state after [k] successive triggers. *)
Fixpoint after (k : nat) (s : fields) : fields :=
  match k with
  | O => s
  | S k' => after k' (on_trigger s)
  end.

End Counter.

(** ** HilbertMain: two chains of six first-order allpass sections *)

Module HilbertMain.

Record fields : Type := Fields {
  input_stream : Stream;
  coefs : list Q;             (* float coefs[12] *)
  x1 : list Q;                (* float x1[12] *)
  y1 : list Q;                (* float y1[12] *)
  buffer_streams : list Q     (* 2 * bufsize samples *)
}.

Definition self : Type := pyo_audio fields.

(** The locals of the inner loops: the two memories and the running
    input and output of each chain. *)
Record locals : Type := Locals {
  l_x1 : list Q; l_y1 : list Q;
  xn1 : Q; yn1 : Q; xn2 : Q; yn2 : Q
}.

(** One pass of the first inner loop ([j] from 0 to 5). *)
Definition real_section (c : list Q) (j : nat) (l : locals) : locals :=
  let yn1' := sample c j * (xn1 l - sample (l_y1 l) j) + sample (l_x1 l) j in
  Locals (<[j := xn1 l]> (l_x1 l)) (<[j := yn1']> (l_y1 l))
         yn1' yn1' (xn2 l) (yn2 l).

(** One pass of the second inner loop ([j] from 6 to 11): the output is
    computed from [xn2], the memories receive [xn1] and [yn1]. *)
Definition imag_section (c : list Q) (j : nat) (l : locals) : locals :=
  let yn2' := sample c j * (xn2 l - sample (l_y1 l) j) + sample (l_x1 l) j in
  Locals (<[j := xn1 l]> (l_x1 l)) (<[j := yn1 l]> (l_y1 l))
         (xn1 l) (yn1 l) yn2' yn2'.

(** The section as the design document words it: the allpass recurrence
    [y = coef*(x - y_prev) + x_prev] on the section's own input [x], after
    which the section remembers its own input and output.  Returns the
    output and the two updated memories. *)
Definition allpass_section_spec (c x1m y1m : list Q) (j : nat) (x : Q)
  : Q * list Q * list Q :=
  let y := sample c j * (x - sample y1m j) + sample x1m j in
  (y, <[j := x]> x1m, <[j := y]> y1m).

(** The body of the outer loop for the input sample [x]. *)
Definition filter_sample (c : list Q) (x : Q) (l : locals) : locals :=
  let l := Locals (l_x1 l) (l_y1 l) x (yn1 l) (xn2 l) (yn2 l) in
  let l := for_range 0 6 (real_section c) l in
  let l := Locals (l_x1 l) (l_y1 l) (xn1 l) (yn1 l) x (yn2 l) in
  for_range 6 12 (imag_section c) l.

Definition HilbertMain_filters (Stream_getData : Stream -> list Q) (o : self) : self :=
  let inp := Stream_getData (input_stream (st o)) in
  let n := bufsize o in
  let run :=
    for_loop n (fun i '(l, buf) =>
      let l := filter_sample (coefs (st o)) (sample inp i) l in
      (l, <[(i + n)%nat := yn2 l]> (<[i := yn1 l]> buf)))
      (Locals (x1 (st o)) (y1 (st o)) 0 0 0 0, buffer_streams (st o)) in
  set_st (Fields (input_stream (st o)) (coefs (st o))
                 (l_x1 (fst run)) (l_y1 (fst run)) (snd run)) o.

Definition set_buffer_streams (b : list Q) (o : self) : self :=
  set_st (Fields (input_stream (st o)) (coefs (st o)) (x1 (st o)) (y1 (st o)) b) o.

(** The twelve poles of the two sixth-order allpass chains. *)
Definition poles : list Q :=
  [3609 # 10000; 27412 # 10000; 111573 # 10000; 447581 # 10000;
   1796242 # 10000; 7984578 # 10000;
   12524 # 10000; 55671 # 10000; 223423 # 10000; 896271 # 10000;
   3647914 # 10000; 27701114 # 10000].

(** [HilbertMain_compute_variables]; [twopi] is the constant [TWOPI] of
    pyomodule.h. *)
Definition HilbertMain_compute_variables (twopi : Q) (o : self) : self :=
  let c :=
    for_loop 12 (fun i c =>
      let polefreq := sample poles i * 15 in
      let rc := 1 / (twopi * polefreq) in
      let alpha := 1 / rc in
      <[i := (- (1 - alpha / (2 * sr o))) / (1 + alpha / (2 * sr o))]> c)
      (coefs (st o)) in
  set_st (Fields (input_stream (st o)) c (x1 (st o)) (y1 (st o))
                 (buffer_streams (st o))) o.

End HilbertMain.

(** ** The portamento ramp of TrigRand and TrigChoice *)

(** Both structures declare the same six fields for the ramp and both
    compute functions contain the same two statements on them; they are
    written once here. *)
Module Glide.

Record t : Type := Make {
  value : Q;
  currentValue : Q;
  time : Q;
  timeStep : Z;
  stepVal : Q;
  timeCount : Z
}.

(** The statements under [if (in[i] == 1)], once the new value [target]
    has been drawn. *)
Definition trigger (target : Q) (g : t) : t :=
  if Qle_bool (time g) 0
  then Make target target (time g) (timeStep g) (stepVal g) 0
  else Make target (currentValue g) (time g) (timeStep g)
            ((target - currentValue g) / inject_Z (timeStep g)) 0.

(** The if/else-if that follows, executed on every sample. *)
Definition ramp (g : t) : t :=
  if (timeCount g =? timeStep g - 1)%Z
  then Make (value g) (value g) (time g) (timeStep g) (stepVal g) (timeCount g + 1)
  else if (timeCount g <? timeStep g)%Z
  then Make (value g) (currentValue g + stepVal g) (time g) (timeStep g)
            (stepVal g) (timeCount g + 1)
  else g.


(** The samples that a trigger toward [target] followed by [k] samples
    without trigger puts out, the sample of the trigger first. *)
Fixpoint outputs (k : nat) (g : t) : list Q :=
  match k with
  | O => []
  | S k' => let g' := ramp g in currentValue g' :: outputs k' g'
  end.

(** The ramp state after [k] samples without trigger. *)
Fixpoint after (k : nat) (g : t) : t :=
  match k with
  | O => g
  | S k' => after k' (ramp g)
  end.

End Glide.

(** ** TrigRand *)

Module TrigRand.

Inductive proc_func : Type :=
  | ptr_generate_ii | ptr_generate_ai | ptr_generate_ia | ptr_generate_aa.

Inductive muladd_func : Type :=
  | ptr_postprocessing_ii | ptr_postprocessing_ai | ptr_postprocessing_revai
  | ptr_postprocessing_ia | ptr_postprocessing_aa | ptr_postprocessing_revaa
  | ptr_postprocessing_ireva | ptr_postprocessing_areva
  | ptr_postprocessing_revareva.

Record fields : Type := Fields {
  input_stream : Stream;
  min : PyObject;
  max : PyObject;
  min_stream : Stream;
  max_stream : Stream;
  glide : Glide.t;            (* value, currentValue, time, timeStep, stepVal, timeCount *)
  modebuffer : list Z;        (* int modebuffer[4] *)
  proc_func_ptr : proc_func;
  muladd_func_ptr : muladd_func
}.

Definition self : Type := pyo_audio fields.

Definition set_glide (g : Glide.t) (s : fields) : fields :=
  Fields (input_stream s) (min s) (max s) (min_stream s) (max_stream s) g
         (modebuffer s) (proc_func_ptr s) (muladd_func_ptr s).

(** [modebuffer[k]]. *)
Definition mode (s : fields) (k : nat) : Z := nth k (modebuffer s) 0%Z.

Section Generate.
Variable Stream_getData : Stream -> list Q.
Variable src : RandSrc.

(** The body shared by the four variants, for the sample [x] of the input
    and the bounds [mi] and [ma] in force at this sample. *)
Definition sample_step (x mi ma : Q) (s : fields) (pos : nat) : fields * nat :=
  let range := ma - mi in
  let '(g, pos) :=
    if Qeq_bool x 1 then
      let '(r, pos) := rand src pos in
      (Glide.trigger (range * (inject_Z r / (inject_Z RAND_MAX + 1)) + mi) (glide s),
       pos)
    else (glide s, pos) in
  (set_glide (Glide.ramp g) s, pos).

Definition TrigRand_generate_ii (o : self) (pos : nat) : self * nat :=
  let inp := Stream_getData (input_stream (st o)) in
  let mi := PyFloat_AS_DOUBLE (min (st o)) in
  let ma := PyFloat_AS_DOUBLE (max (st o)) in
  for_loop (bufsize o) (fun i '(o, pos) =>
    let '(s, pos) := sample_step (sample inp i) mi ma (st o) pos in
    (store i (Glide.currentValue (glide s)) (set_st s o), pos)) (o, pos).

Definition TrigRand_generate_ai (o : self) (pos : nat) : self * nat :=
  let inp := Stream_getData (input_stream (st o)) in
  let mi := Stream_getData (min_stream (st o)) in
  let ma := PyFloat_AS_DOUBLE (max (st o)) in
  for_loop (bufsize o) (fun i '(o, pos) =>
    let '(s, pos) := sample_step (sample inp i) (sample mi i) ma (st o) pos in
    (store i (Glide.currentValue (glide s)) (set_st s o), pos)) (o, pos).

Definition TrigRand_generate_ia (o : self) (pos : nat) : self * nat :=
  let inp := Stream_getData (input_stream (st o)) in
  let mi := PyFloat_AS_DOUBLE (min (st o)) in
  let ma := Stream_getData (max_stream (st o)) in
  for_loop (bufsize o) (fun i '(o, pos) =>
    let '(s, pos) := sample_step (sample inp i) mi (sample ma i) (st o) pos in
    (store i (Glide.currentValue (glide s)) (set_st s o), pos)) (o, pos).

Definition TrigRand_generate_aa (o : self) (pos : nat) : self * nat :=
  let inp := Stream_getData (input_stream (st o)) in
  let mi := Stream_getData (min_stream (st o)) in
  let ma := Stream_getData (max_stream (st o)) in
  for_loop (bufsize o) (fun i '(o, pos) =>
    let '(s, pos) := sample_step (sample inp i) (sample mi i) (sample ma i) (st o) pos in
    (store i (Glide.currentValue (glide s)) (set_st s o), pos)) (o, pos).

(** The samples that the loop body puts out for the successive input
    samples [xs], with the bounds [mi] and [ma] constant. *)
Fixpoint outputs (xs : list Q) (mi ma : Q) (s : fields) (pos : nat) : list Q :=
  match xs with
  | [] => []
  | x :: xs' =>
      let '(s', pos') := sample_step x mi ma s pos in
      Glide.currentValue (glide s') :: outputs xs' mi ma s' pos'
  end.

(** The fields and the position in the random sequence after these
    samples. *)
Fixpoint after (xs : list Q) (mi ma : Q) (s : fields) (pos : nat) : fields * nat :=
  match xs with
  | [] => (s, pos)
  | x :: xs' =>
      let '(s', pos') := sample_step x mi ma s pos in
      after xs' mi ma s' pos'
  end.

(** The call through [self->proc_func_ptr]. *)
Definition call_proc (o : self) (pos : nat) : self * nat :=
  match proc_func_ptr (st o) with
  | ptr_generate_ii => TrigRand_generate_ii o pos
  | ptr_generate_ai => TrigRand_generate_ai o pos
  | ptr_generate_ia => TrigRand_generate_ia o pos
  | ptr_generate_aa => TrigRand_generate_aa o pos
  end.

End Generate.

(** The first switch of [TrigRand_setProcMode]; a mode that matches no
    case leaves the pointer as it is. *)
Definition proc_of (procmode : Z) (old : proc_func) : proc_func :=
  match procmode with
  | 0%Z => ptr_generate_ii
  | 1%Z => ptr_generate_ai
  | 10%Z => ptr_generate_ia
  | 11%Z => ptr_generate_aa
  | _ => old
  end.

(** The second switch, the same in every object of the module. *)
Definition muladd_of (muladdmode : Z) (old : muladd_func) : muladd_func :=
  match muladdmode with
  | 0%Z => ptr_postprocessing_ii
  | 1%Z => ptr_postprocessing_ai
  | 2%Z => ptr_postprocessing_revai
  | 10%Z => ptr_postprocessing_ia
  | 11%Z => ptr_postprocessing_aa
  | 12%Z => ptr_postprocessing_revaa
  | 20%Z => ptr_postprocessing_ireva
  | 21%Z => ptr_postprocessing_areva
  | 22%Z => ptr_postprocessing_revareva
  | _ => old
  end.

Definition TrigRand_setProcMode (s : fields) : fields :=
  let procmode := (mode s 2 + mode s 3 * 10)%Z in
  let muladdmode := (mode s 0 + mode s 1 * 10)%Z in
  Fields (input_stream s) (min s) (max s) (min_stream s) (max_stream s)
         (glide s) (modebuffer s)
         (proc_of procmode (proc_func_ptr s))
         (muladd_of muladdmode (muladd_func_ptr s)).

(** [TrigRand_setMin]; [None] is the NULL argument.  A non-number on
    which [_getStream] fails makes [Py_INCREF(streamtmp)] dereference
    NULL. *)
Definition TrigRand_setMin (arg : option PyObject) (o : self) : call self :=
  match arg with
  | None => Returned o None
  | Some a =>
      let s := st o in
      if PyNumber_Check a then
        let s := Fields (input_stream s) (PyFloat (default 0 (PyNumber_Float a)))
                        (max s) (min_stream s) (max_stream s) (glide s)
                        (<[2%nat := 0%Z]> (modebuffer s))
                        (proc_func_ptr s) (muladd_func_ptr s) in
        Returned (set_st (TrigRand_setProcMode s) o) None
      else
        match getStream a with
        | None => Crashed
        | Some streamtmp =>
            let s := Fields (input_stream s) a (max s) streamtmp (max_stream s)
                            (glide s) (<[2%nat := 1%Z]> (modebuffer s))
                            (proc_func_ptr s) (muladd_func_ptr s) in
            Returned (set_st (TrigRand_setProcMode s) o) None
        end
  end.

Definition TrigRand_setMax (arg : option PyObject) (o : self) : call self :=
  match arg with
  | None => Returned o None
  | Some a =>
      let s := st o in
      if PyNumber_Check a then
        let s := Fields (input_stream s) (min s)
                        (PyFloat (default 0 (PyNumber_Float a)))
                        (min_stream s) (max_stream s) (glide s)
                        (<[3%nat := 0%Z]> (modebuffer s))
                        (proc_func_ptr s) (muladd_func_ptr s) in
        Returned (set_st (TrigRand_setProcMode s) o) None
      else
        match getStream a with
        | None => Crashed
        | Some streamtmp =>
            let s := Fields (input_stream s) (min s) a (min_stream s) streamtmp
                            (glide s) (<[3%nat := 1%Z]> (modebuffer s))
                            (proc_func_ptr s) (muladd_func_ptr s) in
            Returned (set_st (TrigRand_setProcMode s) o) None
        end
  end.


(** The object after [TrigRand_new] and [TrigRand_init] with the keyword
    arguments [port] and [init] and default [min], [max], [mul], [add];
    the first block that the init function computes is left out. *)
Definition TrigRand_init (n : nat) (rate : Q) (input : Stream) (port init : Q) : self :=
  PyoAudio n rate (repeat 0 n)
    (TrigRand_setProcMode
       (Fields input (PyFloat 0) (PyFloat 1) 0%nat 0%nat
               (Glide.Make init init port (Qtrunc (port * rate)) 0 0)
               [0; 0; 0; 0]%Z ptr_generate_ii ptr_postprocessing_ii)).

End TrigRand.

(** ** TrigChoice *)

Module TrigChoice.

Inductive proc_func : Type := ptr_generate.

Record fields : Type := Fields {
  input_stream : Stream;
  chSize : Z;
  choice : list Q;            (* float *choice *)
  glide : Glide.t;            (* value, currentValue, time, timeStep, stepVal, timeCount *)
  modebuffer : list Z;        (* int modebuffer[2] *)
  proc_func_ptr : option proc_func;
  muladd_func_ptr : option TrigRand.muladd_func
}.

Definition self : Type := pyo_audio fields.

Definition set_glide (g : Glide.t) (s : fields) : fields :=
  Fields (input_stream s) (chSize s) (choice s) g (modebuffer s)
         (proc_func_ptr s) (muladd_func_ptr s).

Definition mode (s : fields) (k : nat) : Z := nth k (modebuffer s) 0%Z.

(** [self->choice[k]] for an [int] index; an index outside of the array
    reads memory that the model does not describe, [0] stands for it. *)
Definition choice_at (s : fields) (k : Z) : Q :=
  if (k <? 0)%Z then 0 else sample (choice s) (Z.to_nat k).

Section Generate.
Variable Stream_getData : Stream -> list Q.
Variable src : RandSrc.

(** The loop body for the input sample [x]. *)
Definition sample_step (x : Q) (s : fields) (pos : nat) : fields * nat :=
  let '(g, pos) :=
    if Qeq_bool x 1 then
      let '(r, pos) := rand src pos in
      (Glide.trigger
         (choice_at s (Qtrunc (inject_Z r / inject_Z RAND_MAX * inject_Z (chSize s))))
         (glide s), pos)
    else (glide s, pos) in
  (set_glide (Glide.ramp g) s, pos).

(** The samples that the loop body puts out for the successive input
    samples [xs]. *)
Fixpoint outputs (xs : list Q) (s : fields) (pos : nat) : list Q :=
  match xs with
  | [] => []
  | x :: xs' =>
      let '(s', pos') := sample_step x s pos in
      Glide.currentValue (glide s') :: outputs xs' s' pos'
  end.

Definition TrigChoice_generate (o : self) (pos : nat) : self * nat :=
  let inp := Stream_getData (input_stream (st o)) in
  for_loop (bufsize o) (fun i '(o, pos) =>
    let '(s, pos) := sample_step (sample inp i) (st o) pos in
    (store i (Glide.currentValue (glide s)) (set_st s o), pos)) (o, pos).

End Generate.

Definition TrigChoice_setProcMode (s : fields) : fields :=
  let muladdmode := (mode s 0 + mode s 1 * 10)%Z in
  Fields (input_stream s) (chSize s) (choice s) (glide s) (modebuffer s)
         (Some ptr_generate)
         (match muladd_func_ptr s with
          | Some old => Some (TrigRand.muladd_of muladdmode old)
          | None =>
              (* no earlier binding to fall back on *)
              match muladdmode with
              | 0%Z | 1%Z | 2%Z | 10%Z | 11%Z | 12%Z | 20%Z | 21%Z | 22%Z =>
                  Some (TrigRand.muladd_of muladdmode TrigRand.ptr_postprocessing_ii)
              | _ => None
              end
          end).

(** [PyFloat_AS_DOUBLE(PyNumber_Float(item))] on every item of the list;
    [None] when an item is not a number, in which case the macro reads
    through the NULL pointer. *)
Fixpoint floats_of (items : list PyObject) : option (list Q) :=
  match items with
  | [] => Some []
  | x :: rest =>
      match PyNumber_Float x, floats_of rest with
      | Some q, Some qs => Some (q :: qs)
      | _, _ => None
      end
  end.

(** [TrigChoice_setChoice]. *)
Definition TrigChoice_setChoice (arg : PyObject) (o : self) : call self :=
  match arg with
  | PyList items =>
      match floats_of items with
      | Some qs =>
          let s := st o in
          let s := Fields (input_stream s) (Z.of_nat (length items)) qs (glide s)
                          (modebuffer s) (proc_func_ptr s) (muladd_func_ptr s) in
          Returned (set_st (TrigChoice_setProcMode s) o) None
      | None => Crashed
      end
  | _ => Returned o (Some (TypeError "The choice attribute must be a list."))
  end.


End TrigChoice.

(** ** TrigFunc *)

Module TrigFunc.

Record fields : Type := Fields {
  input_stream : Stream;
  func : PyObject
}.

Definition self : Type := pyo_audio fields.

(** [TrigFunc_generate] calls the Python function once per trigger and
    assigns no sample.  The calls are the only effect; [calls] is the list
    of the indices at which the function has been called, latest first. *)
Definition TrigFunc_generate (Stream_getData : Stream -> list Q)
    (o : self) (calls : list nat) : self * list nat :=
  let inp := Stream_getData (input_stream (st o)) in
  for_loop (bufsize o) (fun i '(o, calls) =>
    if Qeq_bool (sample inp i) 1 then (o, i :: calls) else (o, calls)) (o, calls).

End TrigFunc.

(** ** TrigEnv: envelope reader *)

(** The table collaborator: [TableStream_getData] and
    [TableStream_getSize]. *)
Record TableStream : Type := Table {
  tab_data : list Q;
  tab_size : Z
}.

Module TrigEnv.

Record fields : Type := Fields {
  table : TableStream;
  input_stream : Stream;
  dur : PyObject;
  dur_stream : Stream;
  modebuffer : list Z;        (* int modebuffer[3] *)
  active : Z;
  current_dur : Q;
  inc : Q;
  pointerPos : Q;
  trigsBuffer : list Q;
  tempTrigsBuffer : list Q
}.

Definition self : Type := pyo_audio fields.

(** [tablelist[k]]; cells that the table does not hold read as [0]. *)
Definition tablelist (s : fields) (k : Z) : Q :=
  if (k <? 0)%Z then 0 else sample (tab_data (table s)) (Z.to_nat k).

(** The loop body for the input sample [x] and the duration [d] in force.
    [reads] is the trace of the table indices that have been read, in the
    order of the reads. *)
Definition sample_step (x d : Q) (i : nat) (o : self) (reads : list Z)
  : self * list Z :=
  let s := st o in
  let size := tab_size (table s) in
  let s :=
    if Qeq_bool x 1 then
      let current_dur' := sr o * d in
      Fields (table s) (input_stream s) (dur s) (dur_stream s) (modebuffer s)
             1 current_dur' (inject_Z size / current_dur') 0
             (trigsBuffer s) (tempTrigsBuffer s)
    else s in
  let '(o, reads) :=
    if (active s =? 1)%Z then
      let ipart := Qtrunc (pointerPos s) in
      let fpart := pointerPos s - inject_Z ipart in
      let x0 := tablelist s ipart in
      let x1 := tablelist s (ipart + 1) in
      let s := Fields (table s) (input_stream s) (dur s) (dur_stream s)
                      (modebuffer s) (active s) (current_dur s) (inc s)
                      (pointerPos s + inc s)
                      (trigsBuffer s) (tempTrigsBuffer s) in
      (store i (x0 + (x1 - x0) * fpart) (set_st s o), reads ++ [ipart; (ipart + 1)%Z])
    else (store i 0 (set_st s o), reads) in
  let s := st o in
  if Qltb (inject_Z size) (pointerPos s) && (active s =? 1)%Z then
    (set_st (Fields (table s) (input_stream s) (dur s) (dur_stream s)
                    (modebuffer s) 0 (current_dur s) (inc s) (pointerPos s)
                    (<[i := 1]> (trigsBuffer s)) (tempTrigsBuffer s)) o, reads)
  else (o, reads).

Section Generate.
Variable Stream_getData : Stream -> list Q.

Definition TrigEnv_readframes_i (o : self) (reads : list Z) : self * list Z :=
  let inp := Stream_getData (input_stream (st o)) in
  for_loop (bufsize o) (fun i '(o, reads) =>
    sample_step (sample inp i) (PyFloat_AS_DOUBLE (dur (st o))) i o reads) (o, reads).

Definition TrigEnv_readframes_a (o : self) (reads : list Z) : self * list Z :=
  let inp := Stream_getData (input_stream (st o)) in
  let dur_st := Stream_getData (dur_stream (st o)) in
  for_loop (bufsize o) (fun i '(o, reads) =>
    sample_step (sample inp i) (sample dur_st i) i o reads) (o, reads).

End Generate.

(** [TrigEnv_getTrigsBuffer]: hands the end-of-read pulses over and
    clears them. *)
Definition TrigEnv_getTrigsBuffer (o : self) : self * list Q :=
  let s := st o in
  let '(trigs, temp) :=
    for_loop (bufsize o) (fun i '(trigs, temp) =>
      (<[i := 0]> trigs, <[i := sample trigs i]> temp))
      (trigsBuffer s, tempTrigsBuffer s) in
  (set_st (Fields (table s) (input_stream s) (dur s) (dur_stream s)
                  (modebuffer s) (active s) (current_dur s) (inc s)
                  (pointerPos s) trigs temp) o, temp).

(** The object after [TrigEnv_new] and [TrigEnv_init] with a constant
    duration [d]; the first block that the init function computes is left
    out. *)
Definition TrigEnv_init (n : nat) (rate : Q) (input : Stream) (tab : TableStream)
    (d : Q) : self :=
  PyoAudio n rate (repeat 0 n)
    (Fields tab input (PyFloat d) 0%nat [0; 0; 0]%Z 0 rate 0 0
            (repeat 0 n) (repeat 0 n)).

End TrigEnv.

(** ** TrigEnvTrig: the end-of-read pulses of a TrigEnv *)

Module TrigEnvTrig.

Definition self : Type := pyo_audio unit.

(** [TrigEnvTrig_compute_next_data_frame], on the reader it is attached to. *)
Definition TrigEnvTrig_compute_next_data_frame (o : self) (mainReader : TrigEnv.self)
  : self * TrigEnv.self :=
  let '(mainReader, tmp) := TrigEnv.TrigEnv_getTrigsBuffer mainReader in
  (for_loop (bufsize o) (fun i o => store i (sample tmp i) o) o, mainReader).

End TrigEnvTrig.

(** ** Computations that can fail *)

(** The result of a C function that can stop the process: [Fault] is an
    undefined operation (an integer division by zero, a call through a
    NULL function pointer), [NoFuel] is a loop that has not ended within
    the bound the model gives it. *)
Inductive run (A : Type) : Type :=
  | Done (a : A)
  | Fault
  | NoFuel.
Arguments Done {A} _.
Arguments Fault {A}.
Arguments NoFuel {A}.

Definition bind {A B : Type} (m : run A) (f : A -> run B) : run B :=
  match m with
  | Done a => f a
  | Fault => Fault
  | NoFuel => NoFuel
  end.

Notation "'let*' p ':=' m 'in' k" :=
  (bind m (fun x => match x with p => k end))
  (at level 10, p pattern, m at level 100, k at level 200,
   format "'[' 'let*'  p  ':='  m  'in' ']' '/' k").

(** [a % b] on C integers, for a divisor that is not a constant. *)
Definition c_rem (a b : Z) : run Z :=
  if (b =? 0)%Z then Fault else Done (Z.rem a b).

(** ** TrigXnoise *)

Module TrigXnoise.

Inductive type_func : Type :=
  | ptr_uniform | ptr_linear_min | ptr_linear_max | ptr_triangle
  | ptr_expon_min | ptr_expon_max | ptr_biexpon | ptr_cauchy | ptr_weibull
  | ptr_gaussian | ptr_poisson | ptr_walker | ptr_loopseg.

(** The fields that the distribution functions read and write.
    TrigXnoiseMidi declares the same fields and repeats the thirteen
    functions word for word on its own structure. *)
Record noise : Type := Noise {
  xx1 : Q;
  xx2 : Q;
  lastPoissonX1 : Q;
  poisson_tab : Z;
  poisson_buffer : list Q;    (* float poisson_buffer[2000] *)
  walkerValue : Q;
  loop_buffer : list Q;       (* float loop_buffer[15] *)
  loopChoice : Z;
  loopCountPlay : Z;
  loopTime : Z;
  loopCountRec : Z;
  loopLen : Z;
  loopStop : Z
}.

Definition set_xx1 (v : Q) (s : noise) : noise :=
  Noise v (xx2 s) (lastPoissonX1 s) (poisson_tab s) (poisson_buffer s)
        (walkerValue s) (loop_buffer s) (loopChoice s) (loopCountPlay s)
        (loopTime s) (loopCountRec s) (loopLen s) (loopStop s).

Definition set_xx2 (v : Q) (s : noise) : noise :=
  Noise (xx1 s) v (lastPoissonX1 s) (poisson_tab s) (poisson_buffer s)
        (walkerValue s) (loop_buffer s) (loopChoice s) (loopCountPlay s)
        (loopTime s) (loopCountRec s) (loopLen s) (loopStop s).

Definition set_walkerValue (v : Q) (s : noise) : noise :=
  Noise (xx1 s) (xx2 s) (lastPoissonX1 s) (poisson_tab s) (poisson_buffer s)
        v (loop_buffer s) (loopChoice s) (loopCountPlay s)
        (loopTime s) (loopCountRec s) (loopLen s) (loopStop s).

(** [if (val < 0.0) return 0.0; else if (val > 1.0) return 1.0; else
    return val;] *)
Definition clip01 (val : Q) : Q :=
  if Qltb val 0 then 0 else if Qltb 1 val then 1 else val.

(** An array cell read with an [int] index; cells outside of the array
    read as [0]. *)
Definition cell (buf : list Q) (k : Z) : Q :=
  if (k <? 0)%Z then 0 else sample buf (Z.to_nat k).

(** An array cell written with an [int] index. *)
Definition set_cell (buf : list Q) (k : Z) (v : Q) : list Q :=
  if (k <? 0)%Z then buf else <[Z.to_nat k := v]> buf.

Section Distributions.
Variable logf : Q -> Q.
Variable tanf : Q -> Q.
Variable powf : Q -> Q -> Q.
Variable src : RandSrc.

(** A distribution function returns its value, the updated fields and the
    position reached in the random sequence. *)
Definition draw : Type := run (Q * noise * nat).

Definition TrigXnoise_uniform (s : noise) (pos : nat) : draw :=
  let '(u, pos) := RANDOM_UNIFORM src pos in
  Done (u, s, pos).

Definition TrigXnoise_linear_min (s : noise) (pos : nat) : draw :=
  let '(a, pos) := RANDOM_UNIFORM src pos in
  let '(b, pos) := RANDOM_UNIFORM src pos in
  Done (if Qltb a b then a else b, s, pos).

Definition TrigXnoise_linear_max (s : noise) (pos : nat) : draw :=
  let '(a, pos) := RANDOM_UNIFORM src pos in
  let '(b, pos) := RANDOM_UNIFORM src pos in
  Done (if Qltb b a then a else b, s, pos).

Definition TrigXnoise_triangle (s : noise) (pos : nat) : draw :=
  let '(a, pos) := RANDOM_UNIFORM src pos in
  let '(b, pos) := RANDOM_UNIFORM src pos in
  Done ((a + b) * (1#2), s, pos).

Definition TrigXnoise_expon_min (s : noise) (pos : nat) : draw :=
  let s := if Qle_bool (xx1 s) 0 then set_xx1 (1#100000) s else s in
  let '(u, pos) := RANDOM_UNIFORM src pos in
  Done (clip01 (- logf u / xx1 s), s, pos).

Definition TrigXnoise_expon_max (s : noise) (pos : nat) : draw :=
  let s := if Qle_bool (xx1 s) 0 then set_xx1 (1#100000) s else s in
  let '(u, pos) := RANDOM_UNIFORM src pos in
  Done (clip01 (1 - (- logf u / xx1 s)), s, pos).

Definition TrigXnoise_biexpon (s : noise) (pos : nat) : draw :=
  let s := if Qle_bool (xx1 s) 0 then set_xx1 (1#100000) s else s in
  let '(u, pos) := RANDOM_UNIFORM src pos in
  let sum := u * 2 in
  let '(polar, sum) := if Qltb 1 sum then (-(1), 2 - sum) else (1, sum) in
  Done (clip01 ((1#2) * (polar * logf sum / xx1 s) + (1#2)), s, pos).

(** [do { rnd = RANDOM_UNIFORM; } while (rnd == 0.5);] with at most
    [fuel] draws. *)
Fixpoint cauchy_rnd (fuel : nat) (pos : nat) : run (Q * nat) :=
  match fuel with
  | O => NoFuel
  | S fuel' =>
      let '(rnd, pos) := RANDOM_UNIFORM src pos in
      if Qeq_bool rnd (1#2) then cauchy_rnd fuel' pos else Done (rnd, pos)
  end.

Definition TrigXnoise_cauchy (fuel : nat) (s : noise) (pos : nat) : draw :=
  let* (rnd, pos) := cauchy_rnd fuel pos in
  let '(r, pos) := rand src pos in
  let dir := if (r <? Z.quot RAND_MAX 2)%Z then -(1) else 1 in
  Done (clip01 ((1#2) * (tanf rnd * xx1 s * dir) + (1#2)), s, pos).

Definition TrigXnoise_weibull (s : noise) (pos : nat) : draw :=
  let s := if Qle_bool (xx2 s) 0 then set_xx2 (1#100000) s else s in
  let '(u, pos) := RANDOM_UNIFORM src pos in
  let rnd := 1 / (1 - u) in
  Done (clip01 (xx1 s * powf (logf rnd) (1 / xx2 s)), s, pos).

Definition TrigXnoise_gaussian (s : noise) (pos : nat) : draw :=
  let '(u1, pos) := RANDOM_UNIFORM src pos in
  let '(u2, pos) := RANDOM_UNIFORM src pos in
  let '(u3, pos) := RANDOM_UNIFORM src pos in
  let '(u4, pos) := RANDOM_UNIFORM src pos in
  let '(u5, pos) := RANDOM_UNIFORM src pos in
  let '(u6, pos) := RANDOM_UNIFORM src pos in
  let rnd := u1 + u2 + u3 + u4 + u5 + u6 in
  Done (clip01 (xx2 s * (rnd - 3) * (33#100) + xx1 s), s, pos).

(** The table of the Poisson distribution for the parameter [x]: for
    [i] from 1 to 11, [tot] cells holding [i], where [tot] is 1000 times
    the probability of [i], truncated.  Returns the buffer and the number
    of cells filled. *)
Definition poisson_fill (x : Q) (buf : list Q) : list Q * Z :=
  let '(buf, tab, _) :=
    for_range 1 12 (fun i '(buf, tab, factorial) =>
      let factorial := (factorial * Z.of_nat i)%Z in
      let tot := Qtrunc (1000 * (powf (27182818 # 10000000) (- x)
                                 * powf x (inject_Z (Z.of_nat i))
                                 / inject_Z factorial)) in
      let '(buf, tab) :=
        for_loop (Z.to_nat tot) (fun _ '(buf, tab) =>
          (set_cell buf tab (inject_Z (Z.of_nat i)), (tab + 1)%Z)) (buf, tab) in
      (buf, tab, factorial)) (buf, 0%Z, 1%Z) in
  (buf, tab).

Definition TrigXnoise_poisson (s : noise) (pos : nat) : draw :=
  let s := if Qltb (xx1 s) (1#10) then set_xx1 (1#10) s else s in
  let s := if Qltb (xx2 s) (1#10) then set_xx2 (1#10) s else s in
  let s :=
    if negb (Qeq_bool (xx1 s) (lastPoissonX1 s)) then
      let '(buf, tab) := poisson_fill (xx1 s) (poisson_buffer s) in
      Noise (xx1 s) (xx2 s) (xx1 s) tab buf (walkerValue s) (loop_buffer s)
            (loopChoice s) (loopCountPlay s) (loopTime s) (loopCountRec s)
            (loopLen s) (loopStop s)
    else s in
  let '(r, pos) := rand src pos in
  let* k := c_rem r (poisson_tab s) in
  Done (clip01 (cell (poisson_buffer s) k / 12 * xx2 s), s, pos).

(** The step of the random walk, shared by the walker and by the
    recording phase of the looped walk (which contains the same
    statements). *)
Definition walk (s : noise) (pos : nat) : run (noise * nat) :=
  let s := if Qltb (xx2 s) (2#1000) then set_xx2 (2#1000) s else s in
  let modulo := Qtrunc (xx2 s * 1000) in
  let '(r, pos) := rand src pos in
  let dir := Z.rem r 2 in
  let '(r, pos) := rand src pos in
  let* m := c_rem r modulo in
  let delta := inject_Z (m - Z.quot modulo 2) * (1#1000) in
  let w := if (dir =? 0)%Z then walkerValue s + delta else walkerValue s - delta in
  let w := if Qltb (xx1 s) w then xx1 s else w in
  let w := if Qltb w 0 then 0 else w in
  Done (set_walkerValue w s, pos).

Definition TrigXnoise_walker (s : noise) (pos : nat) : draw :=
  let* (s, pos) := walk s pos in
  Done (walkerValue s, s, pos).

Definition TrigXnoise_loopseg (s : noise) (pos : nat) : draw :=
  if (loopChoice s =? 0)%Z then
    let s := Noise (xx1 s) (xx2 s) (lastPoissonX1 s) (poisson_tab s)
                   (poisson_buffer s) (walkerValue s) (loop_buffer s)
                   (loopChoice s) 0 0 (loopCountRec s) (loopLen s) (loopStop s) in
    let* (s, pos) := walk s pos in
    let buf := set_cell (loop_buffer s) (loopCountRec s) (walkerValue s) in
    let rec := (loopCountRec s + 1)%Z in
    if (rec <? loopLen s)%Z then
      Done (walkerValue s,
            Noise (xx1 s) (xx2 s) (lastPoissonX1 s) (poisson_tab s)
                  (poisson_buffer s) (walkerValue s) buf
                  0 (loopCountPlay s) (loopTime s) rec (loopLen s) (loopStop s),
            pos)
    else
      let '(r, pos) := rand src pos in
      let k := Z.rem r 4 in
      Done (walkerValue s,
            Noise (xx1 s) (xx2 s) (lastPoissonX1 s) (poisson_tab s)
                  (poisson_buffer s) (walkerValue s) buf
                  1 (loopCountPlay s) (loopTime s) rec (loopLen s) (k + 1),
            pos)
  else
    let w := cell (loop_buffer s) (loopCountPlay s) in
    let play := (loopCountPlay s + 1)%Z in
    let '(choice, play, time) :=
      if (play <? loopLen s)%Z then (1%Z, play, loopTime s)
      else (loopChoice s, 0%Z, (loopTime s + 1)%Z) in
    if (time =? loopStop s)%Z then
      let '(r, pos) := rand src pos in
      let k := Z.rem r 10 in
      Done (w,
            Noise (xx1 s) (xx2 s) (lastPoissonX1 s) (poisson_tab s)
                  (poisson_buffer s) w (loop_buffer s)
                  0 play time 0 (k + 3) (loopStop s),
            pos)
    else
      Done (w,
            Noise (xx1 s) (xx2 s) (lastPoissonX1 s) (poisson_tab s)
                  (poisson_buffer s) w (loop_buffer s)
                  choice play time 0 (loopLen s) (loopStop s),
            pos).

(** [k] successive draws of the looped walk: for every draw, the phase
    it was made in ([loopChoice] at the call: 0 recording, 1 playback)
    and the value returned. *)
Fixpoint loopseg_run (k : nat) (s : noise) (pos : nat)
  : run (list (Z * Q) * noise * nat) :=
  match k with
  | O => Done ([], s, pos)
  | S k' =>
      let* (v, s1, pos1) := TrigXnoise_loopseg s pos in
      let* (vs, s2, pos2) := loopseg_run k' s1 pos1 in
      Done ((loopChoice s, v) :: vs, s2, pos2)
  end.

(** The call through [self->type_func_ptr]. *)
Definition call_type (fuel : nat) (f : option type_func) (s : noise) (pos : nat)
  : draw :=
  match f with
  | None => Fault
  | Some ptr_uniform => TrigXnoise_uniform s pos
  | Some ptr_linear_min => TrigXnoise_linear_min s pos
  | Some ptr_linear_max => TrigXnoise_linear_max s pos
  | Some ptr_triangle => TrigXnoise_triangle s pos
  | Some ptr_expon_min => TrigXnoise_expon_min s pos
  | Some ptr_expon_max => TrigXnoise_expon_max s pos
  | Some ptr_biexpon => TrigXnoise_biexpon s pos
  | Some ptr_cauchy => TrigXnoise_cauchy fuel s pos
  | Some ptr_weibull => TrigXnoise_weibull s pos
  | Some ptr_gaussian => TrigXnoise_gaussian s pos
  | Some ptr_poisson => TrigXnoise_poisson s pos
  | Some ptr_walker => TrigXnoise_walker s pos
  | Some ptr_loopseg => TrigXnoise_loopseg s pos
  end.

End Distributions.

(** The switch of [TrigXnoise_setRandomType]. *)
Definition random_type (type : Z) (old : option type_func) : option type_func :=
  match type with
  | 0%Z => Some ptr_uniform
  | 1%Z => Some ptr_linear_min
  | 2%Z => Some ptr_linear_max
  | 3%Z => Some ptr_triangle
  | 4%Z => Some ptr_expon_min
  | 5%Z => Some ptr_expon_max
  | 6%Z => Some ptr_biexpon
  | 7%Z => Some ptr_cauchy
  | 8%Z => Some ptr_weibull
  | 9%Z => Some ptr_gaussian
  | 10%Z => Some ptr_poisson
  | 11%Z => Some ptr_walker
  | 12%Z => Some ptr_loopseg
  | _ => old
  end.

Record fields : Type := Fields {
  input_stream : Stream;
  x1 : PyObject;
  x2 : PyObject;
  x1_stream : Stream;
  x2_stream : Stream;
  type_func_ptr : option type_func;
  type : Z;
  value : Q;
  dist : noise;               (* xx1 ... loopStop *)
  modebuffer : list Z         (* int modebuffer[4] *)
}.

Definition self : Type := pyo_audio fields.

Definition set_dist (d : noise) (s : fields) : fields :=
  Fields (input_stream s) (x1 s) (x2 s) (x1_stream s) (x2_stream s)
         (type_func_ptr s) (type s) (value s) d (modebuffer s).

Definition set_value (v : Q) (d : noise) (s : fields) : fields :=
  Fields (input_stream s) (x1 s) (x2 s) (x1_stream s) (x2_stream s)
         (type_func_ptr s) (type s) v d (modebuffer s).

Section Generate.
Variable logf : Q -> Q.
Variable tanf : Q -> Q.
Variable powf : Q -> Q -> Q.
Variable src : RandSrc.
Variable fuel : nat.
Variable Stream_getData : Stream -> list Q.

(** [if (in[i] == 1) self->value = type_func(self);] once [prepare] has
    made the per-sample assignments to [xx1] and [xx2] that the variant
    does on a trigger. *)
Definition sample_step (x : Q) (prepare : noise -> noise) (s : fields) (pos : nat)
  : run (fields * nat) :=
  if Qeq_bool x 1 then
    let* (v, d, pos) :=
      call_type logf tanf powf src fuel (type_func_ptr s) (prepare (dist s)) pos in
    Done (set_value v d s, pos)
  else Done (s, pos).

(** The loop of the four variants: [self->data[i] = self->value] closes
    every pass. *)
Definition generate_loop (prepare : nat -> noise -> noise) (o : self) (pos : nat)
  : run (self * nat) :=
  let inp := Stream_getData (input_stream (st o)) in
  for_loop (bufsize o) (fun i r =>
    let* (o, pos) := r in
    let* (s, pos) := sample_step (sample inp i) (prepare i) (st o) pos in
    Done (store i (value s) (set_st s o), pos)) (Done (o, pos)).

Definition TrigXnoise_generate_ii (o : self) (pos : nat) : run (self * nat) :=
  let d := set_xx2 (PyFloat_AS_DOUBLE (x2 (st o)))
             (set_xx1 (PyFloat_AS_DOUBLE (x1 (st o))) (dist (st o))) in
  generate_loop (fun _ d => d) (set_st (set_dist d (st o)) o) pos.

Definition TrigXnoise_generate_ai (o : self) (pos : nat) : run (self * nat) :=
  let x1s := Stream_getData (x1_stream (st o)) in
  let d := set_xx2 (PyFloat_AS_DOUBLE (x2 (st o))) (dist (st o)) in
  generate_loop (fun i d => set_xx1 (sample x1s i) d)
                (set_st (set_dist d (st o)) o) pos.

Definition TrigXnoise_generate_ia (o : self) (pos : nat) : run (self * nat) :=
  let x2s := Stream_getData (x2_stream (st o)) in
  let d := set_xx1 (PyFloat_AS_DOUBLE (x1 (st o))) (dist (st o)) in
  generate_loop (fun i d => set_xx2 (sample x2s i) d)
                (set_st (set_dist d (st o)) o) pos.

Definition TrigXnoise_generate_aa (o : self) (pos : nat) : run (self * nat) :=
  let x1s := Stream_getData (x1_stream (st o)) in
  let x2s := Stream_getData (x2_stream (st o)) in
  generate_loop (fun i d => set_xx2 (sample x2s i) (set_xx1 (sample x1s i) d)) o pos.

End Generate.

(** The distribution fields as [TrigXnoise_new] sets them; the first
    length of the looped walk is drawn there. *)
Definition noise_new (src : RandSrc) (pos : nat) : noise * nat :=
  let '(r, pos) := rand src pos in
  (Noise (1#2) (1#2) (-(99)) 0 (repeat 0 2000) (1#2) (repeat 0 15)
         0 0 0 0 (Z.rem r 10 + 3) 0, pos).

(** The object after [TrigXnoise_new] and [TrigXnoise_init] with the
    keyword argument [type] and constant [x1] and [x2]; the first block
    that the init function computes is left out. *)
Definition TrigXnoise_init (src : RandSrc) (pos : nat) (n : nat) (rate : Q)
    (input : Stream) (ty : Z) (a b : Q) : self * nat :=
  let '(d, pos) := noise_new src pos in
  (PyoAudio n rate (repeat 0 n)
     (Fields input (PyFloat a) (PyFloat b) 0%nat 0%nat (random_type ty None) ty 0 d
             [0; 0; 0; 0]%Z), pos).

(** [TrigXnoise_setRandomType]: the switch on [self->type]. *)
Definition TrigXnoise_setRandomType (s : fields) : fields :=
  Fields (input_stream s) (x1 s) (x2 s) (x1_stream s) (x2_stream s)
         (random_type (type s) (type_func_ptr s)) (type s) (value s) (dist s)
         (modebuffer s).

(** [TrigXnoise_setType]: an [int] is stored in the [int] field
    [self->type] and the distribution function is selected again; any
    other argument is
    ignored.  The method returns [None] and sets no error. *)
Definition TrigXnoise_setType (arg : option PyObject) (o : self) : self :=
  match arg with
  | None => o
  | Some a =>
      if PyInt_Check a then
        let s := st o in
        set_st (TrigXnoise_setRandomType
                  (Fields (input_stream s) (x1 s) (x2 s) (x1_stream s) (x2_stream s)
                          (type_func_ptr s) (int_of_long (PyInt_AsLong a)) (value s)
                          (dist s)
                          (modebuffer s))) o
      else o
  end.

End TrigXnoise.

(** ** TrigXnoiseMidi *)

Module TrigXnoiseMidi.

Record fields : Type := Fields {
  input_stream : Stream;
  x1 : PyObject;
  x2 : PyObject;
  x1_stream : Stream;
  x2_stream : Stream;
  type_func_ptr : option TrigXnoise.type_func;
  scale : Z;                  (* 0 = Midi, 1 = frequency, 2 = transpo *)
  range_min : Z;
  range_max : Z;
  centralkey : Z;
  type : Z;
  value : Q;
  dist : TrigXnoise.noise;    (* xx1 ... loopStop *)
  modebuffer : list Z
}.

Definition self : Type := pyo_audio fields.

Definition set_dist (d : TrigXnoise.noise) (s : fields) : fields :=
  Fields (input_stream s) (x1 s) (x2 s) (x1_stream s) (x2_stream s)
         (type_func_ptr s) (scale s) (range_min s) (range_max s) (centralkey s)
         (type s) (value s) d (modebuffer s).

Definition set_value (v : Q) (d : TrigXnoise.noise) (s : fields) : fields :=
  Fields (input_stream s) (x1 s) (x2 s) (x1_stream s) (x2_stream s)
         (type_func_ptr s) (scale s) (range_min s) (range_max s) (centralkey s)
         (type s) v d (modebuffer s).

Section Generate.
Variable logf : Q -> Q.
Variable tanf : Q -> Q.
Variable powf : Q -> Q -> Q.
Variable src : RandSrc.
Variable fuel : nat.
Variable Stream_getData : Stream -> list Q.

Definition TrigXnoiseMidi_convert (s : fields) : Q :=
  let midival :=
    Qtrunc (value s * inject_Z (range_max s - range_min s) + inject_Z (range_min s)) in
  let midival :=
    if (midival <? 0)%Z then 0%Z
    else if (midival >? 127)%Z then 127%Z else midival in
  if (scale s =? 0)%Z then inject_Z midival
  else if (scale s =? 1)%Z
  then (8175798 # 1000000) * powf (10594633 # 10000000) (inject_Z midival)
  else if (scale s =? 2)%Z
  then powf (10594633 # 10000000) (inject_Z (midival - centralkey s))
  else inject_Z midival.

Definition sample_step (x : Q) (prepare : TrigXnoise.noise -> TrigXnoise.noise)
    (s : fields) (pos : nat) : run (fields * nat) :=
  if Qeq_bool x 1 then
    let* (v, d, pos) :=
      TrigXnoise.call_type logf tanf powf src fuel (type_func_ptr s)
                           (prepare (dist s)) pos in
    let s := set_value v d s in
    Done (set_value (TrigXnoiseMidi_convert s) d s, pos)
  else Done (s, pos).

Definition generate_loop (prepare : nat -> TrigXnoise.noise -> TrigXnoise.noise)
    (o : self) (pos : nat) : run (self * nat) :=
  let inp := Stream_getData (input_stream (st o)) in
  for_loop (bufsize o) (fun i r =>
    let* (o, pos) := r in
    let* (s, pos) := sample_step (sample inp i) (prepare i) (st o) pos in
    Done (store i (value s) (set_st s o), pos)) (Done (o, pos)).

Definition TrigXnoiseMidi_generate_ii (o : self) (pos : nat) : run (self * nat) :=
  let d := TrigXnoise.set_xx2 (PyFloat_AS_DOUBLE (x2 (st o)))
             (TrigXnoise.set_xx1 (PyFloat_AS_DOUBLE (x1 (st o))) (dist (st o))) in
  generate_loop (fun _ d => d) (set_st (set_dist d (st o)) o) pos.

Definition TrigXnoiseMidi_generate_ai (o : self) (pos : nat) : run (self * nat) :=
  let x1s := Stream_getData (x1_stream (st o)) in
  let d := TrigXnoise.set_xx2 (PyFloat_AS_DOUBLE (x2 (st o))) (dist (st o)) in
  generate_loop (fun i d => TrigXnoise.set_xx1 (sample x1s i) d)
                (set_st (set_dist d (st o)) o) pos.

Definition TrigXnoiseMidi_generate_ia (o : self) (pos : nat) : run (self * nat) :=
  let x2s := Stream_getData (x2_stream (st o)) in
  let d := TrigXnoise.set_xx1 (PyFloat_AS_DOUBLE (x1 (st o))) (dist (st o)) in
  generate_loop (fun i d => TrigXnoise.set_xx2 (sample x2s i) d)
                (set_st (set_dist d (st o)) o) pos.

Definition TrigXnoiseMidi_generate_aa (o : self) (pos : nat) : run (self * nat) :=
  let x1s := Stream_getData (x1_stream (st o)) in
  let x2s := Stream_getData (x2_stream (st o)) in
  generate_loop (fun i d => TrigXnoise.set_xx2 (sample x2s i)
                              (TrigXnoise.set_xx1 (sample x1s i) d)) o pos.

End Generate.

(** [TrigXnoiseMidi_setScale]: an [int] between 0 and 2 replaces the
    scale; another [int] prints a message on the standard output and
    changes nothing; any other argument is ignored.  The method returns
    [None] and sets no error. *)
Definition TrigXnoiseMidi_setScale (arg : option PyObject) (o : self) : self :=
  match arg with
  | None => o
  | Some a =>
      if PyInt_Check a then
        let tmp := int_of_long (PyInt_AsLong a) in   (* int tmp *)
        if (0 <=? tmp)%Z && (tmp <=? 2)%Z then
          let s := st o in
          set_st (Fields (input_stream s) (x1 s) (x2 s) (x1_stream s) (x2_stream s)
                         (type_func_ptr s) tmp (range_min s) (range_max s)
                         (centralkey s) (type s) (value s) (dist s) (modebuffer s)) o
        else o
      else o
  end.

End TrigXnoiseMidi.

(** ** Fader and Adsr *)

Module Fader.

Record fields : Type := Fields {
  modebuffer : list Z;
  fademode : Z;
  topValue : Q;
  attack : Q;
  release : Q;
  duration : Q;
  currentTime : Q;
  sampleToSec : Q;
  bufsizeToSec : Q;
  stream_active : Z;          (* the three flags of the object's Stream *)
  stream_chnl : Z;
  stream_todac : Z
}.

Definition self : Type := pyo_audio fields.

Definition Fader_internal_stop (o : self) : self :=
  let s := st o in
  let o := set_st (Fields (modebuffer s) (fademode s) (topValue s) (attack s)
                          (release s) (duration s) (currentTime s)
                          (sampleToSec s) (bufsizeToSec s) 0 0 0) o in
  for_loop (bufsize o) (fun i o => store i 0 o) o.

Definition Fader_generate_auto (o : self) : self :=
  for_loop (bufsize o) (fun i o =>
    let s := st o in
    let val :=
      if Qle_bool (currentTime s) (attack s) then currentTime s / attack s
      else if Qltb (duration s) (currentTime s) then 0
      else if Qle_bool (duration s - release s) (currentTime s)
      then (duration s - currentTime s) / release s
      else 1 in
    let o := store i val o in
    set_st (Fields (modebuffer s) (fademode s) (topValue s) (attack s)
                   (release s) (duration s) (currentTime s + sampleToSec s)
                   (sampleToSec s) (bufsizeToSec s) (stream_active s)
                   (stream_chnl s) (stream_todac s)) o) o.

Definition Fader_generate_wait (o : self) : self :=
  let o :=
    for_loop (bufsize o) (fun i o =>
      let s := st o in
      let '(val, top) :=
        if (fademode s =? 0)%Z then
          let val := if Qle_bool (currentTime s) (attack s)
                     then currentTime s / attack s else 1 in
          (val, val)
        else
          (if Qle_bool (currentTime s) (release s)
           then (1 - currentTime s / release s) * topValue s else 0,
           topValue s) in
      let o := store i val o in
      set_st (Fields (modebuffer s) (fademode s) top (attack s)
                     (release s) (duration s) (currentTime s + sampleToSec s)
                     (sampleToSec s) (bufsizeToSec s) (stream_active s)
                     (stream_chnl s) (stream_todac s)) o) o in
  if (fademode (st o) =? 1)%Z && Qltb (release (st o)) (currentTime (st o))
  then Fader_internal_stop o else o.


End Fader.

Module Adsr.

Record fields : Type := Fields {
  modebuffer : list Z;
  fademode : Z;
  topValue : Q;
  attack : Q;
  decay : Q;
  sustain : Q;
  release : Q;
  duration : Q;
  currentTime : Q;
  sampleToSec : Q;
  bufsizeToSec : Q;
  stream_active : Z;
  stream_chnl : Z;
  stream_todac : Z
}.

Definition self : Type := pyo_audio fields.

(** [self->currentTime += self->sampleToSec], with a new [topValue]. *)
Definition advance (top : Q) (s : fields) : fields :=
  Fields (modebuffer s) (fademode s) top (attack s) (decay s) (sustain s)
         (release s) (duration s) (currentTime s + sampleToSec s)
         (sampleToSec s) (bufsizeToSec s) (stream_active s)
         (stream_chnl s) (stream_todac s).

Definition Adsr_internal_stop (o : self) : self :=
  let s := st o in
  let o := set_st (Fields (modebuffer s) (fademode s) (topValue s) (attack s)
                          (decay s) (sustain s) (release s) (duration s)
                          (currentTime s) (sampleToSec s) (bufsizeToSec s)
                          0 0 0) o in
  for_loop (bufsize o) (fun i o => store i 0 o) o.

Definition Adsr_generate_auto (o : self) : self :=
  for_loop (bufsize o) (fun i o =>
    let s := st o in
    let val :=
      if Qle_bool (currentTime s) (attack s) then currentTime s / attack s
      else if Qle_bool (currentTime s) (attack s + decay s)
      then (decay s - (currentTime s - attack s)) / decay s * (1 - sustain s)
           + sustain s
      else if Qltb (duration s) (currentTime s) then 0
      else if Qle_bool (duration s - release s) (currentTime s)
      then (duration s - currentTime s) / release s * sustain s
      else sustain s in
    let o := store i val o in
    set_st (advance (topValue s) s) o) o.

Definition Adsr_generate_wait (o : self) : self :=
  let o :=
    for_loop (bufsize o) (fun i o =>
      let s := st o in
      let '(val, top) :=
        if (fademode s =? 0)%Z then
          let val :=
            if Qle_bool (currentTime s) (attack s) then currentTime s / attack s
            else if Qle_bool (currentTime s) (attack s + decay s)
            then (decay s - (currentTime s - attack s)) / decay s * (1 - sustain s)
                 + sustain s
            else sustain s in
          (val, val)
        else
          (if Qle_bool (currentTime s) (release s)
           then topValue s * (1 - currentTime s / release s) else 0,
           topValue s) in
      let o := store i val o in
      set_st (advance top s) o) o in
  if (fademode (st o) =? 1)%Z && Qltb (release (st o)) (currentTime (st o))
  then Adsr_internal_stop o else o.

End Adsr.

(** ** Hilbert: the taps of HilbertMain *)

Module Hilbert.

Record fields : Type := Fields {
  modebuffer : list Z;
  chnl : Z                    (* 0 = real, 1 = imag *)
}.

Definition self : Type := pyo_audio fields.

(** The copy loop of [Hilbert_compute_next_data_frame]; [tmp] is the
    buffer that [HilbertMain_getSamplesBuffer] returns.  The call of the
    post-processing function that follows it is added by
    [Hilbert_compute_next_data_frame_muladd] below. *)
Definition Hilbert_compute_next_data_frame (tmp : list Q) (o : self) : self :=
  let offset := (chnl (st o) * Z.of_nat (bufsize o))%Z in
  for_loop (bufsize o) (fun i o =>
    store i (TrigXnoise.cell tmp (Z.of_nat i + offset)) o) o.

(** [Hilbert_compute_next_data_frame] with the call through
    [self->muladd_func_ptr] that ends it.  The nine post-processing
    functions are macros of a header that is not among the sources: the
    function called is the parameter [muladd], and it receives the object
    once the copy loop has filled its buffer. *)
Definition Hilbert_compute_next_data_frame_muladd
    (muladd : self -> self) (tmp : list Q) (o : self) : self :=
  muladd (Hilbert_compute_next_data_frame tmp o).

End Hilbert.

(** ** The block contract *)

(** A compute function, as the server calls it: it takes the object and
    the part of the world it acts on (the position in the random
    sequence, a trace, another object) and, unless it stops the process,
    gives both back. *)
Definition compute (P W : Type) : Type :=
  pyo_audio P -> W -> run (pyo_audio P * W).

Definition lift_pure {P : Type} (gen : pyo_audio P -> pyo_audio P) : compute P unit :=
  fun o w => Done (gen o, w).

Definition lift_world {P W : Type} (gen : pyo_audio P -> W -> pyo_audio P * W)
  : compute P W :=
  fun o w => Done (gen o w).

(** The full-overwrite contract of the data model, for the objects whose
    fields satisfy [pre]: whatever the output buffer holds when the
    compute function is called, the function ends the same way, and when
    it returns, the object it leaves (buffer included) and the world are
    the same.  No sample of the previous block can then be read in the
    buffer of the next one. *)
Definition overwrites_block {P W : Type} (pre : P -> Prop) (gen : compute P W)
  : Prop :=
  forall (o : pyo_audio P) (w : W) (d1 d2 : list Q),
    pre (st o) -> length d1 = bufsize o -> length d2 = bufsize o ->
    gen (set_data d1 o) w = gen (set_data d2 o) w
    /\ forall o1 w1, gen (set_data d1 o) w = Done (o1, w1) ->
                     length (data o1) = bufsize o.

(** No condition on the fields. *)
Definition any_fields {P : Type} (p : P) : Prop := True.

(** Two objects that differ at most in the cells of their buffers from
    index [k] on. *)
Definition same_but_data {P : Type} (k : nat) (a b : pyo_audio P) : Prop :=
  bufsize a = bufsize b /\ sr a = sr b /\ st a = st b
  /\ length (data a) = bufsize a /\ length (data b) = bufsize b
  /\ forall j, (j < k)%nat -> data a !! j = data b !! j.

(** ** The ramp as the design document words it *)




(** * Scenarios used by the examples *)

(** The server table used in the examples: stream 0 carries the input,
    stream 1 the threshold. *)
Definition thresh_env (inp thr : list Q) : Stream -> list Q :=
  fun s => match s with O => inp | _ => thr end.

(** A detector in the up-and-down mode, armed, with the constant
    threshold 0 and the threshold stream 1. *)
Definition thresh_both (n : nat) : Thresh.self :=
  PyoAudio n 44100 (repeat 0 n)
    (Thresh.Fields 0%nat (PyFloat 0) 1%nat 2 1 1).

(** A Hilbert filter at rest whose twelve coefficients are all 1/2. *)
Definition hilbert_rest (n : nat) : HilbertMain.self :=
  PyoAudio n 44100 (repeat 0 n)
    (HilbertMain.Fields 0%nat (repeat (1 # 2) 12) (repeat 0 12) (repeat 0 12)
                        (repeat 0 (2 * n))).

(** A counter in the back-and-forth mode over [0, 3], as [Counter_init]
    leaves it. *)
Definition counter_pingpong : Counter.self := Counter.Counter_init 4 44100 0%nat 0 3 2.

(** [powf] on the arguments where it is a rational number: an integral
    exponent. *)
Definition powf_int (b e : Q) : Q := Qpower b (Qfloor e).

(** A random sequence that is constantly [r]. *)
Definition rand_const (r : Z) : RandSrc := fun _ => r.

(** The distribution fields of a fresh TrigXnoise whose [x1] is 30. *)
Definition noise_x1_30 : TrigXnoise.noise :=
  TrigXnoise.set_xx1 30 (fst (TrigXnoise.noise_new (rand_const 0) 0)).

(** A TrigXnoise of type 10 (Poisson) with [x1 = 30] and [x2 = 1/2], one
    sample per block. *)
Definition xnoise_poisson_30 : TrigXnoise.self :=
  fst (TrigXnoise.TrigXnoise_init (rand_const 0) 0 1 44100 0%nat 10 30 (1#2)).

(** A TrigEnv on a table of four samples read in one second at four
    samples per second, six samples per block. *)
Definition trigenv_4 : TrigEnv.self :=
  TrigEnv.TrigEnv_init 6 4 0%nat (Table [0; 1; 1; 0] 4) 1.

(** A TrigFunc with two samples per block. *)
Definition trigfunc_2 : TrigFunc.self :=
  PyoAudio 2 44100 [0; 0] (TrigFunc.Fields 0%nat PyOther).


(** A random sequence that always returns [(RAND_MAX + 1) / 2]: every
    uniform draw is 1/2. *)
Definition rand_half : RandSrc := rand_const 1073741824.

(** A TrigChoice over the table [1, 2, 3], two samples per block, its
    function pointers not yet bound. *)
Definition trigchoice_3 : TrigChoice.self :=
  PyoAudio 2 44100 [0; 0]
    (TrigChoice.Fields 0%nat 3 [1; 2; 3] (Glide.Make 0 0 0 0 0 0) [0; 0]%Z None None).

(** A TrigXnoiseMidi as [TrigXnoiseMidi_new] leaves it (Midi scale, range
    0 to 127, central key 64), with [n] samples per block and no
    distribution selected yet. *)
Definition xnoisemidi_new (n : nat) : TrigXnoiseMidi.self :=
  PyoAudio n 44100 (repeat 0 n)
    (TrigXnoiseMidi.Fields 0%nat (PyFloat (1#2)) (PyFloat (1#2)) 0%nat 0%nat None
       0 0 127 64 0 0 (fst (TrigXnoise.noise_new (rand_const 0) 0)) [0; 0; 0; 0]%Z).

(** A Fader at ten samples per second, four samples per block, with a
    fade-in and a fade-out of 0.2 second and a duration of one second. *)
Definition fader_auto : Fader.self :=
  PyoAudio 4 10 [0; 0; 0; 0]
    (Fader.Fields [0; 0]%Z 0 0 (2#10) (2#10) 1 0 (1#10) (4#10) 1 0 0).


(** The Fader [fader_auto] once its clock stands at 1.2 second, past its
    duration; its buffer holds the samples of an earlier block. *)
Definition fader_done : Fader.self :=
  PyoAudio 4 10 [1; 1; 1; 1]
    (Fader.Fields [0; 0]%Z 0 0 (2#10) (2#10) 1 (12#10) (1#10) (4#10) 1 0 0).

(** An Adsr at ten samples per second, four samples per block: attack and
    decay of 0.1 second, sustain level 1/2, release of 0.2 second,
    duration of one second; its clock stands at 1.2 second, past the
    duration, and its buffer holds the samples of an earlier block. *)
Definition adsr_done : Adsr.self :=
  PyoAudio 4 10 [1; 1; 1; 1]
    (Adsr.Fields [0; 0]%Z 0 0 (1#10) (1#10) (1#2) (2#10) 1 (12#10) (1#10) (4#10) 1 0 0).

(** * Properties *)

(** ** Arithmetic and loop lemmas *)

Lemma Qltb_lt (a b : Q) : Qltb a b = true <-> a < b.
Proof.
  unfold Qltb. rewrite negb_true_iff. split; intros H.
  - apply Qnot_le_lt. intros Hle. apply Qle_bool_iff in Hle. congruence.
  - destruct (Qle_bool b a) eqn:E; [|reflexivity].
    apply Qle_bool_iff in E. exfalso. apply (Qlt_not_le _ _ H E).
Qed.

Lemma Qltb_ge (a b : Q) : Qltb a b = false <-> b <= a.
Proof.
  unfold Qltb. rewrite negb_false_iff. apply Qle_bool_iff.
Qed.

Lemma Qle_bool_gt (a b : Q) : Qle_bool a b = false <-> b < a.
Proof.
  rewrite <- Qltb_lt. unfold Qltb. rewrite negb_true_iff. tauto.
Qed.


Lemma Qtrunc_inject (z : Z) : Qtrunc (inject_Z z) = z.
Proof. unfold Qtrunc. simpl. apply Z.quot_1_r. Qed.

Lemma Qtrunc_nonneg (x : Q) : 0 <= x -> (0 <= Qtrunc x)%Z.
Proof.
  intros H. unfold Qtrunc. apply Z.quot_pos; [|lia].
  unfold Qle in H. simpl in H. lia.
Qed.

Lemma for_loop_0 {S : Type} (body : nat -> S -> S) (s : S) :
  for_loop 0 body s = s.
Proof. reflexivity. Qed.

Lemma for_loop_S {S : Type} (n : nat) (body : nat -> S -> S) (s : S) :
  for_loop (Datatypes.S n) body s = body n (for_loop n body s).
Proof.
  unfold for_loop. rewrite seq_S, fold_left_app. reflexivity.
Qed.

(** An invariant that every iteration preserves holds after the loop. *)
Lemma for_loop_ind {S : Type} (I : nat -> S -> Prop) (n : nat)
      (body : nat -> S -> S) (s : S) :
  I 0%nat s ->
  (forall i s', (i < n)%nat -> I i s' -> I (Datatypes.S i) (body i s')) ->
  I n (for_loop n body s).
Proof.
  intros H0 Hstep. induction n as [|n IH].
  - exact H0.
  - rewrite for_loop_S. apply Hstep; [lia|].
    apply IH. intros i s' Hi. apply Hstep. lia.
Qed.

(** Two runs of a loop from related states end in related states. *)
Lemma for_loop_rel {S : Type} (R : nat -> S -> S -> Prop) (n : nat)
      (body : nat -> S -> S) (s1 s2 : S) :
  R 0%nat s1 s2 ->
  (forall i a b, (i < n)%nat -> R i a b -> R (Datatypes.S i) (body i a) (body i b)) ->
  R n (for_loop n body s1) (for_loop n body s2).
Proof.
  intros H0 Hstep. induction n as [|n IH].
  - exact H0.
  - rewrite !for_loop_S. apply Hstep; [lia|].
    apply IH. intros i a b Hi. apply Hstep. lia.
Qed.

(** ** Thresh *)

(** In the upward mode a sample equal to the threshold never raises a
    pulse, whatever the latch holds. *)
Lemma Thresh_upward_equal_no_pulse (o : Thresh.self) (i : nat) (x th : Q) :
  x == th -> data (Thresh.upward th x i o) = <[i := 0]> (data o).
Proof.
  intros Hx. unfold Thresh.upward. cbn zeta.
  assert (Hlt : Qltb th x = false).
  { apply Qltb_ge. rewrite Hx. apply Qle_refl. }
  rewrite Hlt. cbn [andb].
  destruct (Qle_bool x th && _); reflexivity.
Qed.

(** C3 (code defect): with a streaming threshold and [dir = 2] the latch
    is re-armed on every sample, so an input that stays above the
    threshold raises a pulse on every sample; the constant-threshold
    variant raises one pulse on the same input. *)
Theorem Thresh_generates_a_both_repeats :
  data (Thresh.Thresh_generates_a (thresh_env [1; 1; 1] [0; 0; 0]) (thresh_both 3))
    = [1; 1; 1]
  /\ data (Thresh.Thresh_generates_i (thresh_env [1; 1; 1] [0; 0; 0]) (thresh_both 3))
    = [1; 0; 0].
Proof. split; vm_compute; reflexivity. Qed.

(** ** HilbertMain *)

(** In the first chain every section is the documented allpass section. *)
Lemma HilbertMain_real_section_spec (c : list Q) (j : nat) (l : HilbertMain.locals) :
  let l' := HilbertMain.real_section c j l in
  (HilbertMain.yn1 l', HilbertMain.l_x1 l', HilbertMain.l_y1 l')
    = HilbertMain.allpass_section_spec c (HilbertMain.l_x1 l) (HilbertMain.l_y1 l)
        j (HilbertMain.xn1 l).
Proof. reflexivity. Qed.

(** C2 (code defect): in the second chain the memories of section [j]
    receive [xn1] and [yn1], the last values of the first chain, instead
    of the section's own input and output.  For a filter at rest with all
    coefficients 1/2 whose first chain has just produced 1/64, section 6
    on the input 1 computes the output 1/2; the documented section would
    store 1 in [x1[6]] and 1/2 in [y1[6]], the code stores 1/64 in both.
    After a one-sample block all memories of the second chain hold 1/64. *)
Theorem HilbertMain_filters_imag_memory :
  let l := HilbertMain.Locals (repeat 0 12) (repeat 0 12) (1#64) (1#64) 1 0 in
  let l' := HilbertMain.imag_section (repeat (1#2) 12) 6 l in
  let '(y, x1s, y1s) :=
    HilbertMain.allpass_section_spec (repeat (1#2) 12) (repeat 0 12) (repeat 0 12) 6 1 in
  (Qred (HilbertMain.yn2 l') = (1#2) /\ Qred y = (1#2))
  /\ (map Qred x1s !! 6%nat = Some 1 /\ map Qred y1s !! 6%nat = Some (1#2))
  /\ (HilbertMain.l_x1 l' !! 6%nat = Some (1#64)
      /\ HilbertMain.l_y1 l' !! 6%nat = Some (1#64))
  /\ (let o := HilbertMain.HilbertMain_filters (fun _ => [1]) (hilbert_rest 1) in
      map Qred (HilbertMain.x1 (st o))
        = [1; 1#2; 1#4; 1#8; 1#16; 1#32; 1#64; 1#64; 1#64; 1#64; 1#64; 1#64]
      /\ map Qred (HilbertMain.y1 (st o))
        = [1#2; 1#4; 1#8; 1#16; 1#32; 1#64; 1#64; 1#64; 1#64; 1#64; 1#64; 1#64]).
Proof. vm_compute. repeat split. Qed.

(** ** Counter *)

(** Forward mode, one trigger: the count is emitted, then advanced, and
    wraps to [min] after [max]. *)
Lemma Counter_forward_trigger (s : Counter.fields) :
  Counter.dir s = 0%Z ->
  let s' := Counter.on_trigger s in
  Counter.value s' = inject_Z (Counter.tmp s)
  /\ Counter.tmp s'
     = (if (Counter.tmp s + 1 >? Counter.max s)%Z then Counter.min s
        else Counter.tmp s + 1)%Z
  /\ Counter.dir s' = 0%Z
  /\ Counter.min s' = Counter.min s /\ Counter.max s' = Counter.max s.
Proof.
  intros Hd. unfold Counter.on_trigger. rewrite Hd. cbn.
  repeat split; try assumption.
Qed.

(** Forward mode, [k] triggers of which only the last may wrap: the values
    [tmp, tmp+1, ..., tmp+k-1] are emitted in this order, and the count
    is back at [min] once [max] has been emitted. *)
Lemma Counter_forward_run (k : nat) : forall s : Counter.fields,
  Counter.dir s = 0%Z ->
  (Counter.tmp s <= Counter.max s)%Z ->
  (Counter.tmp s + Z.of_nat k <= Counter.max s + 1)%Z ->
  Counter.emitted k s = map inject_Z (seqZ (Counter.tmp s) (Z.of_nat k))
  /\ Counter.dir (Counter.after k s) = 0%Z
  /\ Counter.min (Counter.after k s) = Counter.min s
  /\ Counter.max (Counter.after k s) = Counter.max s
  /\ Counter.tmp (Counter.after k s)
     = (if (Counter.tmp s + Z.of_nat k >? Counter.max s)%Z
        then Counter.min s else Counter.tmp s + Z.of_nat k)%Z.
Proof.
  induction k as [|k IH]; intros s Hd Hle Hk.
  - cbn. repeat split; try assumption.
    rewrite Z.add_0_r.
    destruct (Counter.tmp s >? Counter.max s)%Z eqn:E; [lia|reflexivity].
  - destruct (Counter_forward_trigger s Hd) as (Hv & Ht & Hd' & Hmi & Hma).
    cbn [Counter.emitted Counter.after].
    rewrite seqZ_cons by lia. cbn [map].
    replace (Z.pred (Z.of_nat (S k))) with (Z.of_nat k) by lia.
    replace (Z.succ (Counter.tmp s)) with (Counter.tmp s + 1)%Z by lia.
    destruct (Counter.tmp s + 1 >? Counter.max s)%Z eqn:Hw.
    + assert (k = 0%nat) by lia. subst k.
      cbn [Counter.emitted Counter.after].
      change (Z.of_nat 0) with 0%Z. change (Z.of_nat 1) with 1%Z.
      rewrite seqZ_nil by lia.
      rewrite Hv, Hd', Hmi, Hma, Ht, Hw. repeat split; reflexivity.
    + destruct (IH (Counter.on_trigger s) Hd') as (He & Hd2 & Hmi2 & Hma2 & Ht2).
      { rewrite Ht, Hma. lia. }
      { rewrite Ht, Hma. lia. }
      rewrite He, Hv, Hd2, Hmi2, Hma2, Ht2, Ht, Hmi, Hma.
      replace (Counter.tmp s + 1 + Z.of_nat k)%Z
        with (Counter.tmp s + Z.of_nat (S k))%Z by lia.
      repeat split; reflexivity.
Qed.

(** Forward mode from [Counter_init]: the triggers emit [min], [min+1],
    ..., [max], and the trigger after [max] emits [min] again. *)
Lemma Counter_forward_cycle (n : nat) (rate : Q) (inp : Stream) (mi ma : Z) :
  (mi <= ma)%Z ->
  Counter.emitted (Z.to_nat (ma - mi + 2)) (st (Counter.Counter_init n rate inp mi ma 0))
    = map inject_Z (seqZ mi (ma - mi + 1)) ++ [inject_Z mi].
Proof.
  intros Hle.
  set (s := st (Counter.Counter_init n rate inp mi ma 0)).
  assert (Hk : Z.to_nat (ma - mi + 2) = S (Z.to_nat (ma - mi + 1))) by lia.
  rewrite Hk.
  assert (Hsplit : forall k t, Counter.emitted (S k) t
             = Counter.emitted k t ++ [Counter.value (Counter.on_trigger (Counter.after k t))]).
  { induction k as [|k IHk]; intros t; [reflexivity|].
    change (Counter.emitted (S (S k)) t)
      with (Counter.value (Counter.on_trigger t)
              :: Counter.emitted (S k) (Counter.on_trigger t)).
    rewrite IHk. reflexivity. }
  rewrite Hsplit.
  destruct (Counter_forward_run (Z.to_nat (ma - mi + 1)) s) as (He & Hd & Hmi & Hma & Ht).
  - reflexivity.
  - cbn. exact Hle.
  - cbn. lia.
  - rewrite He. cbn [Counter.tmp s st Counter.Counter_init] in *.
    replace (Z.of_nat (Z.to_nat (ma - mi + 1))) with (ma - mi + 1)%Z in * by lia.
    f_equal. f_equal.
    destruct (Counter_forward_trigger _ Hd) as (Hv & _).
    rewrite Hv, Ht. cbn.
    destruct (mi + (ma - mi + 1) >? ma)%Z eqn:E; [reflexivity|lia].
Qed.

(** Back-and-forth mode: a count inside [min, max] stays inside, and the
    emitted value is the count before the step. *)
Lemma Counter_pingpong_trigger (s : Counter.fields) :
  Counter.dir s = 2%Z ->
  (Counter.min s <= Counter.tmp s <= Counter.max s)%Z ->
  (Counter.direction s = 1 \/ Counter.direction s = -1)%Z ->
  let s' := Counter.on_trigger s in
  Counter.value s' = inject_Z (Counter.tmp s)
  /\ Counter.dir s' = 2%Z
  /\ Counter.min s' = Counter.min s /\ Counter.max s' = Counter.max s
  /\ (Counter.min s <= Counter.tmp s' <= Counter.max s)%Z
  /\ (Counter.direction s' = 1 \/ Counter.direction s' = -1)%Z.
Proof.
  intros Hd Hr Hdir. unfold Counter.on_trigger. rewrite Hd. cbn.
  destruct (Counter.tmp s + Counter.direction s >=? Counter.max s)%Z eqn:E1; cbn.
  { repeat split; try assumption; try lia. }
  destruct (Counter.tmp s + Counter.direction s <=? Counter.min s)%Z eqn:E2; cbn.
  { repeat split; try assumption; try lia. }
  repeat split; try assumption; lia.
Qed.

(** Back-and-forth mode: every value emitted by any number of triggers
    lies in [min, max]. *)
Lemma Counter_pingpong_in_range (k : nat) : forall s : Counter.fields,
  Counter.dir s = 2%Z ->
  (Counter.min s <= Counter.tmp s <= Counter.max s)%Z ->
  (Counter.direction s = 1 \/ Counter.direction s = -1)%Z ->
  Forall (fun v => inject_Z (Counter.min s) <= v <= inject_Z (Counter.max s))
         (Counter.emitted k s).
Proof.
  induction k as [|k IH]; intros s Hd Hr Hdir; [constructor|].
  destruct (Counter_pingpong_trigger s Hd Hr Hdir) as (Hv & Hd' & Hmi & Hma & Hr' & Hdir').
  cbn [Counter.emitted]. constructor.
  - rewrite Hv. rewrite <- !Zle_Qle. exact Hr.
  - rewrite <- Hmi, <- Hma. apply IH; try assumption.
    rewrite Hmi, Hma. exact Hr'.
Qed.

(** C4 (code defect): the back-and-forth mode reverses when the step
    reaches [max], not when it would exceed it.  With [min = 0],
    [max = 3] and the count at 2 going up, the step lands on 3, which is
    inside the range, yet the direction is reversed and the count put
    back to 2; from [Counter_init] the triggers emit 0 1 2 2 1 1 2 2 1,
    and 3 is never emitted. *)
Theorem Counter_pingpong_reverses_before_max :
  let s := Counter.Fields 0%nat 2 0 3 2 1 2 in
  (Counter.tmp s + Counter.direction s <= Counter.max s)%Z
  /\ Counter.direction (Counter.on_trigger s) = (-1)%Z
  /\ Counter.tmp (Counter.on_trigger s) = 2%Z
  /\ Counter.emitted 9 (st counter_pingpong)
     = [0; 1; 2; 2; 1; 1; 2; 2; 1].
Proof. vm_compute. repeat split. discriminate. Qed.

(** ** The portamento ramp *)






(** Once the counter has reached [timeStep] the ramp is at rest. *)
Lemma Glide_ramp_rest (g : Glide.t) :
  (Glide.timeStep g <= Glide.timeCount g)%Z -> Glide.ramp g = g.
Proof.
  intros H. unfold Glide.ramp.
  destruct (Glide.timeCount g =? Glide.timeStep g - 1)%Z eqn:E1; [lia|].
  destruct (Glide.timeCount g <? Glide.timeStep g)%Z eqn:E2; [lia|reflexivity].
Qed.


(** ** TrigRand: mode selection *)

Lemma TrigRand_muladd_of_idem (z : Z) (m : TrigRand.muladd_func) :
  TrigRand.muladd_of z (TrigRand.muladd_of z m) = TrigRand.muladd_of z m.
Proof.
  unfold TrigRand.muladd_of. destruct z as [|p|p]; try reflexivity.
  do 6 (try destruct p as [p|p|]; try reflexivity).
Qed.

(** Mode selection touches nothing but the two function pointers. *)
Lemma TrigRand_setProcMode_frame (s : TrigRand.fields) :
  let s' := TrigRand.TrigRand_setProcMode s in
  TrigRand.modebuffer s' = TrigRand.modebuffer s
  /\ TrigRand.glide s' = TrigRand.glide s
  /\ TrigRand.min s' = TrigRand.min s /\ TrigRand.max s' = TrigRand.max s
  /\ TrigRand.min_stream s' = TrigRand.min_stream s
  /\ TrigRand.max_stream s' = TrigRand.max_stream s
  /\ TrigRand.input_stream s' = TrigRand.input_stream s.
Proof. cbn. repeat split. Qed.

(** The three calls of the round trip on the [min] parameter, from any
    object whose [max] mode flag is 0 or 1. *)
Lemma TrigRand_setMin_roundtrip (o : TrigRand.self) (n1 n2 a : PyObject) (s : Stream) :
  PyNumber_Check n1 = true -> PyNumber_Check n2 = true ->
  getStream a = Some s ->
  length (TrigRand.modebuffer (st o)) = 4%nat ->
  (TrigRand.mode (st o) 3 = 0 \/ TrigRand.mode (st o) 3 = 1)%Z ->
  exists o1 o2 o3,
    TrigRand.TrigRand_setMin (Some n1) o = Returned o1 None
    /\ TrigRand.TrigRand_setMin (Some a) o1 = Returned o2 None
    /\ TrigRand.TrigRand_setMin (Some n2) o2 = Returned o3 None
    /\ (TrigRand.mode (st o1) 2 = 0%Z
        /\ TrigRand.proc_func_ptr (st o1)
           = if (TrigRand.mode (st o) 3 =? 0)%Z
             then TrigRand.ptr_generate_ii else TrigRand.ptr_generate_ia)
    /\ (TrigRand.mode (st o2) 2 = 1%Z
        /\ TrigRand.min_stream (st o2) = s
        /\ TrigRand.proc_func_ptr (st o2)
           = if (TrigRand.mode (st o) 3 =? 0)%Z
             then TrigRand.ptr_generate_ai else TrigRand.ptr_generate_aa)
    /\ (TrigRand.modebuffer (st o3) = TrigRand.modebuffer (st o1)
        /\ TrigRand.proc_func_ptr (st o3) = TrigRand.proc_func_ptr (st o1)
        /\ TrigRand.muladd_func_ptr (st o3) = TrigRand.muladd_func_ptr (st o1))
    /\ (data o1 = data o /\ data o2 = data o /\ data o3 = data o)
    /\ (TrigRand.glide (st o1) = TrigRand.glide (st o)
        /\ TrigRand.glide (st o2) = TrigRand.glide (st o)
        /\ TrigRand.glide (st o3) = TrigRand.glide (st o)).
Proof.
  intros Hn1 Hn2 Ha Hlen Hm3.
  assert (Hna : PyNumber_Check a = false) by (destruct a; try discriminate; reflexivity).
  destruct o as [n rate d [inp mi ma mis mas g mb pf mf]].
  cbn [st TrigRand.modebuffer] in Hlen.
  destruct mb as [|m0 [|m1 [|m2 [|m3 [|]]]]]; try discriminate Hlen.
  unfold TrigRand.mode in Hm3. cbn in Hm3.
  eexists. eexists. eexists.
  split.
  { unfold TrigRand.TrigRand_setMin. rewrite Hn1.
    unfold TrigRand.TrigRand_setProcMode, TrigRand.mode.
    cbn -[TrigRand.muladd_of TrigRand.proc_of Z.add Z.mul]. reflexivity. }
  split.
  { unfold TrigRand.TrigRand_setMin. rewrite Hna, Ha.
    unfold TrigRand.TrigRand_setProcMode, TrigRand.mode.
    cbn -[TrigRand.muladd_of TrigRand.proc_of Z.add Z.mul]. reflexivity. }
  split.
  { unfold TrigRand.TrigRand_setMin. rewrite Hn2.
    unfold TrigRand.TrigRand_setProcMode, TrigRand.mode.
    cbn -[TrigRand.muladd_of TrigRand.proc_of Z.add Z.mul]. reflexivity. }
  unfold TrigRand.mode.
  cbn -[TrigRand.muladd_of TrigRand.proc_of Z.add Z.mul].
  rewrite !TrigRand_muladd_of_idem.
  destruct Hm3 as [-> | ->]; repeat split; reflexivity.
Qed.

(** The same round trip on the [max] parameter, from any object whose
    [min] mode flag is 0 or 1. *)
Lemma TrigRand_setMax_roundtrip (o : TrigRand.self) (n1 n2 a : PyObject) (s : Stream) :
  PyNumber_Check n1 = true -> PyNumber_Check n2 = true ->
  getStream a = Some s ->
  length (TrigRand.modebuffer (st o)) = 4%nat ->
  (TrigRand.mode (st o) 2 = 0 \/ TrigRand.mode (st o) 2 = 1)%Z ->
  exists o1 o2 o3,
    TrigRand.TrigRand_setMax (Some n1) o = Returned o1 None
    /\ TrigRand.TrigRand_setMax (Some a) o1 = Returned o2 None
    /\ TrigRand.TrigRand_setMax (Some n2) o2 = Returned o3 None
    /\ (TrigRand.mode (st o1) 3 = 0%Z
        /\ TrigRand.proc_func_ptr (st o1)
           = if (TrigRand.mode (st o) 2 =? 0)%Z
             then TrigRand.ptr_generate_ii else TrigRand.ptr_generate_ai)
    /\ (TrigRand.mode (st o2) 3 = 1%Z
        /\ TrigRand.max_stream (st o2) = s
        /\ TrigRand.proc_func_ptr (st o2)
           = if (TrigRand.mode (st o) 2 =? 0)%Z
             then TrigRand.ptr_generate_ia else TrigRand.ptr_generate_aa)
    /\ (TrigRand.modebuffer (st o3) = TrigRand.modebuffer (st o1)
        /\ TrigRand.proc_func_ptr (st o3) = TrigRand.proc_func_ptr (st o1)
        /\ TrigRand.muladd_func_ptr (st o3) = TrigRand.muladd_func_ptr (st o1))
    /\ (data o1 = data o /\ data o2 = data o /\ data o3 = data o)
    /\ (TrigRand.glide (st o1) = TrigRand.glide (st o)
        /\ TrigRand.glide (st o2) = TrigRand.glide (st o)
        /\ TrigRand.glide (st o3) = TrigRand.glide (st o)).
Proof.
  intros Hn1 Hn2 Ha Hlen Hm2.
  assert (Hna : PyNumber_Check a = false) by (destruct a; try discriminate; reflexivity).
  destruct o as [n rate d [inp mi ma mis mas g mb pf mf]].
  cbn [st TrigRand.modebuffer] in Hlen.
  destruct mb as [|m0 [|m1 [|m2 [|m3 [|]]]]]; try discriminate Hlen.
  unfold TrigRand.mode in Hm2. cbn in Hm2.
  eexists. eexists. eexists.
  split.
  { unfold TrigRand.TrigRand_setMax. rewrite Hn1.
    unfold TrigRand.TrigRand_setProcMode, TrigRand.mode.
    cbn -[TrigRand.muladd_of TrigRand.proc_of Z.add Z.mul]. reflexivity. }
  split.
  { unfold TrigRand.TrigRand_setMax. rewrite Hna, Ha.
    unfold TrigRand.TrigRand_setProcMode, TrigRand.mode.
    cbn -[TrigRand.muladd_of TrigRand.proc_of Z.add Z.mul]. reflexivity. }
  split.
  { unfold TrigRand.TrigRand_setMax. rewrite Hn2.
    unfold TrigRand.TrigRand_setProcMode, TrigRand.mode.
    cbn -[TrigRand.muladd_of TrigRand.proc_of Z.add Z.mul]. reflexivity. }
  unfold TrigRand.mode.
  cbn -[TrigRand.muladd_of TrigRand.proc_of Z.add Z.mul].
  rewrite !TrigRand_muladd_of_idem.
  destruct Hm2 as [-> | ->]; repeat split; reflexivity.
Qed.

(** C7: the setters of [min] and [max] select the compute variant from
    the kind of their argument.  A number clears the parameter's mode
    flag ([modebuffer[2]] for [min], [modebuffer[3]] for [max]) and binds a
    variant that reads the parameter as a constant; an object with a
    stream sets the flag to 1 and binds a variant that reads the stream.
    The sequence number, object, number returns three times without
    error, ends with the flags and the two function pointers of the first
    call, and leaves the sample buffer and the ramp state untouched. *)
Theorem TrigRand_setMin_setMax_round_trip
    (o : TrigRand.self) (n1 n2 a : PyObject) (s : Stream) :
  PyNumber_Check n1 = true -> PyNumber_Check n2 = true ->
  getStream a = Some s ->
  length (TrigRand.modebuffer (st o)) = 4%nat ->
  (TrigRand.mode (st o) 2 = 0 \/ TrigRand.mode (st o) 2 = 1)%Z ->
  (TrigRand.mode (st o) 3 = 0 \/ TrigRand.mode (st o) 3 = 1)%Z ->
  (exists o1 o2 o3,
    TrigRand.TrigRand_setMin (Some n1) o = Returned o1 None
    /\ TrigRand.TrigRand_setMin (Some a) o1 = Returned o2 None
    /\ TrigRand.TrigRand_setMin (Some n2) o2 = Returned o3 None
    /\ (TrigRand.mode (st o1) 2 = 0%Z
        /\ TrigRand.proc_func_ptr (st o1)
           = if (TrigRand.mode (st o) 3 =? 0)%Z
             then TrigRand.ptr_generate_ii else TrigRand.ptr_generate_ia)
    /\ (TrigRand.mode (st o2) 2 = 1%Z
        /\ TrigRand.min_stream (st o2) = s
        /\ TrigRand.proc_func_ptr (st o2)
           = if (TrigRand.mode (st o) 3 =? 0)%Z
             then TrigRand.ptr_generate_ai else TrigRand.ptr_generate_aa)
    /\ (TrigRand.modebuffer (st o3) = TrigRand.modebuffer (st o1)
        /\ TrigRand.proc_func_ptr (st o3) = TrigRand.proc_func_ptr (st o1)
        /\ TrigRand.muladd_func_ptr (st o3) = TrigRand.muladd_func_ptr (st o1))
    /\ (data o1 = data o /\ data o2 = data o /\ data o3 = data o)
    /\ (TrigRand.glide (st o1) = TrigRand.glide (st o)
        /\ TrigRand.glide (st o2) = TrigRand.glide (st o)
        /\ TrigRand.glide (st o3) = TrigRand.glide (st o)))
  /\
  (exists o1 o2 o3,
    TrigRand.TrigRand_setMax (Some n1) o = Returned o1 None
    /\ TrigRand.TrigRand_setMax (Some a) o1 = Returned o2 None
    /\ TrigRand.TrigRand_setMax (Some n2) o2 = Returned o3 None
    /\ (TrigRand.mode (st o1) 3 = 0%Z
        /\ TrigRand.proc_func_ptr (st o1)
           = if (TrigRand.mode (st o) 2 =? 0)%Z
             then TrigRand.ptr_generate_ii else TrigRand.ptr_generate_ai)
    /\ (TrigRand.mode (st o2) 3 = 1%Z
        /\ TrigRand.max_stream (st o2) = s
        /\ TrigRand.proc_func_ptr (st o2)
           = if (TrigRand.mode (st o) 2 =? 0)%Z
             then TrigRand.ptr_generate_ia else TrigRand.ptr_generate_aa)
    /\ (TrigRand.modebuffer (st o3) = TrigRand.modebuffer (st o1)
        /\ TrigRand.proc_func_ptr (st o3) = TrigRand.proc_func_ptr (st o1)
        /\ TrigRand.muladd_func_ptr (st o3) = TrigRand.muladd_func_ptr (st o1))
    /\ (data o1 = data o /\ data o2 = data o /\ data o3 = data o)
    /\ (TrigRand.glide (st o1) = TrigRand.glide (st o)
        /\ TrigRand.glide (st o2) = TrigRand.glide (st o)
        /\ TrigRand.glide (st o3) = TrigRand.glide (st o))).
Proof.
  intros Hn1 Hn2 Ha Hlen Hm2 Hm3. split.
  - exact (TrigRand_setMin_roundtrip o n1 n2 a s Hn1 Hn2 Ha Hlen Hm3).
  - exact (TrigRand_setMax_roundtrip o n1 n2 a s Hn1 Hn2 Ha Hlen Hm2).
Qed.

(** The round trip on the object that [TrigRand_init] builds, with the
    numbers 0.25 and 2 and an object whose stream is number 7. *)
Lemma TrigRand_setMin_setMax_round_trip_witness :
  let o := TrigRand.TrigRand_init 4 44100 0%nat 0 0 in
  (exists o1 o2 o3,
    TrigRand.TrigRand_setMin (Some (PyFloat (1#4))) o = Returned o1 None
    /\ TrigRand.TrigRand_setMin (Some (PyStreamObj 7%nat)) o1 = Returned o2 None
    /\ TrigRand.TrigRand_setMin (Some (PyInt 2)) o2 = Returned o3 None
    /\ (TrigRand.mode (st o1) 2 = 0%Z
        /\ TrigRand.proc_func_ptr (st o1)
           = if (TrigRand.mode (st o) 3 =? 0)%Z
             then TrigRand.ptr_generate_ii else TrigRand.ptr_generate_ia)
    /\ (TrigRand.mode (st o2) 2 = 1%Z
        /\ TrigRand.min_stream (st o2) = 7%nat
        /\ TrigRand.proc_func_ptr (st o2)
           = if (TrigRand.mode (st o) 3 =? 0)%Z
             then TrigRand.ptr_generate_ai else TrigRand.ptr_generate_aa)
    /\ (TrigRand.modebuffer (st o3) = TrigRand.modebuffer (st o1)
        /\ TrigRand.proc_func_ptr (st o3) = TrigRand.proc_func_ptr (st o1)
        /\ TrigRand.muladd_func_ptr (st o3) = TrigRand.muladd_func_ptr (st o1))
    /\ (data o1 = data o /\ data o2 = data o /\ data o3 = data o)
    /\ (TrigRand.glide (st o1) = TrigRand.glide (st o)
        /\ TrigRand.glide (st o2) = TrigRand.glide (st o)
        /\ TrigRand.glide (st o3) = TrigRand.glide (st o)))
  /\
  (exists o1 o2 o3,
    TrigRand.TrigRand_setMax (Some (PyFloat (1#4))) o = Returned o1 None
    /\ TrigRand.TrigRand_setMax (Some (PyStreamObj 7%nat)) o1 = Returned o2 None
    /\ TrigRand.TrigRand_setMax (Some (PyInt 2)) o2 = Returned o3 None
    /\ (TrigRand.mode (st o1) 3 = 0%Z
        /\ TrigRand.proc_func_ptr (st o1)
           = if (TrigRand.mode (st o) 2 =? 0)%Z
             then TrigRand.ptr_generate_ii else TrigRand.ptr_generate_ai)
    /\ (TrigRand.mode (st o2) 3 = 1%Z
        /\ TrigRand.max_stream (st o2) = 7%nat
        /\ TrigRand.proc_func_ptr (st o2)
           = if (TrigRand.mode (st o) 2 =? 0)%Z
             then TrigRand.ptr_generate_ia else TrigRand.ptr_generate_aa)
    /\ (TrigRand.modebuffer (st o3) = TrigRand.modebuffer (st o1)
        /\ TrigRand.proc_func_ptr (st o3) = TrigRand.proc_func_ptr (st o1)
        /\ TrigRand.muladd_func_ptr (st o3) = TrigRand.muladd_func_ptr (st o1))
    /\ (data o1 = data o /\ data o2 = data o /\ data o3 = data o)
    /\ (TrigRand.glide (st o1) = TrigRand.glide (st o)
        /\ TrigRand.glide (st o2) = TrigRand.glide (st o)
        /\ TrigRand.glide (st o3) = TrigRand.glide (st o))).
Proof.
  apply (TrigRand_setMin_setMax_round_trip
           (TrigRand.TrigRand_init 4 44100 0%nat 0 0)
           (PyFloat (1#4)) (PyInt 2) (PyStreamObj 7%nat) 7%nat).
  - reflexivity.
  - reflexivity.
  - reflexivity.
  - reflexivity.
  - left. reflexivity.
  - left. reflexivity.
Defined.

(** ** TrigChoice: the choice list *)

(** C8: [setChoice] with an argument that is not a list sets the Python
    error and returns the object as it was, so the choice table, the ramp,
    the mode flags, the function pointers and the sample buffer are all
    unchanged; whenever a call returns with a different table the
    argument was a list; and a list of numbers replaces the table by its
    items converted to floats. *)
Theorem TrigChoice_setChoice_atomic (arg : PyObject) (o : TrigChoice.self) :
  (PyList_Check arg = false ->
     TrigChoice.TrigChoice_setChoice arg o
       = Returned o (Some (TypeError "The choice attribute must be a list.")))
  /\ (forall o' e,
        TrigChoice.TrigChoice_setChoice arg o = Returned o' e ->
        (TrigChoice.choice (st o') <> TrigChoice.choice (st o)
         \/ TrigChoice.chSize (st o') <> TrigChoice.chSize (st o)) ->
        PyList_Check arg = true /\ e = None)
  /\ (forall items qs,
        arg = PyList items -> TrigChoice.floats_of items = Some qs ->
        exists o',
          TrigChoice.TrigChoice_setChoice arg o = Returned o' None
          /\ TrigChoice.choice (st o') = qs
          /\ TrigChoice.chSize (st o') = Z.of_nat (length items)
          /\ length qs = length items
          /\ TrigChoice.glide (st o') = TrigChoice.glide (st o)
          /\ data o' = data o).
Proof.
  split; [|split].
  - intros Hnl. destruct arg; try reflexivity. discriminate Hnl.
  - intros o' e Hcall Hdiff.
    destruct arg; cbn in Hcall;
      try (injection Hcall as <- <-; destruct Hdiff as [H | H]; now elim H).
    destruct (TrigChoice.floats_of items); [|discriminate Hcall].
    injection Hcall as _ <-. split; reflexivity.
  - intros items qs -> Hqs. cbn. rewrite Hqs.
    eexists. split; [reflexivity|]. cbn. repeat split.
    clear o. revert qs Hqs.
    induction items as [|x items IH]; intros qs Hqs; cbn in Hqs.
    + injection Hqs as <-. reflexivity.
    + destruct (PyNumber_Float x); [|discriminate Hqs].
      destruct (TrigChoice.floats_of items) as [qs'|]; [|discriminate Hqs].
      injection Hqs as <-. cbn. f_equal. apply IH. reflexivity.
Qed.

(** ** TrigXnoise: the Poisson table *)

Section PoissonFacts.
Variable powf : Q -> Q -> Q.
Variable src : RandSrc.

(** [x1] as the Poisson function clamps it. *)
Let clamped (s : TrigXnoise.noise) : Q :=
  if Qltb (TrigXnoise.xx1 s) (1#10) then 1#10 else TrigXnoise.xx1 s.

Lemma TrigXnoise_clamped_ge (s : TrigXnoise.noise) : (1#10) <= clamped s.
Proof.
  unfold clamped. destruct (Qltb (TrigXnoise.xx1 s) (1 # 10)) eqn:E.
  - apply Qle_refl.
  - apply Qltb_ge in E. exact E.
Qed.

(** The table in force at a draw: the stored one when the clamped [x1]
    equals [lastPoissonX1], a fresh one otherwise. *)
Let table_at_draw (s : TrigXnoise.noise) : list Q * Z :=
  if Qeq_bool (clamped s) (TrigXnoise.lastPoissonX1 s)
  then (TrigXnoise.poisson_buffer s, TrigXnoise.poisson_tab s)
  else TrigXnoise.poisson_fill powf (clamped s) (TrigXnoise.poisson_buffer s).

(** A draw faults exactly when the table in force is empty; otherwise it
    returns a cell of that table, and leaves that table and the clamped
    [x1] it belongs to in the object. *)
Lemma TrigXnoise_poisson_cache (s : TrigXnoise.noise) (pos : nat) :
  (snd (table_at_draw s) = 0%Z ->
     TrigXnoise.TrigXnoise_poisson powf src s pos = Fault)
  /\ (snd (table_at_draw s) <> 0%Z ->
      exists v s',
        TrigXnoise.TrigXnoise_poisson powf src s pos = Done (v, s', S pos)
        /\ TrigXnoise.xx1 s' = clamped s
        /\ TrigXnoise.lastPoissonX1 s' == clamped s
        /\ (TrigXnoise.poisson_buffer s', TrigXnoise.poisson_tab s') = table_at_draw s
        /\ v = TrigXnoise.clip01
                 (TrigXnoise.cell (fst (table_at_draw s))
                    (Z.rem (src pos) (snd (table_at_draw s)))
                  / 12 * TrigXnoise.xx2 s')).
Proof.
  unfold table_at_draw, clamped, TrigXnoise.TrigXnoise_poisson.
  set (s1 := if Qltb (TrigXnoise.xx1 s) (1 # 10)
             then TrigXnoise.set_xx1 (1 # 10) s else s).
  assert (Hx1 : TrigXnoise.xx1 s1
                = if Qltb (TrigXnoise.xx1 s) (1 # 10) then 1 # 10 else TrigXnoise.xx1 s).
  { unfold s1. destruct (Qltb (TrigXnoise.xx1 s) (1 # 10)); reflexivity. }
  assert (Hl1 : TrigXnoise.lastPoissonX1 s1 = TrigXnoise.lastPoissonX1 s
                /\ TrigXnoise.poisson_buffer s1 = TrigXnoise.poisson_buffer s
                /\ TrigXnoise.poisson_tab s1 = TrigXnoise.poisson_tab s).
  { unfold s1. destruct (Qltb (TrigXnoise.xx1 s) (1 # 10)); repeat split. }
  destruct Hl1 as (Hl1 & Hb1 & Ht1).
  set (s2 := if Qltb (TrigXnoise.xx2 s1) (1 # 10)
             then TrigXnoise.set_xx2 (1 # 10) s1 else s1).
  assert (H2 : TrigXnoise.xx1 s2 = TrigXnoise.xx1 s1
               /\ TrigXnoise.lastPoissonX1 s2 = TrigXnoise.lastPoissonX1 s1
               /\ TrigXnoise.poisson_buffer s2 = TrigXnoise.poisson_buffer s1
               /\ TrigXnoise.poisson_tab s2 = TrigXnoise.poisson_tab s1).
  { unfold s2. destruct (Qltb (TrigXnoise.xx2 s1) (1 # 10)); repeat split. }
  destruct H2 as (Hx2 & Hl2 & Hb2 & Ht2).
  rewrite Hx2, Hl2, Hb2, Hl1, Hb1, Hx1.
  destruct (Qeq_bool _ (TrigXnoise.lastPoissonX1 s)) eqn:E; cbn [negb].
  - (* the stored table is kept *)
    cbn [rand snd fst]. rewrite Ht2, Ht1. split.
    + intros Hz. rewrite Hz. reflexivity.
    + intros Hnz. unfold c_rem.
      destruct (TrigXnoise.poisson_tab s =? 0)%Z eqn:E0; [lia|].
      cbn [bind]. eexists. eexists. split; [reflexivity|].
      rewrite Hx2, Hx1, Hl2, Hl1, Hb2, Hb1, Ht2, Ht1.
      apply Qeq_bool_iff in E. repeat split. symmetry. exact E.
  - (* the table is rebuilt *)
    destruct (TrigXnoise.poisson_fill powf _ (TrigXnoise.poisson_buffer s))
      as [buf tab] eqn:Efill.
    cbn [rand snd fst TrigXnoise.poisson_tab TrigXnoise.poisson_buffer
         TrigXnoise.xx2 TrigXnoise.xx1 TrigXnoise.lastPoissonX1].
    split.
    + intros Hz. rewrite Hz. reflexivity.
    + intros Hnz. unfold c_rem.
      destruct (tab =? 0)%Z eqn:E0; [lia|].
      cbn [bind]. eexists. eexists. split; [reflexivity|].
      cbn. repeat split; reflexivity.
Qed.

(** The first draw of a fresh object rebuilds the table: no clamped [x1]
    equals the initial [lastPoissonX1] of -99. *)
Lemma TrigXnoise_poisson_first_draw (s : TrigXnoise.noise) :
  TrigXnoise.lastPoissonX1 s = -(99) ->
  table_at_draw s
    = TrigXnoise.poisson_fill powf (clamped s) (TrigXnoise.poisson_buffer s).
Proof.
  intros Hl. unfold table_at_draw. rewrite Hl.
  destruct (Qeq_bool (clamped s) (-(99))) eqn:E; [|reflexivity].
  apply Qeq_bool_iff in E. pose proof (TrigXnoise_clamped_ge s) as Hge.
  rewrite E in Hge. exfalso. revert Hge. apply Qlt_not_le. reflexivity.
Qed.

End PoissonFacts.

(** C6 (code defect): for [x1 = 30] every one of the eleven counts of the
    table is [(long)(1000 * e^-30 * 30^i / i!) = 0], so the rebuilt
    table is empty, [poisson_tab] is 0 and the draw computes
    [rand() % 0].  The same happens through [TrigXnoise_generate_ii] on a
    block with a trigger. *)
Theorem TrigXnoise_poisson_empty_table :
  snd (TrigXnoise.poisson_fill powf_int 30 (repeat 0 2000)) = 0%Z
  /\ TrigXnoise.TrigXnoise_poisson powf_int (rand_const 0) noise_x1_30 0 = Fault
  /\ TrigXnoise.TrigXnoise_generate_ii (fun _ => 0) (fun _ => 0) powf_int
       (rand_const 0) 0 (fun _ => [1]) xnoise_poisson_30 1 = Fault.
Proof. repeat split; vm_compute; reflexivity. Qed.

(** ** TrigEnv: table reads *)

(** In the reader the position never becomes negative, and an active
    reader has not passed the table size. *)
Lemma TrigEnv_sample_step_position (x d : Q) (i : nat) (o : TrigEnv.self)
      (reads : list Z) :
  0 < sr o -> 0 < d -> (0 <= tab_size (TrigEnv.table (st o)))%Z ->
  0 <= TrigEnv.inc (st o) -> 0 <= TrigEnv.pointerPos (st o) ->
  let o' := fst (TrigEnv.sample_step x d i o reads) in
  sr o' = sr o
  /\ TrigEnv.table (st o') = TrigEnv.table (st o)
  /\ 0 <= TrigEnv.inc (st o') /\ 0 <= TrigEnv.pointerPos (st o')
  /\ (TrigEnv.active (st o') = 1%Z ->
      TrigEnv.pointerPos (st o') <= inject_Z (tab_size (TrigEnv.table (st o')))).
Proof.
  intros Hsr Hd Hsize Hinc Hpos. unfold TrigEnv.sample_step.
  destruct o as [n rate dat s]. cbn [st sr] in *.
  set (s1 := if Qeq_bool x 1 then _ else s).
  assert (H1 : TrigEnv.table s1 = TrigEnv.table s
               /\ 0 <= TrigEnv.inc s1 /\ 0 <= TrigEnv.pointerPos s1).
  { unfold s1. destruct (Qeq_bool x 1); cbn; repeat split; try assumption.
    - apply Qle_shift_div_l.
      + apply Qmult_lt_0_compat; assumption.
      + rewrite Qmult_0_l. rewrite <- (Zle_Qle 0). exact Hsize.
    - apply Qle_refl. }
  destruct H1 as (Ht1 & Hinc1 & Hpos1).
  clearbody s1.
  assert (Hadv : 0 <= TrigEnv.pointerPos s1 + TrigEnv.inc s1).
  { apply (Qle_trans _ (TrigEnv.pointerPos s1 + 0)).
    - rewrite Qplus_0_r. exact Hpos1.
    - apply Qplus_le_r. exact Hinc1. }
  destruct (TrigEnv.active s1 =? 1)%Z eqn:Ea; cbn -[Qltb]; rewrite ?Ea, ?Ht1.
  - destruct (Qltb _ _) eqn:El; cbn -[Qltb]; rewrite ?Ht1.
    + repeat split; try assumption. intros Habs. discriminate Habs.
    + repeat split; try assumption. intros _. apply Qltb_ge in El. exact El.
  - rewrite andb_false_r. cbn. rewrite ?Ht1.
    repeat split; try assumption. intros Habs. rewrite Habs in Ea. discriminate Ea.
Qed.

(** C10 (code defect): the reader is switched off only once the position
    is greater than the table size, and the test comes after the read.
    On a table of four samples read with an increment of exactly 1, the
    fourth sample reads the cells 3 and 4 and the fifth sample, at
    position 4, the cells 4 and 5. *)
Theorem TrigEnv_readframes_reads_past_table :
  let r := TrigEnv.TrigEnv_readframes_i (fun _ => [1; 0; 0; 0; 0; 0]) trigenv_4 [] in
  tab_size (TrigEnv.table (st trigenv_4)) = 4%Z
  /\ snd r = [0; 1; 1; 2; 2; 3; 3; 4; 4; 5]%Z
  /\ TrigEnv.trigsBuffer (st (fst r)) = [0; 0; 0; 0; 1; 0]
  /\ snd (TrigEnv.TrigEnv_readframes_a
            (fun s => match s with O => [1; 0; 0; 0; 0; 0] | _ => [1; 1; 1; 1; 1; 1] end)
            (set_st (TrigEnv.Fields (Table [0; 1; 1; 0] 4) 0%nat (PyStreamObj 1%nat) 1%nat
                                    [0; 0; 1]%Z 0 4 0 0 (repeat 0 6) (repeat 0 6))
                    trigenv_4) [])
     = [0; 1; 1; 2; 2; 3; 3; 4; 4; 5]%Z.
Proof. vm_compute. repeat split. Qed.

(** ** Full overwrite of the output buffer *)

Lemma same_but_data_start {P : Type} (o : pyo_audio P) (d1 d2 : list Q) :
  length d1 = bufsize o -> length d2 = bufsize o ->
  same_but_data 0 (set_data d1 o) (set_data d2 o).
Proof.
  intros H1 H2. unfold same_but_data. cbn. repeat split; try assumption.
  intros j Hj. lia.
Qed.

Lemma same_but_data_end {P : Type} (a b : pyo_audio P) :
  same_but_data (bufsize a) a b -> a = b /\ length (data a) = bufsize a.
Proof.
  intros (Hn & Hsr & Hst & Hla & Hlb & Hag). split; [|assumption].
  assert (Hd : data a = data b).
  { apply list_eq. intros j. destruct (Nat.lt_ge_cases j (bufsize a)) as [Hj | Hj].
    - apply Hag. exact Hj.
    - rewrite !lookup_ge_None_2; [reflexivity| |]; lia. }
  destruct a, b. cbn in *. subst. reflexivity.
Qed.

(** Writing the same value at index [i] in both buffers extends the
    agreement to [i]. *)
Lemma same_but_data_store {P : Type} (i : nat) (v : Q) (a b : pyo_audio P) :
  same_but_data i a b -> (i < bufsize a)%nat ->
  same_but_data (S i) (store i v a) (store i v b).
Proof.
  intros (Hn & Hsr & Hst & Hla & Hlb & Hag) Hi.
  unfold same_but_data, store. cbn. rewrite !length_insert.
  repeat split; try assumption.
  intros j Hj. destruct (Nat.eq_dec j i) as [-> | Hne].
  - rewrite !list_lookup_insert_eq; [reflexivity| |]; lia.
  - rewrite !list_lookup_insert_ne by lia. apply Hag. lia.
Qed.

(** Writing the same value anywhere keeps the agreement reached. *)
Lemma same_but_data_store_again {P : Type} (k i : nat) (v : Q) (a b : pyo_audio P) :
  same_but_data k a b -> same_but_data k (store i v a) (store i v b).
Proof.
  intros (Hn & Hsr & Hst & Hla & Hlb & Hag).
  unfold same_but_data, store. cbn. rewrite !length_insert.
  repeat split; try assumption.
  intros j Hj. destruct (Nat.eq_dec j i) as [-> | Hne].
  - destruct (Nat.lt_ge_cases i (bufsize a)) as [Hi | Hi].
    + rewrite !list_lookup_insert_eq; [reflexivity| |]; lia.
    + rewrite !list_insert_ge by lia. apply Hag. exact Hj.
  - rewrite !list_lookup_insert_ne by lia. apply Hag. exact Hj.
Qed.

Lemma same_but_data_set_st {P : Type} (k : nat) (p : P) (a b : pyo_audio P) :
  same_but_data k a b -> same_but_data k (set_st p a) (set_st p b).
Proof.
  intros (Hn & Hsr & Hst & Hla & Hlb & Hag).
  unfold same_but_data. cbn. repeat split; assumption.
Qed.

Lemma same_but_data_st {P : Type} (k : nat) (a b : pyo_audio P) :
  same_but_data k a b -> st a = st b /\ bufsize a = bufsize b /\ sr a = sr b.
Proof. intros (Hn & Hsr & Hst & _). repeat split; assumption. Qed.

Lemma st_store {P : Type} (i : nat) (v : Q) (o : pyo_audio P) : st (store i v o) = st o.
Proof. reflexivity. Qed.

Lemma st_set_st {P : Type} (p : P) (o : pyo_audio P) : st (set_st p o) = p.
Proof. reflexivity. Qed.

Lemma st_set_data {P : Type} (d : list Q) (o : pyo_audio P) : st (set_data d o) = st o.
Proof. reflexivity. Qed.

Lemma bufsize_store {P : Type} (i : nat) (v : Q) (o : pyo_audio P) :
  bufsize (store i v o) = bufsize o.
Proof. reflexivity. Qed.

Lemma bufsize_set_st {P : Type} (p : P) (o : pyo_audio P) :
  bufsize (set_st p o) = bufsize o.
Proof. reflexivity. Qed.

Lemma bufsize_set_data {P : Type} (d : list Q) (o : pyo_audio P) :
  bufsize (set_data d o) = bufsize o.
Proof. reflexivity. Qed.

Lemma sr_store {P : Type} (i : nat) (v : Q) (o : pyo_audio P) : sr (store i v o) = sr o.
Proof. reflexivity. Qed.

Lemma sr_set_st {P : Type} (p : P) (o : pyo_audio P) : sr (set_st p o) = sr o.
Proof. reflexivity. Qed.

Lemma sr_set_data {P : Type} (d : list Q) (o : pyo_audio P) : sr (set_data d o) = sr o.
Proof. reflexivity. Qed.

Create Rewrite HintDb pyo.
#[global] Hint Rewrite @st_store @st_set_st @st_set_data
  @bufsize_store @bufsize_set_st @bufsize_set_data
  @sr_store @sr_set_st @sr_set_data : pyo.

(** Both objects go through the same stores and field updates. *)
Ltac same_writes Hag :=
  repeat first
    [ exact Hag
    | apply same_but_data_store; [|autorewrite with pyo; lia]
    | apply same_but_data_store_again
    | apply same_but_data_set_st ].

Ltac split_ifs :=
  repeat match goal with
         | |- context [if ?c then _ else _] => destruct c
         end.

(** One pass of a loop on two objects that agree up to the index of the
    pass: the fields are the same, so every test goes the same way. *)
Ltac overwrite_pass :=
  let i := fresh "i" in let x := fresh "x" in let y := fresh "y" in
  let Hi := fresh "Hi" in let Hn := fresh "Hn" in let Hag := fresh "Hag" in
  let Hst := fresh "Hst" in let Hbs := fresh "Hbs" in let Hsr := fresh "Hsr" in
  intros i x y Hi Hn Hag;
  destruct (same_but_data_st _ _ _ Hag) as (Hst & Hbs & Hsr);
  repeat (progress (autorewrite with pyo; rewrite ?Hst, ?Hsr; split_ifs));
  (split; [same_writes Hag | autorewrite with pyo; assumption]).

(** A loop whose pass number [i] extends the agreement from [i] to [i+1]
    ends with the same object from any two buffers. *)
Lemma loop_overwrites_pure {P : Type} (body : nat -> pyo_audio P -> pyo_audio P)
      (o : pyo_audio P) (d1 d2 : list Q) :
  length d1 = bufsize o -> length d2 = bufsize o ->
  (forall i x y, (i < bufsize o)%nat -> bufsize x = bufsize o ->
     same_but_data i x y ->
     same_but_data (S i) (body i x) (body i y) /\ bufsize (body i x) = bufsize o) ->
  for_loop (bufsize o) body (set_data d1 o) = for_loop (bufsize o) body (set_data d2 o)
  /\ length (data (for_loop (bufsize o) body (set_data d1 o))) = bufsize o.
Proof.
  intros H1 H2 Hbody.
  assert (H : same_but_data (bufsize o)
                (for_loop (bufsize o) body (set_data d1 o))
                (for_loop (bufsize o) body (set_data d2 o))
              /\ bufsize (for_loop (bufsize o) body (set_data d1 o)) = bufsize o).
  { apply (for_loop_rel
             (fun k (x y : pyo_audio P) =>
                same_but_data k x y /\ bufsize x = bufsize o)).
    - split; [apply same_but_data_start; assumption|reflexivity].
    - intros i x y Hi (Hag & Hn). apply Hbody; assumption. }
  destruct H as (Hag & Hn). rewrite <- Hn in Hag at 1.
  apply same_but_data_end in Hag. rewrite Hn in Hag. exact Hag.
Qed.

(** The same for a loop that threads a part of the world. *)
Lemma loop_overwrites_world {P W : Type}
      (body : nat -> pyo_audio P * W -> pyo_audio P * W)
      (o : pyo_audio P) (w : W) (d1 d2 : list Q) :
  length d1 = bufsize o -> length d2 = bufsize o ->
  (forall i x y u, (i < bufsize o)%nat -> bufsize x = bufsize o ->
     same_but_data i x y ->
     same_but_data (S i) (fst (body i (x, u))) (fst (body i (y, u)))
     /\ snd (body i (x, u)) = snd (body i (y, u))
     /\ bufsize (fst (body i (x, u))) = bufsize o) ->
  for_loop (bufsize o) body (set_data d1 o, w)
    = for_loop (bufsize o) body (set_data d2 o, w)
  /\ length (data (fst (for_loop (bufsize o) body (set_data d1 o, w)))) = bufsize o.
Proof.
  intros H1 H2 Hbody.
  assert (H : same_but_data (bufsize o)
                (fst (for_loop (bufsize o) body (set_data d1 o, w)))
                (fst (for_loop (bufsize o) body (set_data d2 o, w)))
              /\ snd (for_loop (bufsize o) body (set_data d1 o, w))
                 = snd (for_loop (bufsize o) body (set_data d2 o, w))
              /\ bufsize (fst (for_loop (bufsize o) body (set_data d1 o, w)))
                 = bufsize o).
  { apply (for_loop_rel
             (fun k (x y : pyo_audio P * W) =>
                same_but_data k (fst x) (fst y) /\ snd x = snd y
                /\ bufsize (fst x) = bufsize o)).
    - cbn [fst snd]. split; [apply same_but_data_start; assumption|].
      split; reflexivity.
    - intros i [x u] [y u'] Hi (Hag & Hu & Hn). cbn in Hu, Hn, Hag. subst u'.
      apply Hbody; assumption. }
  destruct H as (Hag & Hw & Hn). rewrite <- Hn in Hag at 1.
  apply same_but_data_end in Hag. rewrite Hn in Hag. destruct Hag as (Ho & Hl).
  split; [|exact Hl].
  destruct (for_loop _ body (set_data d1 o, w)), (for_loop _ body (set_data d2 o, w)).
  cbn in *. congruence.
Qed.

(** The same for a loop that can stop the process; its pass is a step on
    the fields followed by the store of one sample. *)
Lemma loop_overwrites_run {P W : Type} (step : nat -> P -> W -> run (P * W))
      (out : P -> Q) (o : pyo_audio P) (w : W) (d1 d2 : list Q) :
  length d1 = bufsize o -> length d2 = bufsize o ->
  let body := fun (i : nat) (r : run (pyo_audio P * W)) =>
    let* (o, u) := r in
    let* (s, u') := step i (st o) u in
    Done (store i (out s) (set_st s o), u') in
  for_loop (bufsize o) body (Done (set_data d1 o, w))
    = for_loop (bufsize o) body (Done (set_data d2 o, w))
  /\ forall o1 w1,
       for_loop (bufsize o) body (Done (set_data d1 o, w)) = Done (o1, w1) ->
       length (data o1) = bufsize o.
Proof.
  intros H1 H2 body.
  set (R := fun (k : nat) (ra rb : run (pyo_audio P * W)) =>
    match ra, rb with
    | Done (a, u), Done (b, v) =>
        same_but_data k a b /\ u = v /\ bufsize a = bufsize o
    | Fault, Fault | NoFuel, NoFuel => True
    | _, _ => False
    end).
  assert (H : R (bufsize o) (for_loop (bufsize o) body (Done (set_data d1 o, w)))
                (for_loop (bufsize o) body (Done (set_data d2 o, w)))).
  { apply (for_loop_rel R).
    - unfold R. split; [apply same_but_data_start; assumption|].
      split; reflexivity.
    - intros i ra rb Hi HR. unfold R in HR |- *.
      destruct ra as [[x u]| |], rb as [[y v]| |]; try contradiction; cbn; trivial.
      destruct HR as (Hag & -> & Hn).
      destruct (same_but_data_st _ _ _ Hag) as (Hst & _). rewrite Hst.
      destruct (step i (st y) v) as [[s u']| |]; cbn; trivial.
      split; [|split; [reflexivity|assumption]].
      apply same_but_data_store; [|autorewrite with pyo; lia].
      apply same_but_data_set_st. exact Hag. }
  unfold R in H.
  destruct (for_loop (bufsize o) body (Done (set_data d1 o, w))) as [[a u]| |],
           (for_loop (bufsize o) body (Done (set_data d2 o, w))) as [[b v]| |];
    try contradiction; try (split; [reflexivity|intros; discriminate]).
  destruct H as (Hag & -> & Hn). rewrite <- Hn in Hag at 1.
  apply same_but_data_end in Hag. destruct Hag as (-> & Hl).
  split; [reflexivity|]. intros o1 w1 Heq. injection Heq as <- _. lia.
Qed.
Lemma overwrites_pure_intro {P : Type} (pre : P -> Prop)
      (gen : pyo_audio P -> pyo_audio P) :
  (forall o d1 d2, pre (st o) -> length d1 = bufsize o -> length d2 = bufsize o ->
     gen (set_data d1 o) = gen (set_data d2 o)
     /\ length (data (gen (set_data d1 o))) = bufsize o) ->
  overwrites_block pre (lift_pure gen).
Proof.
  intros H o w d1 d2 Hpre H1 H2. unfold lift_pure.
  destruct (H o d1 d2 Hpre H1 H2) as (He & Hl). rewrite He. split; [reflexivity|].
  intros o1 w1 Heq. injection Heq as <- _. rewrite <- He. exact Hl.
Qed.

Lemma overwrites_world_intro {P W : Type} (pre : P -> Prop)
      (gen : pyo_audio P -> W -> pyo_audio P * W) :
  (forall o w d1 d2, pre (st o) -> length d1 = bufsize o -> length d2 = bufsize o ->
     gen (set_data d1 o) w = gen (set_data d2 o) w
     /\ length (data (fst (gen (set_data d1 o) w))) = bufsize o) ->
  overwrites_block pre (lift_world gen).
Proof.
  intros H o w d1 d2 Hpre H1 H2. unfold lift_world.
  destruct (H o w d1 d2 Hpre H1 H2) as (He & Hl). rewrite He. split; [reflexivity|].
  intros o1 w1 Heq. rewrite <- He in Heq. rewrite <- Hl.
  injection Heq as Heq. rewrite Heq. reflexivity.
Qed.

Lemma Counter_generates_overwrites (env : Stream -> list Q) :
  overwrites_block any_fields (lift_pure (Counter.Counter_generates env)).
Proof.
  apply overwrites_pure_intro. intros o d1 d2 _ H1 H2.
  unfold Counter.Counter_generates. autorewrite with pyo. cbv zeta.
  apply loop_overwrites_pure; try assumption. overwrite_pass.
Qed.

Lemma Thresh_generates_i_overwrites (env : Stream -> list Q) :
  overwrites_block (fun s => Thresh.dir s = 0 \/ Thresh.dir s = 1 \/ Thresh.dir s = 2)%Z
                   (lift_pure (Thresh.Thresh_generates_i env)).
Proof.
  apply overwrites_pure_intro. intros o d1 d2 Hdir H1 H2.
  unfold Thresh.Thresh_generates_i. autorewrite with pyo. cbv zeta.
  destruct Hdir as [-> | [-> | ->]];
    (apply loop_overwrites_pure; try assumption);
    unfold Thresh.upward, Thresh.downward, Thresh.updown_i, Thresh.set_ready;
    cbv zeta; overwrite_pass.
Qed.

Lemma Thresh_generates_a_overwrites (env : Stream -> list Q) :
  overwrites_block (fun s => Thresh.dir s = 0 \/ Thresh.dir s = 1 \/ Thresh.dir s = 2)%Z
                   (lift_pure (Thresh.Thresh_generates_a env)).
Proof.
  apply overwrites_pure_intro. intros o d1 d2 Hdir H1 H2.
  unfold Thresh.Thresh_generates_a. autorewrite with pyo. cbv zeta.
  destruct Hdir as [-> | [-> | ->]];
    (apply loop_overwrites_pure; try assumption);
    unfold Thresh.upward, Thresh.downward, Thresh.updown_a, Thresh.set_ready;
    cbv zeta; overwrite_pass.
Qed.
(** A loop that stores 0 everywhere keeps the length of the buffer. *)
Lemma zero_loop_length {P : Type} (n : nat) (o : pyo_audio P) :
  length (data (for_loop n (fun i o => store i 0 o) o)) = length (data o)
  /\ bufsize (for_loop n (fun i o => store i 0 o) o) = bufsize o.
Proof.
  induction n as [|n IH]; [split; reflexivity|].
  rewrite for_loop_S. unfold store at 1 3. cbn. rewrite length_insert. exact IH.
Qed.

Lemma Fader_generate_auto_overwrites :
  overwrites_block any_fields (lift_pure Fader.Fader_generate_auto).
Proof.
  apply overwrites_pure_intro. intros o d1 d2 _ H1 H2.
  unfold Fader.Fader_generate_auto. autorewrite with pyo.
  apply loop_overwrites_pure; try assumption. cbv zeta. overwrite_pass.
Qed.

Lemma Fader_generate_wait_overwrites :
  overwrites_block any_fields (lift_pure Fader.Fader_generate_wait).
Proof.
  apply overwrites_pure_intro. intros o d1 d2 _ H1 H2.
  unfold Fader.Fader_generate_wait. autorewrite with pyo.
  match goal with
  | |- context [for_loop (bufsize o) ?body (set_data d1 o)] =>
      destruct (loop_overwrites_pure body o d1 d2 H1 H2) as (He & Hl)
  end.
  { cbv zeta. intros i x y Hi Hn Hag.
    destruct (same_but_data_st _ _ _ Hag) as (Hst & Hbs & Hsr).
    rewrite Hst.
    destruct (if (Fader.fademode (st y) =? 0)%Z then _ else _) as [val top].
    split; [same_writes Hag | autorewrite with pyo; assumption]. }
  cbv zeta. rewrite He. split; [reflexivity|].
  rewrite <- He.
  destruct (_ && _); [|exact Hl].
  unfold Fader.Fader_internal_stop. cbv zeta. autorewrite with pyo.
  match goal with
  | |- length (data (for_loop ?n _ ?x)) = _ =>
      destruct (zero_loop_length n x) as (Hz & _); rewrite Hz
  end.
  exact Hl.
Qed.

Lemma Adsr_generate_auto_overwrites :
  overwrites_block any_fields (lift_pure Adsr.Adsr_generate_auto).
Proof.
  apply overwrites_pure_intro. intros o d1 d2 _ H1 H2.
  unfold Adsr.Adsr_generate_auto. autorewrite with pyo.
  apply loop_overwrites_pure; try assumption. cbv zeta. overwrite_pass.
Qed.

Lemma Adsr_generate_wait_overwrites :
  overwrites_block any_fields (lift_pure Adsr.Adsr_generate_wait).
Proof.
  apply overwrites_pure_intro. intros o d1 d2 _ H1 H2.
  unfold Adsr.Adsr_generate_wait. autorewrite with pyo.
  match goal with
  | |- context [for_loop (bufsize o) ?body (set_data d1 o)] =>
      destruct (loop_overwrites_pure body o d1 d2 H1 H2) as (He & Hl)
  end.
  { cbv zeta. intros i x y Hi Hn Hag.
    destruct (same_but_data_st _ _ _ Hag) as (Hst & Hbs & Hsr).
    rewrite Hst.
    destruct (if (Adsr.fademode (st y) =? 0)%Z then _ else _) as [val top].
    split; [same_writes Hag | autorewrite with pyo; assumption]. }
  cbv zeta. rewrite He. split; [reflexivity|].
  rewrite <- He.
  destruct (_ && _); [|exact Hl].
  unfold Adsr.Adsr_internal_stop. cbv zeta. autorewrite with pyo.
  match goal with
  | |- length (data (for_loop ?n _ ?x)) = _ =>
      destruct (zero_loop_length n x) as (Hz & _); rewrite Hz
  end.
  exact Hl.
Qed.

Lemma Hilbert_compute_overwrites (tmp : list Q) :
  overwrites_block any_fields
    (lift_pure (Hilbert.Hilbert_compute_next_data_frame tmp)).
Proof.
  apply overwrites_pure_intro. intros o d1 d2 _ H1 H2.
  unfold Hilbert.Hilbert_compute_next_data_frame. autorewrite with pyo. cbv zeta.
  apply loop_overwrites_pure; try assumption. overwrite_pass.
Qed.

Lemma TrigEnvTrig_compute_overwrites :
  overwrites_block any_fields
    (lift_world TrigEnvTrig.TrigEnvTrig_compute_next_data_frame).
Proof.
  apply overwrites_world_intro. intros o w d1 d2 _ H1 H2.
  unfold TrigEnvTrig.TrigEnvTrig_compute_next_data_frame.
  destruct (TrigEnv.TrigEnv_getTrigsBuffer w) as [mainReader tmp].
  autorewrite with pyo. cbn [fst].
  destruct (loop_overwrites_pure (fun i o => store i (sample tmp i) o) o d1 d2 H1 H2)
    as (He & Hl).
  { overwrite_pass. }
  rewrite He. split; [reflexivity|]. rewrite <- He. exact Hl.
Qed.
(** One pass of a loop that threads a part of the world. *)
Ltac overwrite_pass_world :=
  let i := fresh "i" in let x := fresh "x" in let y := fresh "y" in
  let u := fresh "u" in
  let Hi := fresh "Hi" in let Hn := fresh "Hn" in let Hag := fresh "Hag" in
  let Hst := fresh "Hst" in let Hbs := fresh "Hbs" in let Hsr := fresh "Hsr" in
  intros i x y u Hi Hn Hag;
  destruct (same_but_data_st _ _ _ Hag) as (Hst & Hbs & Hsr);
  cbv zeta; rewrite ?Hst, ?Hsr;
  repeat match goal with
         | |- context [let (_, _) := ?e in _] => destruct e
         end;
  cbn [fst snd];
  repeat (progress (autorewrite with pyo; rewrite ?Hst, ?Hsr; split_ifs; cbn [fst snd]));
  (split; [same_writes Hag | split; [reflexivity | autorewrite with pyo; assumption]]).

Section TrigOverwrites.
Variable env : Stream -> list Q.
Variable src : RandSrc.

Lemma TrigRand_generate_ii_overwrites :
  overwrites_block any_fields (lift_world (TrigRand.TrigRand_generate_ii env src)).
Proof.
  apply overwrites_world_intro. intros o w d1 d2 _ H1 H2.
  unfold TrigRand.TrigRand_generate_ii. autorewrite with pyo. cbv zeta.
  apply loop_overwrites_world; try assumption. overwrite_pass_world.
Qed.

Lemma TrigRand_generate_ai_overwrites :
  overwrites_block any_fields (lift_world (TrigRand.TrigRand_generate_ai env src)).
Proof.
  apply overwrites_world_intro. intros o w d1 d2 _ H1 H2.
  unfold TrigRand.TrigRand_generate_ai. autorewrite with pyo. cbv zeta.
  apply loop_overwrites_world; try assumption. overwrite_pass_world.
Qed.

Lemma TrigRand_generate_ia_overwrites :
  overwrites_block any_fields (lift_world (TrigRand.TrigRand_generate_ia env src)).
Proof.
  apply overwrites_world_intro. intros o w d1 d2 _ H1 H2.
  unfold TrigRand.TrigRand_generate_ia. autorewrite with pyo. cbv zeta.
  apply loop_overwrites_world; try assumption. overwrite_pass_world.
Qed.

Lemma TrigRand_generate_aa_overwrites :
  overwrites_block any_fields (lift_world (TrigRand.TrigRand_generate_aa env src)).
Proof.
  apply overwrites_world_intro. intros o w d1 d2 _ H1 H2.
  unfold TrigRand.TrigRand_generate_aa. autorewrite with pyo. cbv zeta.
  apply loop_overwrites_world; try assumption. overwrite_pass_world.
Qed.

Lemma TrigChoice_generate_overwrites :
  overwrites_block any_fields (lift_world (TrigChoice.TrigChoice_generate env src)).
Proof.
  apply overwrites_world_intro. intros o w d1 d2 _ H1 H2.
  unfold TrigChoice.TrigChoice_generate. autorewrite with pyo. cbv zeta.
  apply loop_overwrites_world; try assumption. overwrite_pass_world.
Qed.

Lemma TrigEnv_sample_step_agree (x d : Q) (i : nat) (a b : TrigEnv.self)
      (reads : list Z) :
  (i < bufsize a)%nat -> same_but_data i a b ->
  same_but_data (S i) (fst (TrigEnv.sample_step x d i a reads))
                      (fst (TrigEnv.sample_step x d i b reads))
  /\ snd (TrigEnv.sample_step x d i a reads) = snd (TrigEnv.sample_step x d i b reads)
  /\ bufsize (fst (TrigEnv.sample_step x d i a reads)) = bufsize a.
Proof.
  intros Hi Hag.
  destruct (same_but_data_st _ _ _ Hag) as (Hst & Hbs & Hsr).
  unfold TrigEnv.sample_step. cbv zeta. rewrite Hst, Hsr.
  set (s1 := if Qeq_bool x 1 then _ else st b). clearbody s1.
  destruct (TrigEnv.active s1 =? 1)%Z; autorewrite with pyo.
  - destruct (Qltb _ _ && _); cbn [fst snd]; autorewrite with pyo.
    + split; [same_writes Hag | split; reflexivity].
    + split; [same_writes Hag | split; reflexivity].
  - destruct (Qltb _ _ && _); cbn [fst snd]; autorewrite with pyo.
    + split; [same_writes Hag | split; reflexivity].
    + split; [same_writes Hag | split; reflexivity].
Qed.

Lemma TrigEnv_readframes_i_overwrites :
  overwrites_block any_fields (lift_world (TrigEnv.TrigEnv_readframes_i env)).
Proof.
  apply overwrites_world_intro. intros o w d1 d2 _ H1 H2.
  unfold TrigEnv.TrigEnv_readframes_i. autorewrite with pyo. cbv zeta.
  apply loop_overwrites_world; try assumption.
  intros i x y u Hi Hn Hag.
  destruct (same_but_data_st _ _ _ Hag) as (Hst & _). rewrite Hst.
  rewrite <- Hn in Hi |- *. apply TrigEnv_sample_step_agree; assumption.
Qed.

Lemma TrigEnv_readframes_a_overwrites :
  overwrites_block any_fields (lift_world (TrigEnv.TrigEnv_readframes_a env)).
Proof.
  apply overwrites_world_intro. intros o w d1 d2 _ H1 H2.
  unfold TrigEnv.TrigEnv_readframes_a. autorewrite with pyo. cbv zeta.
  apply loop_overwrites_world; try assumption.
  intros i x y u Hi Hn Hag.
  rewrite <- Hn in Hi |- *. apply TrigEnv_sample_step_agree; assumption.
Qed.

End TrigOverwrites.
Section XnoiseOverwrites.
Variable logf : Q -> Q.
Variable tanf : Q -> Q.
Variable powf : Q -> Q -> Q.
Variable src : RandSrc.
Variable fuel : nat.
Variable env : Stream -> list Q.

Lemma TrigXnoise_generate_loop_overwrites
      (prepare : list Q -> nat -> TrigXnoise.noise -> TrigXnoise.noise)
      (aux : TrigXnoise.fields -> list Q) :
  overwrites_block any_fields
    (fun o pos => TrigXnoise.generate_loop logf tanf powf src fuel env
                    (prepare (aux (st o))) o pos).
Proof.
  intros o w d1 d2 _ H1 H2.
  unfold TrigXnoise.generate_loop. autorewrite with pyo. cbv zeta.
  apply (loop_overwrites_run
           (fun i s u =>
              TrigXnoise.sample_step logf tanf powf src fuel
                (sample (env (TrigXnoise.input_stream (st o))) i)
                (prepare (aux (st o)) i) s u)
           TrigXnoise.value o w d1 d2 H1 H2).
Qed.

Lemma TrigXnoise_generate_ii_overwrites :
  overwrites_block any_fields
    (TrigXnoise.TrigXnoise_generate_ii logf tanf powf src fuel env).
Proof.
  intros o w d1 d2 Hp H1 H2. unfold TrigXnoise.TrigXnoise_generate_ii. cbv zeta.
  autorewrite with pyo.
  exact (TrigXnoise_generate_loop_overwrites (fun _ _ d => d) (fun _ => [])
           (set_st (TrigXnoise.set_dist
                      (TrigXnoise.set_xx2 (PyFloat_AS_DOUBLE (TrigXnoise.x2 (st o)))
                         (TrigXnoise.set_xx1 (PyFloat_AS_DOUBLE (TrigXnoise.x1 (st o)))
                            (TrigXnoise.dist (st o))))
                      (st o)) o)
           w d1 d2 I H1 H2).
Qed.

Lemma TrigXnoise_generate_ai_overwrites :
  overwrites_block any_fields
    (TrigXnoise.TrigXnoise_generate_ai logf tanf powf src fuel env).
Proof.
  intros o w d1 d2 Hp H1 H2. unfold TrigXnoise.TrigXnoise_generate_ai. cbv zeta.
  autorewrite with pyo.
  exact (TrigXnoise_generate_loop_overwrites
           (fun x1s i d => TrigXnoise.set_xx1 (sample x1s i) d)
           (fun s => env (TrigXnoise.x1_stream s))
           (set_st (TrigXnoise.set_dist
                      (TrigXnoise.set_xx2 (PyFloat_AS_DOUBLE (TrigXnoise.x2 (st o)))
                         (TrigXnoise.dist (st o)))
                      (st o)) o)
           w d1 d2 I H1 H2).
Qed.

Lemma TrigXnoise_generate_ia_overwrites :
  overwrites_block any_fields
    (TrigXnoise.TrigXnoise_generate_ia logf tanf powf src fuel env).
Proof.
  intros o w d1 d2 Hp H1 H2. unfold TrigXnoise.TrigXnoise_generate_ia. cbv zeta.
  autorewrite with pyo.
  exact (TrigXnoise_generate_loop_overwrites
           (fun x2s i d => TrigXnoise.set_xx2 (sample x2s i) d)
           (fun s => env (TrigXnoise.x2_stream s))
           (set_st (TrigXnoise.set_dist
                      (TrigXnoise.set_xx1 (PyFloat_AS_DOUBLE (TrigXnoise.x1 (st o)))
                         (TrigXnoise.dist (st o)))
                      (st o)) o)
           w d1 d2 I H1 H2).
Qed.

Lemma TrigXnoise_generate_aa_overwrites :
  overwrites_block any_fields
    (TrigXnoise.TrigXnoise_generate_aa logf tanf powf src fuel env).
Proof.
  intros o w d1 d2 Hp H1 H2. unfold TrigXnoise.TrigXnoise_generate_aa. cbv zeta.
  autorewrite with pyo.
  unfold TrigXnoise.generate_loop. autorewrite with pyo. cbv zeta.
  apply (loop_overwrites_run
           (fun i s u =>
              TrigXnoise.sample_step logf tanf powf src fuel
                (sample (env (TrigXnoise.input_stream (st o))) i)
                (fun d => TrigXnoise.set_xx2
                            (sample (env (TrigXnoise.x2_stream (st o))) i)
                            (TrigXnoise.set_xx1
                               (sample (env (TrigXnoise.x1_stream (st o))) i) d))
                s u)
           TrigXnoise.value o w d1 d2 H1 H2).
Qed.

Lemma TrigXnoiseMidi_generate_loop_overwrites
      (prepare : list Q -> nat -> TrigXnoise.noise -> TrigXnoise.noise)
      (aux : TrigXnoiseMidi.fields -> list Q) :
  overwrites_block any_fields
    (fun o pos => TrigXnoiseMidi.generate_loop logf tanf powf src fuel env
                    (prepare (aux (st o))) o pos).
Proof.
  intros o w d1 d2 _ H1 H2.
  unfold TrigXnoiseMidi.generate_loop. autorewrite with pyo. cbv zeta.
  apply (loop_overwrites_run
           (fun i s u =>
              TrigXnoiseMidi.sample_step logf tanf powf src fuel
                (sample (env (TrigXnoiseMidi.input_stream (st o))) i)
                (prepare (aux (st o)) i) s u)
           TrigXnoiseMidi.value o w d1 d2 H1 H2).
Qed.

Lemma TrigXnoiseMidi_generate_ii_overwrites :
  overwrites_block any_fields
    (TrigXnoiseMidi.TrigXnoiseMidi_generate_ii logf tanf powf src fuel env).
Proof.
  intros o w d1 d2 Hp H1 H2. unfold TrigXnoiseMidi.TrigXnoiseMidi_generate_ii.
  cbv zeta. autorewrite with pyo.
  exact (TrigXnoiseMidi_generate_loop_overwrites (fun _ _ d => d) (fun _ => [])
           (set_st (TrigXnoiseMidi.set_dist
                      (TrigXnoise.set_xx2 (PyFloat_AS_DOUBLE (TrigXnoiseMidi.x2 (st o)))
                         (TrigXnoise.set_xx1
                            (PyFloat_AS_DOUBLE (TrigXnoiseMidi.x1 (st o)))
                            (TrigXnoiseMidi.dist (st o))))
                      (st o)) o)
           w d1 d2 I H1 H2).
Qed.

Lemma TrigXnoiseMidi_generate_ai_overwrites :
  overwrites_block any_fields
    (TrigXnoiseMidi.TrigXnoiseMidi_generate_ai logf tanf powf src fuel env).
Proof.
  intros o w d1 d2 Hp H1 H2. unfold TrigXnoiseMidi.TrigXnoiseMidi_generate_ai.
  cbv zeta. autorewrite with pyo.
  exact (TrigXnoiseMidi_generate_loop_overwrites
           (fun x1s i d => TrigXnoise.set_xx1 (sample x1s i) d)
           (fun s => env (TrigXnoiseMidi.x1_stream s))
           (set_st (TrigXnoiseMidi.set_dist
                      (TrigXnoise.set_xx2 (PyFloat_AS_DOUBLE (TrigXnoiseMidi.x2 (st o)))
                         (TrigXnoiseMidi.dist (st o)))
                      (st o)) o)
           w d1 d2 I H1 H2).
Qed.

Lemma TrigXnoiseMidi_generate_ia_overwrites :
  overwrites_block any_fields
    (TrigXnoiseMidi.TrigXnoiseMidi_generate_ia logf tanf powf src fuel env).
Proof.
  intros o w d1 d2 Hp H1 H2. unfold TrigXnoiseMidi.TrigXnoiseMidi_generate_ia.
  cbv zeta. autorewrite with pyo.
  exact (TrigXnoiseMidi_generate_loop_overwrites
           (fun x2s i d => TrigXnoise.set_xx2 (sample x2s i) d)
           (fun s => env (TrigXnoiseMidi.x2_stream s))
           (set_st (TrigXnoiseMidi.set_dist
                      (TrigXnoise.set_xx1 (PyFloat_AS_DOUBLE (TrigXnoiseMidi.x1 (st o)))
                         (TrigXnoiseMidi.dist (st o)))
                      (st o)) o)
           w d1 d2 I H1 H2).
Qed.

Lemma TrigXnoiseMidi_generate_aa_overwrites :
  overwrites_block any_fields
    (TrigXnoiseMidi.TrigXnoiseMidi_generate_aa logf tanf powf src fuel env).
Proof.
  intros o w d1 d2 Hp H1 H2. unfold TrigXnoiseMidi.TrigXnoiseMidi_generate_aa.
  cbv zeta. autorewrite with pyo.
  unfold TrigXnoiseMidi.generate_loop. autorewrite with pyo. cbv zeta.
  apply (loop_overwrites_run
           (fun i s u =>
              TrigXnoiseMidi.sample_step logf tanf powf src fuel
                (sample (env (TrigXnoiseMidi.input_stream (st o))) i)
                (fun d => TrigXnoise.set_xx2
                            (sample (env (TrigXnoiseMidi.x2_stream (st o))) i)
                            (TrigXnoise.set_xx1
                               (sample (env (TrigXnoiseMidi.x1_stream (st o))) i) d))
                s u)
           TrigXnoiseMidi.value o w d1 d2 H1 H2).
Qed.

End XnoiseOverwrites.

(** [TrigFunc_generate] assigns no sample: the buffer is the one it was
    given. *)
Lemma TrigFunc_generate_keeps_buffer (env : Stream -> list Q) (o : TrigFunc.self)
      (calls : list nat) :
  fst (TrigFunc.TrigFunc_generate env o calls) = o.
Proof.
  unfold TrigFunc.TrigFunc_generate. cbv zeta.
  apply (for_loop_ind (fun _ (r : TrigFunc.self * list nat) => fst r = o)).
  - reflexivity.
  - intros i [o' c] _ Ho. cbn in Ho. subst o'.
    destruct (Qeq_bool _ 1); reflexivity.
Qed.
(** HilbertMain writes its samples in [buffer_streams], not in [data]:
    every one of the [2 * bufsize] cells is assigned. *)
Lemma HilbertMain_filters_overwrites (env : Stream -> list Q) (o : HilbertMain.self)
      (b1 b2 : list Q) :
  length b1 = (2 * bufsize o)%nat -> length b2 = (2 * bufsize o)%nat ->
  HilbertMain.HilbertMain_filters env (HilbertMain.set_buffer_streams b1 o)
    = HilbertMain.HilbertMain_filters env (HilbertMain.set_buffer_streams b2 o)
  /\ length (HilbertMain.buffer_streams
               (st (HilbertMain.HilbertMain_filters env
                      (HilbertMain.set_buffer_streams b1 o))))
     = (2 * bufsize o)%nat.
Proof.
  intros H1 H2. unfold HilbertMain.HilbertMain_filters.
  cbn [HilbertMain.set_buffer_streams st set_st bufsize HilbertMain.input_stream
       HilbertMain.coefs HilbertMain.x1 HilbertMain.y1 HilbertMain.buffer_streams].
  cbv zeta.
  set (n := bufsize o).
  set (body := fun (i : nat) '(l, buf) =>
         (HilbertMain.filter_sample (HilbertMain.coefs (st o))
            (sample (env (HilbertMain.input_stream (st o))) i) l,
          <[(i + n)%nat := HilbertMain.yn2
              (HilbertMain.filter_sample (HilbertMain.coefs (st o))
                 (sample (env (HilbertMain.input_stream (st o))) i) l)]>
            (<[i := HilbertMain.yn1
                (HilbertMain.filter_sample (HilbertMain.coefs (st o))
                   (sample (env (HilbertMain.input_stream (st o))) i) l)]> buf))).
  set (l0 := HilbertMain.Locals (HilbertMain.x1 (st o)) (HilbertMain.y1 (st o)) 0 0 0 0).
  assert (H : let ra := for_loop n body (l0, b1) in
              let rb := for_loop n body (l0, b2) in
              fst ra = fst rb /\ length (snd ra) = (2 * n)%nat
              /\ length (snd rb) = (2 * n)%nat
              /\ forall j, (j < n \/ (n <= j < n + n))%nat -> snd ra !! j = snd rb !! j).
  { cbv zeta.
    apply (for_loop_rel
             (fun k (x y : HilbertMain.locals * list Q) =>
                fst x = fst y /\ length (snd x) = (2 * n)%nat
                /\ length (snd y) = (2 * n)%nat
                /\ forall j, (j < k \/ (n <= j < n + k))%nat -> snd x !! j = snd y !! j)).
    - cbn [fst snd]. repeat split; try assumption. intros j Hj. lia.
    - intros i [l bufa] [l' bufb] Hi (Hl & Hla & Hlb & Hag). cbn [fst snd] in *.
      subst l'. unfold body. cbn [fst snd]. rewrite !length_insert.
      repeat split; try assumption.
      intros j Hj.
      destruct (Nat.eq_dec j (i + n)%nat) as [-> | Hne1].
      { rewrite !list_lookup_insert_eq; [reflexivity| |]; rewrite length_insert; lia. }
      rewrite !(list_lookup_insert_ne _ (i + n)%nat j) by lia.
      destruct (Nat.eq_dec j i) as [-> | Hne2].
      { rewrite !list_lookup_insert_eq; [reflexivity| |]; lia. }
      rewrite !list_lookup_insert_ne by lia. apply Hag. lia. }
  cbv zeta in H. fold body. destruct H as (Hl & Hla & Hlb & Hag).
  assert (Hb : snd (for_loop n body (l0, b1)) = snd (for_loop n body (l0, b2))).
  { apply list_eq. intros j. destruct (Nat.lt_ge_cases j (2 * n)) as [Hj | Hj].
    - apply Hag. lia.
    - rewrite !lookup_ge_None_2; [reflexivity| |]; lia. }
  change (for_loop n
            (fun (i : nat) '(l, buf) =>
               let l1 := HilbertMain.filter_sample (HilbertMain.coefs (st o))
                           (sample (env (HilbertMain.input_stream (st o))) i) l in
               (l1, <[(i + n)%nat := HilbertMain.yn2 l1]> (<[i := HilbertMain.yn1 l1]> buf))))
    with (for_loop n body).
  rewrite Hl, Hb. split; [reflexivity|]. cbn. rewrite <- Hb. exact Hla.
Qed.
Lemma Qtrunc_floor (x : Q) : 0 <= x -> Qtrunc x = Qfloor x.
Proof.
  intros H. unfold Qtrunc. destruct x as [a b]. cbn.
  apply Z.quot_div_nonneg; [|lia]. unfold Qle in H. cbn in H. lia.
Qed.

Lemma Qtrunc_ge (k : Z) (x : Q) : (0 <= k)%Z -> inject_Z k <= x -> (k <= Qtrunc x)%Z.
Proof.
  intros Hk Hx.
  assert (H0 : 0 <= x).
  { apply (Qle_trans _ (inject_Z k)); [|exact Hx]. rewrite <- (Zle_Qle 0). exact Hk. }
  rewrite (Qtrunc_floor x H0). rewrite <- (Qfloor_Z k).
  apply Qfloor_resp_le. exact Hx.
Qed.

Section XnoiseTotal.
Variable logf : Q -> Q.
Variable tanf : Q -> Q.
Variable powf : Q -> Q -> Q.
Variable src : RandSrc.
Variable fuel : nat.
Variable env : Stream -> list Q.

(** The step of the walk never divides by zero: its modulus is at least 2.
    It draws two numbers and changes nothing but [xx2] (clamped) and
    [walkerValue]. *)
Lemma TrigXnoise_walk_total (s : TrigXnoise.noise) (pos : nat) :
  exists w,
    TrigXnoise.walk src s pos
    = Done (TrigXnoise.set_walkerValue w
              (if Qltb (TrigXnoise.xx2 s) (2#1000)
               then TrigXnoise.set_xx2 (2#1000) s else s),
            S (S pos)).
Proof.
  unfold TrigXnoise.walk. cbv zeta.
  set (s2 := if Qltb (TrigXnoise.xx2 s) (2 # 1000) then _ else s).
  assert (Hx : (2#1000) <= TrigXnoise.xx2 s2).
  { unfold s2. destruct (Qltb (TrigXnoise.xx2 s) (2 # 1000)) eqn:E.
    - cbn. apply Qle_refl.
    - apply Qltb_ge in E. exact E. }
  assert (Hm : (2 <= Qtrunc (TrigXnoise.xx2 s2 * 1000))%Z).
  { apply Qtrunc_ge; [lia|].
    apply (Qle_trans _ ((2#1000) * 1000)); [discriminate|].
    apply Qmult_le_compat_r; [exact Hx|]. discriminate. }
  cbn [rand]. unfold c_rem.
  destruct (Qtrunc (TrigXnoise.xx2 s2 * 1000) =? 0)%Z eqn:E0; [lia|].
  cbn [bind]. eexists. reflexivity.
Qed.

(** Every distribution function other than the Cauchy and the Poisson one
    returns. *)
Lemma TrigXnoise_call_type_total (f : TrigXnoise.type_func) (s : TrigXnoise.noise)
      (pos : nat) :
  f <> TrigXnoise.ptr_cauchy -> f <> TrigXnoise.ptr_poisson ->
  exists v s' pos',
    TrigXnoise.call_type logf tanf powf src fuel (Some f) s pos = Done (v, s', pos').
Proof.
  intros Hc Hp. destruct f; try congruence; cbn [TrigXnoise.call_type].
  1-9: unfold TrigXnoise.TrigXnoise_uniform, TrigXnoise.TrigXnoise_linear_min,
         TrigXnoise.TrigXnoise_linear_max, TrigXnoise.TrigXnoise_triangle,
         TrigXnoise.TrigXnoise_expon_min, TrigXnoise.TrigXnoise_expon_max,
         TrigXnoise.TrigXnoise_biexpon, TrigXnoise.TrigXnoise_weibull,
         TrigXnoise.TrigXnoise_gaussian, RANDOM_UNIFORM; cbv zeta;
       repeat match goal with
              | |- context [let (_, _) := ?e in _] => destruct e
              end;
       eexists; eexists; eexists; reflexivity.
  - unfold TrigXnoise.TrigXnoise_walker.
    destruct (TrigXnoise_walk_total s pos) as (w & ->). cbn [bind].
    eexists. eexists. eexists. reflexivity.
  - unfold TrigXnoise.TrigXnoise_loopseg.
    destruct (TrigXnoise.loopChoice s =? 0)%Z.
    + match goal with
      | |- context [TrigXnoise.walk src ?s0 pos] =>
          destruct (TrigXnoise_walk_total s0 pos) as (w & ->)
      end.
      cbn [bind]. cbv zeta.
      destruct (_ <? _)%Z; cbn [rand]; eexists; eexists; eexists; reflexivity.
    + cbv zeta.
      destruct (_ <? _)%Z; destruct (_ =? _)%Z; cbn [rand];
        eexists; eexists; eexists; reflexivity.
Qed.

(** With such a distribution the loop of TrigXnoise runs to its end. *)
Lemma TrigXnoise_generate_loop_total
      (prepare : nat -> TrigXnoise.noise -> TrigXnoise.noise)
      (o : TrigXnoise.self) (pos : nat) (f : TrigXnoise.type_func) :
  TrigXnoise.type_func_ptr (st o) = Some f ->
  f <> TrigXnoise.ptr_cauchy -> f <> TrigXnoise.ptr_poisson ->
  exists o' pos',
    TrigXnoise.generate_loop logf tanf powf src fuel env prepare o pos
    = Done (o', pos').
Proof.
  intros Hf Hc Hp. unfold TrigXnoise.generate_loop. cbv zeta.
  assert (H : exists o' pos',
             for_loop (bufsize o)
               (fun i r =>
                  let* (o0, pos0) := r in
                  let* (s, pos1) :=
                    TrigXnoise.sample_step logf tanf powf src fuel
                      (sample (env (TrigXnoise.input_stream (st o))) i)
                      (prepare i) (st o0) pos0 in
                  Done (store i (TrigXnoise.value s) (set_st s o0), pos1))
               (Done (o, pos)) = Done (o', pos')
             /\ TrigXnoise.type_func_ptr (st o') = Some f).
  { apply (for_loop_ind
             (fun _ (r : run (TrigXnoise.self * nat)) =>
                exists o' pos', r = Done (o', pos')
                                /\ TrigXnoise.type_func_ptr (st o') = Some f)).
    - exists o, pos. split; [reflexivity|exact Hf].
    - intros i r _ (o' & pos' & -> & Hf'). cbn [bind].
      unfold TrigXnoise.sample_step.
      destruct (Qeq_bool _ 1).
      + rewrite Hf'.
        destruct (TrigXnoise_call_type_total f
                    (prepare i (TrigXnoise.dist (st o'))) pos' Hc Hp)
          as (v & s' & pos1 & ->).
        cbn [bind]. eexists. eexists. split; [reflexivity|]. cbn. exact Hf'.
      + cbn [bind]. eexists. eexists. split; [reflexivity|]. cbn. exact Hf'. }
  destruct H as (o' & pos' & H & _). exists o', pos'. exact H.
Qed.

Lemma TrigXnoiseMidi_generate_loop_total
      (prepare : nat -> TrigXnoise.noise -> TrigXnoise.noise)
      (o : TrigXnoiseMidi.self) (pos : nat) (f : TrigXnoise.type_func) :
  TrigXnoiseMidi.type_func_ptr (st o) = Some f ->
  f <> TrigXnoise.ptr_cauchy -> f <> TrigXnoise.ptr_poisson ->
  exists o' pos',
    TrigXnoiseMidi.generate_loop logf tanf powf src fuel env prepare o pos
    = Done (o', pos').
Proof.
  intros Hf Hc Hp. unfold TrigXnoiseMidi.generate_loop. cbv zeta.
  assert (H : exists o' pos',
             for_loop (bufsize o)
               (fun i r =>
                  let* (o0, pos0) := r in
                  let* (s, pos1) :=
                    TrigXnoiseMidi.sample_step logf tanf powf src fuel
                      (sample (env (TrigXnoiseMidi.input_stream (st o))) i)
                      (prepare i) (st o0) pos0 in
                  Done (store i (TrigXnoiseMidi.value s) (set_st s o0), pos1))
               (Done (o, pos)) = Done (o', pos')
             /\ TrigXnoiseMidi.type_func_ptr (st o') = Some f).
  { apply (for_loop_ind
             (fun _ (r : run (TrigXnoiseMidi.self * nat)) =>
                exists o' pos', r = Done (o', pos')
                                /\ TrigXnoiseMidi.type_func_ptr (st o') = Some f)).
    - exists o, pos. split; [reflexivity|exact Hf].
    - intros i r _ (o' & pos' & -> & Hf'). cbn [bind].
      unfold TrigXnoiseMidi.sample_step.
      destruct (Qeq_bool _ 1).
      + rewrite Hf'.
        destruct (TrigXnoise_call_type_total f
                    (prepare i (TrigXnoiseMidi.dist (st o'))) pos' Hc Hp)
          as (v & s' & pos1 & ->).
        cbn [bind]. eexists. eexists. split; [reflexivity|]. cbn. exact Hf'.
      + cbn [bind]. eexists. eexists. split; [reflexivity|]. cbn. exact Hf'. }
  destruct H as (o' & pos' & H & _). exists o', pos'. exact H.
Qed.

End XnoiseTotal.
(** C9 as stated fails on TrigFunc: its compute function assigns no
    sample, so two different buffers stay different, trigger or not. *)
Lemma TrigFunc_generate_leaves_stale_samples :
  ~ overwrites_block any_fields
      (lift_world (TrigFunc.TrigFunc_generate (fun _ => [1; 0]))).
Proof.
  intros H.
  destruct (H trigfunc_2 [] [1#2; 1#2] [0; 0] I eq_refl eq_refl) as [He _].
  vm_compute in He. discriminate He.
Qed.

(** C9, amended: every compute function that produces samples assigns
    every cell of its output buffer, whatever the buffer held: the four
    variants of TrigRand, TrigChoice, the two variants of TrigEnv,
    TrigEnvTrig, the four variants of TrigXnoise and of TrigXnoiseMidi,
    Counter, the two variants of Thresh in its three modes, the two
    generators of Fader and of Adsr, and the Hilbert tap; HilbertMain
    assigns every cell of its two-channel buffer.  TrigFunc, whose output
    is the call of a function, assigns no sample and returns the buffer
    it was given.  The loops of TrigXnoise and TrigXnoiseMidi run to
    their end for every distribution other than the Cauchy and the
    Poisson one. *)
Theorem compute_overwrites_block
    (env : Stream -> list Q) (src : RandSrc)
    (logf tanf : Q -> Q) (powf : Q -> Q -> Q) (fuel : nat) (tmp : list Q) :
  (overwrites_block any_fields (lift_world (TrigRand.TrigRand_generate_ii env src))
   /\ overwrites_block any_fields (lift_world (TrigRand.TrigRand_generate_ai env src))
   /\ overwrites_block any_fields (lift_world (TrigRand.TrigRand_generate_ia env src))
   /\ overwrites_block any_fields (lift_world (TrigRand.TrigRand_generate_aa env src)))
  /\ overwrites_block any_fields (lift_world (TrigChoice.TrigChoice_generate env src))
  /\ (overwrites_block any_fields (lift_world (TrigEnv.TrigEnv_readframes_i env))
      /\ overwrites_block any_fields (lift_world (TrigEnv.TrigEnv_readframes_a env))
      /\ overwrites_block any_fields
           (lift_world TrigEnvTrig.TrigEnvTrig_compute_next_data_frame))
  /\ (overwrites_block any_fields
        (TrigXnoise.TrigXnoise_generate_ii logf tanf powf src fuel env)
      /\ overwrites_block any_fields
           (TrigXnoise.TrigXnoise_generate_ai logf tanf powf src fuel env)
      /\ overwrites_block any_fields
           (TrigXnoise.TrigXnoise_generate_ia logf tanf powf src fuel env)
      /\ overwrites_block any_fields
           (TrigXnoise.TrigXnoise_generate_aa logf tanf powf src fuel env))
  /\ (overwrites_block any_fields
        (TrigXnoiseMidi.TrigXnoiseMidi_generate_ii logf tanf powf src fuel env)
      /\ overwrites_block any_fields
           (TrigXnoiseMidi.TrigXnoiseMidi_generate_ai logf tanf powf src fuel env)
      /\ overwrites_block any_fields
           (TrigXnoiseMidi.TrigXnoiseMidi_generate_ia logf tanf powf src fuel env)
      /\ overwrites_block any_fields
           (TrigXnoiseMidi.TrigXnoiseMidi_generate_aa logf tanf powf src fuel env))
  /\ overwrites_block any_fields (lift_pure (Counter.Counter_generates env))
  /\ (overwrites_block
        (fun s => Thresh.dir s = 0 \/ Thresh.dir s = 1 \/ Thresh.dir s = 2)%Z
        (lift_pure (Thresh.Thresh_generates_i env))
      /\ overwrites_block
           (fun s => Thresh.dir s = 0 \/ Thresh.dir s = 1 \/ Thresh.dir s = 2)%Z
           (lift_pure (Thresh.Thresh_generates_a env)))
  /\ (overwrites_block any_fields (lift_pure Fader.Fader_generate_auto)
      /\ overwrites_block any_fields (lift_pure Fader.Fader_generate_wait)
      /\ overwrites_block any_fields (lift_pure Adsr.Adsr_generate_auto)
      /\ overwrites_block any_fields (lift_pure Adsr.Adsr_generate_wait))
  /\ overwrites_block any_fields
       (lift_pure (Hilbert.Hilbert_compute_next_data_frame tmp))
  /\ (forall (o : HilbertMain.self) (b1 b2 : list Q),
        length b1 = (2 * bufsize o)%nat -> length b2 = (2 * bufsize o)%nat ->
        HilbertMain.HilbertMain_filters env (HilbertMain.set_buffer_streams b1 o)
          = HilbertMain.HilbertMain_filters env (HilbertMain.set_buffer_streams b2 o)
        /\ length (HilbertMain.buffer_streams
                     (st (HilbertMain.HilbertMain_filters env
                            (HilbertMain.set_buffer_streams b1 o))))
           = (2 * bufsize o)%nat)
  /\ (forall (o : TrigFunc.self) (calls : list nat),
        fst (TrigFunc.TrigFunc_generate env o calls) = o)
  /\ (forall (o : TrigXnoise.self) (pos : nat) (f : TrigXnoise.type_func),
        TrigXnoise.type_func_ptr (st o) = Some f ->
        f <> TrigXnoise.ptr_cauchy -> f <> TrigXnoise.ptr_poisson ->
        (exists o' pos',
           TrigXnoise.TrigXnoise_generate_ii logf tanf powf src fuel env o pos
           = Done (o', pos'))
        /\ (exists o' pos',
              TrigXnoise.TrigXnoise_generate_ai logf tanf powf src fuel env o pos
              = Done (o', pos'))
        /\ (exists o' pos',
              TrigXnoise.TrigXnoise_generate_ia logf tanf powf src fuel env o pos
              = Done (o', pos'))
        /\ (exists o' pos',
              TrigXnoise.TrigXnoise_generate_aa logf tanf powf src fuel env o pos
              = Done (o', pos')))
  /\ (forall (o : TrigXnoiseMidi.self) (pos : nat) (f : TrigXnoise.type_func),
        TrigXnoiseMidi.type_func_ptr (st o) = Some f ->
        f <> TrigXnoise.ptr_cauchy -> f <> TrigXnoise.ptr_poisson ->
        (exists o' pos',
           TrigXnoiseMidi.TrigXnoiseMidi_generate_ii logf tanf powf src fuel env o pos
           = Done (o', pos'))
        /\ (exists o' pos',
              TrigXnoiseMidi.TrigXnoiseMidi_generate_ai logf tanf powf src fuel env o pos
              = Done (o', pos'))
        /\ (exists o' pos',
              TrigXnoiseMidi.TrigXnoiseMidi_generate_ia logf tanf powf src fuel env o pos
              = Done (o', pos'))
        /\ (exists o' pos',
              TrigXnoiseMidi.TrigXnoiseMidi_generate_aa logf tanf powf src fuel env o pos
              = Done (o', pos'))).
Proof.
  split.
  { split; [apply TrigRand_generate_ii_overwrites|].
    split; [apply TrigRand_generate_ai_overwrites|].
    split; [apply TrigRand_generate_ia_overwrites|].
    apply TrigRand_generate_aa_overwrites. }
  split; [apply TrigChoice_generate_overwrites|].
  split.
  { split; [apply TrigEnv_readframes_i_overwrites|].
    split; [apply TrigEnv_readframes_a_overwrites|].
    apply TrigEnvTrig_compute_overwrites. }
  split.
  { split; [apply TrigXnoise_generate_ii_overwrites|].
    split; [apply TrigXnoise_generate_ai_overwrites|].
    split; [apply TrigXnoise_generate_ia_overwrites|].
    apply TrigXnoise_generate_aa_overwrites. }
  split.
  { split; [apply TrigXnoiseMidi_generate_ii_overwrites|].
    split; [apply TrigXnoiseMidi_generate_ai_overwrites|].
    split; [apply TrigXnoiseMidi_generate_ia_overwrites|].
    apply TrigXnoiseMidi_generate_aa_overwrites. }
  split; [apply Counter_generates_overwrites|].
  split.
  { split; [apply Thresh_generates_i_overwrites|apply Thresh_generates_a_overwrites]. }
  split.
  { split; [apply Fader_generate_auto_overwrites|].
    split; [apply Fader_generate_wait_overwrites|].
    split; [apply Adsr_generate_auto_overwrites|apply Adsr_generate_wait_overwrites]. }
  split; [apply Hilbert_compute_overwrites|].
  split; [intros o b1 b2; apply HilbertMain_filters_overwrites|].
  split; [intros o calls; apply TrigFunc_generate_keeps_buffer|].
  split.
  - intros o pos f Hf Hc Hp.
    unfold TrigXnoise.TrigXnoise_generate_ii, TrigXnoise.TrigXnoise_generate_ai,
      TrigXnoise.TrigXnoise_generate_ia, TrigXnoise.TrigXnoise_generate_aa.
    cbv zeta.
    split; [|split; [|split]];
      apply (TrigXnoise_generate_loop_total logf tanf powf src fuel env _ _ pos f);
      assumption.
  - intros o pos f Hf Hc Hp.
    unfold TrigXnoiseMidi.TrigXnoiseMidi_generate_ii,
      TrigXnoiseMidi.TrigXnoiseMidi_generate_ai,
      TrigXnoiseMidi.TrigXnoiseMidi_generate_ia,
      TrigXnoiseMidi.TrigXnoiseMidi_generate_aa.
    cbv zeta.
    split; [|split; [|split]];
      apply (TrigXnoiseMidi_generate_loop_total logf tanf powf src fuel env _ _ pos f);
      assumption.
Qed.


Section GlideOfGenerators.
Variable src : RandSrc.





End GlideOfGenerators.







Section TrigRandBlock.
Variable env : Stream -> list Q.
Variable src : RandSrc.

Lemma TrigRand_outputs_app (xs ys : list Q) (mi ma : Q) :
  forall (s : TrigRand.fields) (pos : nat),
  TrigRand.outputs src (xs ++ ys) mi ma s pos
  = TrigRand.outputs src xs mi ma s pos
    ++ TrigRand.outputs src ys mi ma (fst (TrigRand.after src xs mi ma s pos))
                                    (snd (TrigRand.after src xs mi ma s pos)).
Proof.
  induction xs as [|x xs IH]; intros s pos; [reflexivity|].
  cbn [app TrigRand.outputs TrigRand.after].
  destruct (TrigRand.sample_step src x mi ma s pos) as [s' pos'].
  rewrite IH. reflexivity.
Qed.

Lemma TrigRand_after_app (xs ys : list Q) (mi ma : Q) :
  forall (s : TrigRand.fields) (pos : nat),
  TrigRand.after src (xs ++ ys) mi ma s pos
  = TrigRand.after src ys mi ma (fst (TrigRand.after src xs mi ma s pos))
                               (snd (TrigRand.after src xs mi ma s pos)).
Proof.
  induction xs as [|x xs IH]; intros s pos; [reflexivity|].
  cbn [app TrigRand.after].
  destruct (TrigRand.sample_step src x mi ma s pos) as [s' pos'].
  rewrite IH. reflexivity.
Qed.

Lemma TrigRand_outputs_length (xs : list Q) (mi ma : Q) :
  forall (s : TrigRand.fields) (pos : nat),
  length (TrigRand.outputs src xs mi ma s pos) = length xs.
Proof.
  induction xs as [|x xs IH]; intros s pos; [reflexivity|].
  cbn [TrigRand.outputs length].
  destruct (TrigRand.sample_step src x mi ma s pos) as [s' pos'].
  cbn [length]. rewrite IH. reflexivity.
Qed.

(** The block that [TrigRand_generate_ii] computes is the sequence of the
    samples of its loop body on the input buffer. *)
Lemma TrigRand_generate_ii_outputs (o : TrigRand.self) (pos : nat) :
  length (data o) = bufsize o ->
  length (env (TrigRand.input_stream (st o))) = bufsize o ->
  let mi := PyFloat_AS_DOUBLE (TrigRand.min (st o)) in
  let ma := PyFloat_AS_DOUBLE (TrigRand.max (st o)) in
  let inp := env (TrigRand.input_stream (st o)) in
  let r := TrigRand.TrigRand_generate_ii env src o pos in
  data (fst r) = TrigRand.outputs src inp mi ma (st o) pos
  /\ (st (fst r), snd r) = TrigRand.after src inp mi ma (st o) pos.
Proof.
  intros Hd Hin mi ma inp r.
  assert (Hin' : length inp = bufsize o) by exact Hin.
  unfold r, TrigRand.TrigRand_generate_ii. cbv zeta. fold mi ma inp.
  set (body := fun (i : nat) '(o0, pos0) =>
         let '(s, pos1) := TrigRand.sample_step src (sample inp i) mi ma (st o0) pos0 in
         (store i (Glide.currentValue (TrigRand.glide s)) (set_st s o0), pos1)).
  assert (H : forall k, (k <= bufsize o)%nat ->
            let rk := for_loop k body (o, pos) in
            data (fst rk) = TrigRand.outputs src (take k inp) mi ma (st o) pos
                            ++ drop k (data o)
            /\ (st (fst rk), snd rk) = TrigRand.after src (take k inp) mi ma (st o) pos).
  { induction k as [|k IH]; intros Hk.
    - cbn. rewrite drop_0. split; reflexivity.
    - cbv zeta. rewrite for_loop_S.
      destruct (IH ltac:(lia)) as (IHd & IHs). clear IH.
      destruct (for_loop k body (o, pos)) as [ok pk]. cbn [fst snd] in IHd, IHs.
      assert (Hx : inp !! k = Some (sample inp k)).
      { unfold sample. destruct (nth_lookup_or_length inp k 0) as [H|H]; [exact H|lia]. }
      rewrite (take_S_r inp k _ Hx).
      rewrite TrigRand_outputs_app, TrigRand_after_app. rewrite <- IHs.
      cbn [fst snd TrigRand.outputs TrigRand.after]. unfold body.
      destruct (TrigRand.sample_step src (sample inp k) mi ma (st ok) pk) as [s1 p1].
      cbn [fst snd store set_st set_data data st]. split; [|reflexivity].
      rewrite IHd.
      assert (Hlen : length (TrigRand.outputs src (take k inp) mi ma (st o) pos) = k).
      { rewrite TrigRand_outputs_length, length_take. lia. }
      rewrite insert_app_r_alt by lia. rewrite Hlen, Nat.sub_diag.
      rewrite <- app_assoc. f_equal.
      destruct (lookup_lt_is_Some_2 (data o) k ltac:(lia)) as [v Hv].
      rewrite (drop_S _ _ _ Hv). reflexivity. }
  destruct (H (bufsize o) (le_n _)) as (Hdata & Hst).
  rewrite take_ge in Hdata, Hst by lia.
  rewrite drop_ge, app_nil_r in Hdata by lia.
  split; assumption.
Qed.

End TrigRandBlock.

Section LoopsegFacts.
Variable src : RandSrc.

(** One draw in the recording phase: a step of the walk is stored at
    [loopCountRec]; the phase ends when [loopLen] values are stored, and
    the number of repetitions is drawn then. *)
Lemma TrigXnoise_loopseg_record (s : TrigXnoise.noise) (pos : nat) :
  TrigXnoise.loopChoice s = 0%Z ->
  exists w s' pos',
    TrigXnoise.TrigXnoise_loopseg src s pos = Done (w, s', pos')
    /\ TrigXnoise.loop_buffer s'
       = TrigXnoise.set_cell (TrigXnoise.loop_buffer s) (TrigXnoise.loopCountRec s) w
    /\ TrigXnoise.loopCountRec s' = (TrigXnoise.loopCountRec s + 1)%Z
    /\ TrigXnoise.loopLen s' = TrigXnoise.loopLen s
    /\ TrigXnoise.loopCountPlay s' = 0%Z /\ TrigXnoise.loopTime s' = 0%Z
    /\ ((TrigXnoise.loopCountRec s + 1 < TrigXnoise.loopLen s)%Z ->
        TrigXnoise.loopChoice s' = 0%Z)
    /\ ((TrigXnoise.loopLen s <= TrigXnoise.loopCountRec s + 1)%Z ->
        TrigXnoise.loopChoice s' = 1%Z
        /\ TrigXnoise.loopStop s' = (Z.rem (src (S (S pos))) 4 + 1)%Z).
Proof.
  intros Hc. unfold TrigXnoise.TrigXnoise_loopseg. rewrite Hc. cbn [Z.eqb].
  match goal with
  | |- context [TrigXnoise.walk src ?s0 pos] =>
      destruct (TrigXnoise_walk_total src s0 pos) as (w & ->)
  end.
  cbn [bind]. cbv zeta.
  set (s2 := TrigXnoise.set_walkerValue w _).
  assert (Hs2 : TrigXnoise.loop_buffer s2 = TrigXnoise.loop_buffer s
                /\ TrigXnoise.loopCountRec s2 = TrigXnoise.loopCountRec s
                /\ TrigXnoise.loopLen s2 = TrigXnoise.loopLen s
                /\ TrigXnoise.loopCountPlay s2 = 0%Z /\ TrigXnoise.loopTime s2 = 0%Z
                /\ TrigXnoise.walkerValue s2 = w).
  { unfold s2. destruct (Qltb _ _); cbn; repeat split. }
  destruct Hs2 as (Hb & Hr & Hl & Hp & Ht & Hw). clearbody s2.
  rewrite Hb, Hr, Hl, Hw.
  destruct (TrigXnoise.loopCountRec s + 1 <? TrigXnoise.loopLen s)%Z eqn:E.
  - eexists. eexists. eexists. split; [reflexivity|]. cbn.
    repeat split; try assumption; try lia.
  - cbn [rand]. eexists. eexists. eexists. split; [reflexivity|]. cbn.
    repeat split; try assumption; try lia.
Qed.

(** One draw in the playback phase: the cell at [loopCountPlay] is
    returned; after the last cell a repetition is counted, and after the
    last repetition the recording phase is entered with a new length. *)
Lemma TrigXnoise_loopseg_play (s : TrigXnoise.noise) (pos : nat) :
  TrigXnoise.loopChoice s = 1%Z ->
  exists s' pos',
    TrigXnoise.TrigXnoise_loopseg src s pos
    = Done (TrigXnoise.cell (TrigXnoise.loop_buffer s) (TrigXnoise.loopCountPlay s),
            s', pos')
    /\ TrigXnoise.loop_buffer s' = TrigXnoise.loop_buffer s
    /\ TrigXnoise.loopCountRec s' = 0%Z
    /\ TrigXnoise.loopStop s' = TrigXnoise.loopStop s
    /\ ((TrigXnoise.loopCountPlay s + 1 < TrigXnoise.loopLen s)%Z ->
        TrigXnoise.loopCountPlay s' = (TrigXnoise.loopCountPlay s + 1)%Z
        /\ TrigXnoise.loopTime s' = TrigXnoise.loopTime s)
    /\ ((TrigXnoise.loopLen s <= TrigXnoise.loopCountPlay s + 1)%Z ->
        TrigXnoise.loopCountPlay s' = 0%Z
        /\ TrigXnoise.loopTime s' = (TrigXnoise.loopTime s + 1)%Z)
    /\ (TrigXnoise.loopTime s' <> TrigXnoise.loopStop s ->
        TrigXnoise.loopChoice s' = 1%Z
        /\ TrigXnoise.loopLen s' = TrigXnoise.loopLen s)
    /\ (TrigXnoise.loopTime s' = TrigXnoise.loopStop s ->
        TrigXnoise.loopChoice s' = 0%Z
        /\ TrigXnoise.loopLen s' = (Z.rem (src pos) 10 + 3)%Z).
Proof.
  intros Hc. unfold TrigXnoise.TrigXnoise_loopseg. rewrite Hc. cbn [Z.eqb]. cbv zeta.
  destruct (TrigXnoise.loopCountPlay s + 1 <? TrigXnoise.loopLen s)%Z eqn:E.
  - destruct (TrigXnoise.loopTime s =? TrigXnoise.loopStop s)%Z eqn:E2; cbn [rand].
    + eexists. eexists. split; [reflexivity|]. cbn.
      repeat split; try lia.
    + eexists. eexists. split; [reflexivity|]. cbn.
      repeat split; try lia.
  - destruct (TrigXnoise.loopTime s + 1 =? TrigXnoise.loopStop s)%Z eqn:E2; cbn [rand].
    + eexists. eexists. split; [reflexivity|]. cbn.
      repeat split; try lia.
    + eexists. eexists. split; [reflexivity|]. cbn.
      repeat split; try assumption; try lia.
Qed.

End LoopsegFacts.

Lemma cell_of_drop (buf : list Q) (c : Z) (x : Q) (l : list Q) :
  (0 <= c)%Z -> drop (Z.to_nat c) buf = x :: l ->
  TrigXnoise.cell buf c = x /\ drop (S (Z.to_nat c)) buf = l.
Proof.
  intros Hc E. unfold TrigXnoise.cell, sample.
  destruct (Z.ltb_spec c 0); [lia|]. split.
  - rewrite nth_lookup.
    rewrite <- (Nat.add_0_r (Z.to_nat c)), <- lookup_drop, E. reflexivity.
  - change (S (Z.to_nat c)) with (1 + Z.to_nat c)%nat.
    rewrite Nat.add_comm, <- drop_drop, E. reflexivity.
Qed.

Section LoopsegRuns.
Variable src : RandSrc.

Lemma TrigXnoise_loopseg_run_app (a b : nat) (s : TrigXnoise.noise) (pos : nat)
    vs1 s1 p1 vs2 s2 p2 :
  TrigXnoise.loopseg_run src a s pos = Done (vs1, s1, p1) ->
  TrigXnoise.loopseg_run src b s1 p1 = Done (vs2, s2, p2) ->
  TrigXnoise.loopseg_run src (a + b) s pos = Done (vs1 ++ vs2, s2, p2).
Proof.
  revert s pos vs1. induction a as [|a IH]; intros s pos vs1 Ha Hb.
  - cbn in Ha. injection Ha as <- <- <-. exact Hb.
  - cbn [Nat.add TrigXnoise.loopseg_run] in *.
    destruct (TrigXnoise.TrigXnoise_loopseg src s pos) as [[[v s0] p0]| |];
      cbn [bind] in *; try discriminate.
    destruct (TrigXnoise.loopseg_run src a s0 p0) as [[[vs0 s0'] p0']| |] eqn:E;
      cbn [bind] in *; try discriminate.
    injection Ha as <- <- <-.
    rewrite (IH _ _ _ E Hb). reflexivity.
Qed.

(** The rest of a recording phase: [n] draws that store their values in
    the cells from [loopCountRec] on. *)
Lemma TrigXnoise_loopseg_record_run (n : nat) :
  forall (s : TrigXnoise.noise) (pos : nat),
    TrigXnoise.loopChoice s = 0%Z ->
    (0 <= TrigXnoise.loopCountRec s)%Z ->
    (TrigXnoise.loopCountRec s + Z.of_nat (S n) = TrigXnoise.loopLen s)%Z ->
    (Z.to_nat (TrigXnoise.loopLen s) <= length (TrigXnoise.loop_buffer s))%nat ->
    exists vs s' pos',
      TrigXnoise.loopseg_run src (S n) s pos = Done (map (pair 0%Z) vs, s', pos')
      /\ length vs = S n
      /\ length (TrigXnoise.loop_buffer s') = length (TrigXnoise.loop_buffer s)
      /\ (forall i, (i < Z.to_nat (TrigXnoise.loopCountRec s))%nat ->
            TrigXnoise.loop_buffer s' !! i = TrigXnoise.loop_buffer s !! i)
      /\ (forall j, (j < S n)%nat ->
            TrigXnoise.loop_buffer s' !! (Z.to_nat (TrigXnoise.loopCountRec s) + j)%nat
            = vs !! j)
      /\ TrigXnoise.loopChoice s' = 1%Z
      /\ TrigXnoise.loopLen s' = TrigXnoise.loopLen s
      /\ TrigXnoise.loopCountPlay s' = 0%Z /\ TrigXnoise.loopTime s' = 0%Z
      /\ exists p, TrigXnoise.loopStop s' = (Z.rem (src p) 4 + 1)%Z.
Proof.
  induction n as [|n IH]; intros s pos Hc Hr Hn Hlen.
  - destruct (TrigXnoise_loopseg_record src s pos Hc)
      as (w & s1 & p1 & Hstep & Hb & Hr1 & Hl1 & Hp1 & Ht1 & _ & Hend).
    destruct Hend as [Hc1 Hs1]; [lia|].
    exists [w], s1, p1. cbn [TrigXnoise.loopseg_run]. rewrite Hstep. cbn [bind map].
    rewrite Hc. split; [reflexivity|]. split; [reflexivity|].
    assert (Hbuf : TrigXnoise.loop_buffer s1
                   = <[Z.to_nat (TrigXnoise.loopCountRec s) := w]> (TrigXnoise.loop_buffer s)).
    { rewrite Hb. unfold TrigXnoise.set_cell.
      destruct (Z.ltb_spec (TrigXnoise.loopCountRec s) 0); [lia|reflexivity]. }
    rewrite Hbuf, length_insert.
    split; [reflexivity|]. split.
    { intros i Hi. apply list_lookup_insert_ne. lia. }
    split.
    { intros j Hj. assert (j = 0%nat) as -> by lia. rewrite Nat.add_0_r.
      cbn. apply list_lookup_insert_eq. lia. }
    repeat split; try assumption. eexists; exact Hs1.
  - destruct (TrigXnoise_loopseg_record src s pos Hc)
      as (w & s1 & p1 & Hstep & Hb & Hr1 & Hl1 & Hp1 & Ht1 & Hgo & _).
    specialize (Hgo ltac:(lia)).
    assert (Hbuf : TrigXnoise.loop_buffer s1
                   = <[Z.to_nat (TrigXnoise.loopCountRec s) := w]> (TrigXnoise.loop_buffer s)).
    { rewrite Hb. unfold TrigXnoise.set_cell.
      destruct (Z.ltb_spec (TrigXnoise.loopCountRec s) 0); [lia|reflexivity]. }
    destruct (IH s1 p1 Hgo) as (vs & s2 & p2 & Hrun & Hvs & Hl2 & Hlow & Hup & Hrest);
      [lia | lia | rewrite Hl1, Hbuf, length_insert; exact Hlen |].
    exists (w :: vs), s2, p2.
    change (TrigXnoise.loopseg_run src (S (S n)) s pos)
      with (bind (TrigXnoise.TrigXnoise_loopseg src s pos)
              (fun '(v, s1, pos1) =>
                 bind (TrigXnoise.loopseg_run src (S n) s1 pos1)
                   (fun '(vs, s2, pos2) =>
                      Done ((TrigXnoise.loopChoice s, v) :: vs, s2, pos2)))).
    rewrite Hstep. cbn [bind]. rewrite Hrun. cbn [bind map]. rewrite Hc.
    split; [reflexivity|]. split; [cbn; lia|].
    rewrite Hr1 in Hlow, Hup.
    replace (Z.to_nat (TrigXnoise.loopCountRec s + 1))
      with (S (Z.to_nat (TrigXnoise.loopCountRec s))) in Hlow, Hup by lia.
    split; [rewrite Hl2, Hbuf, length_insert; reflexivity|].
    split.
    { intros i Hi. rewrite Hlow by lia. rewrite Hbuf.
      apply list_lookup_insert_ne. lia. }
    split.
    { intros [|j] Hj.
      - rewrite Nat.add_0_r, Hlow by lia. rewrite Hbuf. cbn.
        apply list_lookup_insert_eq. lia.
      - replace (Z.to_nat (TrigXnoise.loopCountRec s) + S j)%nat
          with (S (Z.to_nat (TrigXnoise.loopCountRec s)) + j)%nat by lia.
        rewrite Hup by lia. reflexivity. }
    destruct Hrest as (? & Hl3 & ? & ? & ?). rewrite Hl3, Hl1.
    repeat split; assumption.
Qed.

(** The rest of one pass of the playback phase: the cells from
    [loopCountPlay] up to [loopLen - 1], in this order. *)
Lemma TrigXnoise_loopseg_play_pass (n : nat) :
  forall (s : TrigXnoise.noise) (pos : nat),
    TrigXnoise.loopChoice s = 1%Z ->
    (0 <= TrigXnoise.loopCountPlay s)%Z ->
    (TrigXnoise.loopCountPlay s + Z.of_nat (S n) = TrigXnoise.loopLen s)%Z ->
    (0 <= TrigXnoise.loopTime s < TrigXnoise.loopStop s)%Z ->
    (Z.to_nat (TrigXnoise.loopLen s) <= length (TrigXnoise.loop_buffer s))%nat ->
    exists s' pos',
      TrigXnoise.loopseg_run src (S n) s pos
      = Done (map (pair 1%Z)
                (take (S n) (drop (Z.to_nat (TrigXnoise.loopCountPlay s))
                                  (TrigXnoise.loop_buffer s))), s', pos')
      /\ TrigXnoise.loop_buffer s' = TrigXnoise.loop_buffer s
      /\ TrigXnoise.loopCountRec s' = 0%Z
      /\ TrigXnoise.loopStop s' = TrigXnoise.loopStop s
      /\ TrigXnoise.loopCountPlay s' = 0%Z
      /\ TrigXnoise.loopTime s' = (TrigXnoise.loopTime s + 1)%Z
      /\ ((TrigXnoise.loopTime s + 1 <> TrigXnoise.loopStop s)%Z ->
          TrigXnoise.loopChoice s' = 1%Z
          /\ TrigXnoise.loopLen s' = TrigXnoise.loopLen s)
      /\ ((TrigXnoise.loopTime s + 1 = TrigXnoise.loopStop s)%Z ->
          TrigXnoise.loopChoice s' = 0%Z
          /\ exists p, TrigXnoise.loopLen s' = (Z.rem (src p) 10 + 3)%Z).
Proof.
  induction n as [|n IH]; intros s pos Hc Hp Hn Ht Hlen.
  - destruct (TrigXnoise_loopseg_play src s pos Hc)
      as (s1 & p1 & Hstep & Hb & Hr1 & Hs1 & _ & Hwrap & Hstay & Hend).
    destruct Hwrap as [Hp1 Ht1]; [lia|].
    exists s1, p1. cbn [TrigXnoise.loopseg_run]. rewrite Hstep. cbn [bind]. rewrite Hc.
    split.
    { f_equal. f_equal. f_equal.
      destruct (drop _ _) as [|x l] eqn:E.
      - apply (f_equal length) in E. rewrite length_drop in E. cbn in E. lia.
      - cbn. rewrite take_0.
        destruct (cell_of_drop _ _ _ _ Hp E) as [-> _]. reflexivity. }
    rewrite Ht1 in Hstay, Hend.
    repeat split; try assumption; try (apply Hstay; assumption).
    + apply Hend; assumption.
    + destruct (Hend H) as [_ ->]. eexists; reflexivity.
  - destruct (TrigXnoise_loopseg_play src s pos Hc)
      as (s1 & p1 & Hstep & Hb & Hr1 & Hs1 & Hgo & _ & Hstay & _).
    destruct Hgo as [Hp1 Ht1]; [lia|].
    destruct Hstay as [Hc1 Hl1]; [lia|].
    destruct (IH s1 p1 Hc1) as (s2 & p2 & Hrun & Hb2 & Hr2 & Hs2 & Hp2 & Ht2 & Hstay2 & Hend2);
      [lia | lia | lia | rewrite Hl1, Hb; exact Hlen |].
    exists s2, p2.
    change (TrigXnoise.loopseg_run src (S (S n)) s pos)
      with (bind (TrigXnoise.TrigXnoise_loopseg src s pos)
              (fun '(v, s1, pos1) =>
                 bind (TrigXnoise.loopseg_run src (S n) s1 pos1)
                   (fun '(vs, s2, pos2) =>
                      Done ((TrigXnoise.loopChoice s, v) :: vs, s2, pos2)))).
    rewrite Hstep. cbn [bind]. rewrite Hrun. cbn [bind]. rewrite Hc.
    split.
    { f_equal. f_equal. f_equal. rewrite Hb, Hp1.
      replace (Z.to_nat (TrigXnoise.loopCountPlay s + 1))
        with (S (Z.to_nat (TrigXnoise.loopCountPlay s))) by lia.
      destruct (drop (Z.to_nat (TrigXnoise.loopCountPlay s)) (TrigXnoise.loop_buffer s))
        as [|x l] eqn:E.
      - apply (f_equal length) in E. rewrite length_drop in E. cbn in E. lia.
      - destruct (cell_of_drop _ _ _ _ Hp E) as [-> ->]. reflexivity. }
    rewrite Hb2, Hb, Hs2, Hs1, Ht2, Ht1.
    rewrite Ht1, Hs1, Hl1 in Hstay2. rewrite Ht1, Hs1 in Hend2.
    repeat split; try assumption; try (apply Hstay2; assumption);
      try (apply Hend2; assumption).
Qed.

(** The playback phase from the start of a pass: every remaining
    repetition replays the first [loopLen] cells; the last one draws the
    next length and selects the recording phase. *)
Lemma TrigXnoise_loopseg_play_repeats (m : nat) :
  forall (s : TrigXnoise.noise) (pos : nat),
    TrigXnoise.loopChoice s = 1%Z ->
    TrigXnoise.loopCountPlay s = 0%Z ->
    (0 <= TrigXnoise.loopTime s)%Z ->
    (TrigXnoise.loopTime s + Z.of_nat (S m) = TrigXnoise.loopStop s)%Z ->
    (1 <= TrigXnoise.loopLen s)%Z ->
    (Z.to_nat (TrigXnoise.loopLen s) <= length (TrigXnoise.loop_buffer s))%nat ->
    exists s' pos',
      TrigXnoise.loopseg_run src (S m * Z.to_nat (TrigXnoise.loopLen s)) s pos
      = Done (map (pair 1%Z)
                (concat (repeat (take (Z.to_nat (TrigXnoise.loopLen s))
                                      (TrigXnoise.loop_buffer s)) (S m))),
              s', pos')
      /\ TrigXnoise.loop_buffer s' = TrigXnoise.loop_buffer s
      /\ TrigXnoise.loopChoice s' = 0%Z
      /\ TrigXnoise.loopCountRec s' = 0%Z
      /\ exists p, TrigXnoise.loopLen s' = (Z.rem (src p) 10 + 3)%Z.
Proof.
  induction m as [|m IH]; intros s pos Hc Hp Ht Hm Hl Hlen.
  - destruct (Z.to_nat (TrigXnoise.loopLen s)) as [|n] eqn:En; [lia|].
    destruct (TrigXnoise_loopseg_play_pass n s pos Hc)
      as (s1 & p1 & Hrun & Hb & Hr & _ & _ & _ & _ & Hend); [lia | lia | lia | lia |].
    destruct Hend as [Hc1 Hl1]; [lia|].
    exists s1, p1. rewrite Nat.mul_1_l, Hrun, Hp. cbn [Z.to_nat drop repeat concat].
    rewrite app_nil_r. repeat split; assumption.
  - destruct (Z.to_nat (TrigXnoise.loopLen s)) as [|n] eqn:En; [lia|].
    destruct (TrigXnoise_loopseg_play_pass n s pos Hc)
      as (s1 & p1 & Hrun & Hb & Hr & Hs & Hp1 & Ht1 & Hstay & _);
      [lia | lia | lia | lia |].
    destruct Hstay as [Hc1 Hl1]; [lia|].
    destruct (IH s1 p1 Hc1 Hp1) as (s2 & p2 & Hrun2 & Hb2 & Hrest);
      [lia | lia | lia | rewrite Hl1, Hb; lia |].
    exists s2, p2. split.
    + change (S (S m) * S n)%nat with (S n + S m * S n)%nat.
      rewrite Hl1, En, Hb in Hrun2.
      rewrite (TrigXnoise_loopseg_run_app _ _ _ _ _ _ _ _ _ _ Hrun Hrun2).
      rewrite Hp. cbn [Z.to_nat drop]. rewrite <- map_app. reflexivity.
    + rewrite Hb2, Hb. exact (conj eq_refl Hrest).
Qed.

End LoopsegRuns.

(** C5 as stated fails: the first length is drawn as [(rand() % 10) + 3];
    when [rand()] returns 0 the length is 3, not between 8 and 12, and
    the fourth draw is already a playback. *)
Lemma TrigXnoise_loopseg_short_recording :
  let s := fst (TrigXnoise.noise_new (rand_const 0) 0) in
  TrigXnoise.loopLen s = 3%Z
  /\ ~ (8 <= TrigXnoise.loopLen s <= 12)%Z
  /\ match TrigXnoise.loopseg_run (rand_const 0) 4 s 1 with
     | Done (vs, _, _) => map fst vs = [0; 0; 0; 1]%Z
     | _ => False
     end.
Proof.
  cbv zeta. split; [reflexivity|]. split; [vm_compute; intros [H _]; apply H; reflexivity|].
  vm_compute. reflexivity.
Qed.

(** C5, amended.  With a [rand()] that returns no negative number, the
    generator alternates between a recording phase and a playback
    phase.  From the start of a recording phase with a length [L] between
    3 and 12 the next [L] draws record [L] values in the first cells of
    [loop_buffer]; the number of repetitions [R] is then drawn as
    [(rand() % 4) + 1], between 1 and 4; the next [L * R] draws replay the
    recorded values, in recording order, [R] times; after them the next
    length is drawn as [(rand() % 10) + 3], between 3 and 12, and a
    recording phase starts again.  The state that [TrigXnoise_new] builds
    is the start of a recording phase, and every length from 3 to 12 is
    drawn for some value of [rand()]. *)
Theorem TrigXnoise_loopseg_alternates (src : RandSrc) :
  (forall n, (0 <= src n)%Z) ->
  (forall (s : TrigXnoise.noise) (pos : nat),
     TrigXnoise.loopChoice s = 0%Z -> TrigXnoise.loopCountRec s = 0%Z ->
     (3 <= TrigXnoise.loopLen s <= 12)%Z ->
     length (TrigXnoise.loop_buffer s) = 15%nat ->
     let L := Z.to_nat (TrigXnoise.loopLen s) in
     exists (vs : list Q) (R : nat) (s' : TrigXnoise.noise) (pos' : nat),
       length vs = L /\ (1 <= R <= 4)%nat
       /\ TrigXnoise.loopseg_run src (L + R * L) s pos
          = Done (map (pair 0%Z) vs ++ map (pair 1%Z) (concat (repeat vs R)), s', pos')
       /\ take L (TrigXnoise.loop_buffer s') = vs
       /\ (exists p, Z.of_nat R = (Z.rem (src p) 4 + 1)%Z)
       /\ (exists p, TrigXnoise.loopLen s' = (Z.rem (src p) 10 + 3)%Z)
       /\ TrigXnoise.loopChoice s' = 0%Z /\ TrigXnoise.loopCountRec s' = 0%Z
       /\ (3 <= TrigXnoise.loopLen s' <= 12)%Z
       /\ length (TrigXnoise.loop_buffer s') = 15%nat)
  /\ (forall pos,
        let s := fst (TrigXnoise.noise_new src pos) in
        TrigXnoise.loopChoice s = 0%Z /\ TrigXnoise.loopCountRec s = 0%Z
        /\ TrigXnoise.loopLen s = (Z.rem (src pos) 10 + 3)%Z
        /\ (3 <= TrigXnoise.loopLen s <= 12)%Z
        /\ length (TrigXnoise.loop_buffer s) = 15%nat)
  /\ (forall k, (0 <= k < 10)%Z ->
        TrigXnoise.loopLen (fst (TrigXnoise.noise_new (rand_const k) 0)) = (k + 3)%Z).
Proof.
  intros Hsrc.
  assert (H4 : forall p, (1 <= Z.rem (src p) 4 + 1 <= 4)%Z).
  { intros p. pose proof (Z.rem_bound_pos (src p) 4 (Hsrc p)). lia. }
  assert (H10 : forall p, (3 <= Z.rem (src p) 10 + 3 <= 12)%Z).
  { intros p. pose proof (Z.rem_bound_pos (src p) 10 (Hsrc p)). lia. }
  split; [|split].
  - intros s pos Hc Hr Hl Hlen L.
    destruct (Z.to_nat (TrigXnoise.loopLen s)) as [|n] eqn:En; [lia|].
    destruct (TrigXnoise_loopseg_record_run src n s pos Hc)
      as (vs & s1 & p1 & Hrun & Hvs & Hlen1 & _ & Hup & Hc1 & Hl1 & Hp1 & Ht1 & q & Hs1);
      [lia | lia | lia |].
    rewrite Hr in Hup. cbn [Z.to_nat Nat.add] in Hup.
    assert (Htake : take (S n) (TrigXnoise.loop_buffer s1) = vs).
    { apply list_eq. intros i. destruct (Nat.lt_ge_cases i (S n)) as [Hi|Hi].
      - rewrite lookup_take_lt by exact Hi. apply Hup, Hi.
      - rewrite lookup_take_ge by exact Hi. symmetry. apply lookup_ge_None_2. lia. }
    pose proof (H4 q) as Hq.
    destruct (Z.to_nat (Z.rem (src q) 4 + 1)) as [|m] eqn:Em; [lia|].
    destruct (TrigXnoise_loopseg_play_repeats src m s1 p1 Hc1 Hp1)
      as (s2 & p2 & Hrun2 & Hb2 & Hc2 & Hr2 & q' & Hl2); [lia | lia | lia | lia |].
    rewrite Hl1, En, Htake in Hrun2.
    exists vs, (S m), s2, p2. subst L.
    split; [exact Hvs|]. split; [lia|].
    split; [exact (TrigXnoise_loopseg_run_app _ _ _ _ _ _ _ _ _ _ _ Hrun Hrun2)|].
    rewrite Hb2. split; [exact Htake|].
    split; [exists q; lia|]. split; [exists q'; exact Hl2|].
    split; [exact Hc2|]. split; [exact Hr2|].
    split; [rewrite Hl2; apply H10 | lia].
  - intros pos. cbn. repeat split; try apply H10.
  - intros k Hk. unfold TrigXnoise.noise_new, rand, rand_const.
    cbn [fst TrigXnoise.loopLen]. rewrite Z.rem_small; lia.
Qed.

(** The amended statement on the state of [TrigXnoise_new] when [rand()]
    returns 0 every time: three draws are recorded and replayed once. *)
Lemma TrigXnoise_loopseg_alternates_witness :
  let s := fst (TrigXnoise.noise_new (rand_const 0) 0) in
  exists (vs : list Q) (R : nat) (s' : TrigXnoise.noise) (pos' : nat),
    length vs = 3%nat /\ (1 <= R <= 4)%nat
    /\ TrigXnoise.loopseg_run (rand_const 0) (3 + R * 3) s 1
       = Done (map (pair 0%Z) vs ++ map (pair 1%Z) (concat (repeat vs R)), s', pos').
Proof.
  assert (Hsrc : forall n, (0 <= rand_const 0 n)%Z) by (intros n; cbv; discriminate).
  destruct (proj1 (TrigXnoise_loopseg_alternates (rand_const 0) Hsrc)
              (fst (TrigXnoise.noise_new (rand_const 0) 0)) 1%nat)
    as (vs & R & s' & pos' & H1 & H2 & H3 & _);
    [reflexivity | reflexivity | vm_compute; split; discriminate | reflexivity |].
  exists vs, R, s', pos'. exact (conj H1 (conj H2 H3)).
Defined.

(** C8 on a TrigChoice over [1, 2, 3]: a float leaves the object as it
    was and sets the error; a list of two numbers replaces the table. *)
Lemma TrigChoice_setChoice_atomic_witness :
  TrigChoice.TrigChoice_setChoice (PyFloat 3) trigchoice_3
  = Returned trigchoice_3 (Some (TypeError "The choice attribute must be a list."))
  /\ exists o',
       TrigChoice.TrigChoice_setChoice (PyList [PyInt 4; PyFloat 5]) trigchoice_3
       = Returned o' None
       /\ TrigChoice.choice (st o') = [4; 5]
       /\ TrigChoice.chSize (st o') = 2%Z.
Proof.
  split.
  - apply (proj1 (TrigChoice_setChoice_atomic (PyFloat 3) trigchoice_3)). reflexivity.
  - destruct (proj2 (proj2 (TrigChoice_setChoice_atomic (PyList [PyInt 4; PyFloat 5])
                              trigchoice_3))
                [PyInt 4; PyFloat 5] [4; 5] eq_refl eq_refl)
      as (o' & H1 & H2 & H3 & _).
    exists o'. exact (conj H1 (conj H2 H3)).
Defined.

(** C9 on the counter of the example: two calls that differ only in what
    the buffer held return the same object, four samples long. *)
Lemma compute_overwrites_block_witness :
  let gen := lift_pure (Counter.Counter_generates (fun _ => [1; 0; 1; 0])) in
  gen (set_data [9; 9; 9; 9] counter_pingpong) tt
  = gen (set_data [0; 0; 7; 0] counter_pingpong) tt
  /\ forall o1 w1, gen (set_data [9; 9; 9; 9] counter_pingpong) tt = Done (o1, w1) ->
                   length (data o1) = 4%nat.
Proof.
  destruct (compute_overwrites_block (fun _ => [1; 0; 1; 0]) (rand_const 0)
              (fun x => x) (fun x => x) (fun x _ => x) 0 [])
    as (_ & _ & _ & _ & _ & H & _).
  exact (H counter_pingpong tt [9; 9; 9; 9] [0; 0; 7; 0] I eq_refl eq_refl).
Defined.

(** * Further properties of the compute functions and of the setters *)

(** ** Blocks as runs of a state machine *)

(** A loop whose pass number [i] stores [out i] of the fields in cell [i]
    and moves the fields by [step i]: after it the fields have made the
    [n] steps, cell [i] holds the output of the fields that pass [i]
    started from, and the cells from [n] on are untouched. *)
Lemma for_loop_block {P : Type} (n : nat)
      (body : nat -> pyo_audio P -> pyo_audio P)
      (step : nat -> P -> P) (out : nat -> P -> Q) (o : pyo_audio P) :
  (forall i x, (i < n)%nat ->
     st (body i x) = step i (st x)
     /\ data (body i x) = <[i := out i (st x)]> (data x)) ->
  (n <= length (data o))%nat ->
  let o' := for_loop n body o in
  st o' = for_loop n step (st o)
  /\ length (data o') = length (data o)
  /\ (forall i, (i < n)%nat ->
        data o' !! i = Some (out i (for_loop i step (st o))))
  /\ (forall i, (n <= i)%nat -> data o' !! i = data o !! i).
Proof.
  induction n as [|n IH]; intros Hbody Hlen; cbv zeta.
  - rewrite !for_loop_0. split; [reflexivity|]. split; [reflexivity|].
    split; [intros i Hi; lia | reflexivity].
  - destruct IH as (Hst & Hl & Hlow & Hup); [intros i x Hi; apply Hbody; lia | lia |].
    rewrite !for_loop_S.
    destruct (Hbody n (for_loop n body o) ltac:(lia)) as [Hs Hd].
    rewrite Hs, Hd, Hst, length_insert. split; [reflexivity|]. split; [exact Hl|].
    split.
    + intros i Hi. destruct (Nat.eq_dec i n) as [->|Hne].
      * apply list_lookup_insert_eq. lia.
      * rewrite list_lookup_insert_ne by lia. apply Hlow. lia.
    + intros i Hi. rewrite list_lookup_insert_ne by lia. apply Hup. lia.
Qed.

(** [sample] on a cell that the list holds. *)
Lemma sample_lookup (l : list Q) (i : nat) (v : Q) :
  l !! i = Some v -> sample l i = v.
Proof.
  intros H. unfold sample. rewrite nth_lookup, H. reflexivity.
Qed.

(** ** TrigFunc *)

(** X1.  [TrigFunc_generate] calls the function once for every sample of
    the input block that equals 1, in the order of the samples, and for no
    other sample: the call log is extended by the indices of the trigger
    samples (latest first). *)
Theorem TrigFunc_generate_one_call_per_trigger
    (env : Stream -> list Q) (o : TrigFunc.self) (calls : list nat) :
  snd (TrigFunc.TrigFunc_generate env o calls)
  = rev (List.filter
           (fun i => Qeq_bool (sample (env (TrigFunc.input_stream (st o))) i) 1)
           (seq 0 (bufsize o)))
    ++ calls.
Proof.
  unfold TrigFunc.TrigFunc_generate, for_loop.
  set (p := fun i => Qeq_bool (sample (env (TrigFunc.input_stream (st o))) i) 1).
  generalize (seq 0 (bufsize o)) as l. intros l. revert calls.
  induction l as [|i l IH]; intros calls; [reflexivity|].
  cbn [fold_left List.filter]. fold (p i). destruct (p i).
  - rewrite IH. cbn [rev]. rewrite <- app_assoc. reflexivity.
  - apply IH.
Qed.

(** ** Thresh *)

(** An [int] of the 32-bit range is stored as it is. *)
Lemma int_of_long_small (z : Z) :
  (- 2 ^ 31 <= z < 2 ^ 31)%Z -> int_of_long z = z.
Proof.
  intros Hz. unfold int_of_long. rewrite Z.mod_small by lia. lia.
Qed.

(** X2.  [setDir] takes any [int] and stores it in the [int] field [dir]:
    a value of the 32-bit range as it is, a wider one reduced modulo
    2^32.  When the stored value is other than 0, 1 and 2, neither
    compute function has a case for it, and a block leaves the object,
    its buffer included, exactly as it was.  An argument that is not an
    [int] leaves the object unchanged. *)
Theorem Thresh_setDir_unknown_mode_is_silent
    (env : Stream -> list Q) (o : Thresh.self) (z : Z) :
  (int_of_long z < 0 \/ 2 < int_of_long z)%Z ->
  let o' := Thresh.Thresh_setDir (Some (PyInt z)) o in
  Thresh.dir (st o') = int_of_long z
  /\ ((- 2 ^ 31 <= z < 2 ^ 31)%Z -> Thresh.dir (st o') = z)
  /\ data o' = data o
  /\ Thresh.Thresh_generates_i env o' = o'
  /\ Thresh.Thresh_generates_a env o' = o'
  /\ (forall a, PyInt_Check a = false -> Thresh.Thresh_setDir (Some a) o = o)
  /\ Thresh.Thresh_setDir None o = o.
Proof.
  intros Hz. cbv zeta. split; [reflexivity|].
  split; [intros Hs; cbn; apply int_of_long_small; exact Hs|].
  split; [reflexivity|].
  split; [|split; [|split]].
  - unfold Thresh.Thresh_generates_i, Thresh.Thresh_setDir.
    cbn [PyInt_Check PyInt_AsLong]. revert Hz. generalize (int_of_long z) as d.
    intros d Hd. cbn.
    destruct d as [|[p|p|]|p]; try lia; try reflexivity;
      destruct p; try lia; reflexivity.
  - unfold Thresh.Thresh_generates_a, Thresh.Thresh_setDir.
    cbn [PyInt_Check PyInt_AsLong]. revert Hz. generalize (int_of_long z) as d.
    intros d Hd. cbn.
    destruct d as [|[p|p|]|p]; try lia; try reflexivity;
      destruct p; try lia; reflexivity.
  - intros a Ha. unfold Thresh.Thresh_setDir. rewrite Ha. reflexivity.
  - reflexivity.
Qed.

(** The mode 3 is silent, and so is the [long] 2^32 + 3, which is stored
    as 3. *)
Lemma Thresh_setDir_unknown_mode_is_silent_witness :
  let o' := Thresh.Thresh_setDir (Some (PyInt (2 ^ 32 + 3))) (thresh_both 3) in
  Thresh.dir (st o') = 3%Z
  /\ Thresh.Thresh_generates_i (thresh_env [1; 1; 1] [0; 0; 0]) o' = o'.
Proof.
  destruct (Thresh_setDir_unknown_mode_is_silent (thresh_env [1; 1; 1] [0; 0; 0])
              (thresh_both 3) (2 ^ 32 + 3) ltac:(right; reflexivity))
    as (H1 & _ & _ & H2 & _).
  exact (conj H1 H2).
Defined.

(** ** TrigXnoise and TrigXnoiseMidi: the setters *)

(** X3.  [setType] stores any [int] in the [int] field [type], a value
    of the 32-bit range as it is and a wider one reduced modulo 2^32.  A
    stored value from 0 to 12 selects the distribution function from the
    value alone; with any other stored value the function selected before
    stays in force, so that [type] and the function disagree.  In both
    cases the held value, the distribution state (walk, loop, Poisson
    table) and the buffer are kept; an argument that is not an [int]
    changes nothing. *)
Theorem TrigXnoise_setType_selects (o : TrigXnoise.self) (z : Z) :
  let o' := TrigXnoise.TrigXnoise_setType (Some (PyInt z)) o in
  let t := int_of_long z in
  TrigXnoise.type (st o') = t
  /\ ((- 2 ^ 31 <= z < 2 ^ 31)%Z -> t = z)
  /\ ((0 <= t <= 12)%Z ->
      TrigXnoise.type_func_ptr (st o') = TrigXnoise.random_type t None
      /\ TrigXnoise.type_func_ptr (st o') <> None)
  /\ ((t < 0 \/ 12 < t)%Z ->
      TrigXnoise.type_func_ptr (st o') = TrigXnoise.type_func_ptr (st o))
  /\ TrigXnoise.value (st o') = TrigXnoise.value (st o)
  /\ TrigXnoise.dist (st o') = TrigXnoise.dist (st o)
  /\ data o' = data o
  /\ (forall a, PyInt_Check a = false ->
        TrigXnoise.TrigXnoise_setType (Some a) o = o).
Proof.
  cbv zeta. unfold TrigXnoise.TrigXnoise_setType at 1 2 3 4 5 6.
  cbn [PyInt_Check PyInt_AsLong].
  split; [reflexivity|]. split; [apply int_of_long_small|].
  generalize (int_of_long z) as t. intros t. split; [|split].
  - intros Hz. cbn.
    assert (Hc : In t [0; 1; 2; 3; 4; 5; 6; 7; 8; 9; 10; 11; 12]%Z).
    { cbn. lia. }
    cbn in Hc.
    repeat (destruct Hc as [<-|Hc]; [split; [reflexivity|discriminate]|]).
    contradiction.
  - intros Hz. cbn.
    destruct t as [|p|p]; try lia; [|reflexivity].
    do 4 (destruct p as [p|p|]; try lia; try reflexivity).
  - split; [reflexivity|]. split; [reflexivity|]. split; [reflexivity|].
    intros a Ha. unfold TrigXnoise.TrigXnoise_setType. rewrite Ha. reflexivity.
Qed.

(** X4.  [setScale] keeps the scale among 0, 1 and 2 whatever it is
    given: an [int] whose conversion to the [int] variable [tmp] (a value
    of the 32-bit range as it is, a wider one reduced modulo 2^32) lies
    in that range replaces it, any other [int] and any other object leave
    the object unchanged.  The last branch of [TrigXnoiseMidi_convert] is
    therefore never taken on an object whose scale has only been set by
    this method. *)
Theorem TrigXnoiseMidi_setScale_range (arg : option PyObject) (o : TrigXnoiseMidi.self) :
  (0 <= TrigXnoiseMidi.scale (st o) <= 2)%Z ->
  let o' := TrigXnoiseMidi.TrigXnoiseMidi_setScale arg o in
  (0 <= TrigXnoiseMidi.scale (st o') <= 2)%Z
  /\ (forall z, arg = Some (PyInt z) -> (0 <= int_of_long z <= 2)%Z ->
        TrigXnoiseMidi.scale (st o') = int_of_long z)
  /\ (forall z, arg = Some (PyInt z) -> (0 <= z <= 2)%Z ->
        TrigXnoiseMidi.scale (st o') = z)
  /\ (forall z, arg = Some (PyInt z) -> (int_of_long z < 0 \/ 2 < int_of_long z)%Z ->
        o' = o)
  /\ (forall a, arg = Some a -> PyInt_Check a = false -> o' = o)
  /\ data o' = data o
  /\ TrigXnoiseMidi.range_min (st o') = TrigXnoiseMidi.range_min (st o)
  /\ TrigXnoiseMidi.range_max (st o') = TrigXnoiseMidi.range_max (st o).
Proof.
  intros Hs. cbv zeta. unfold TrigXnoiseMidi.TrigXnoiseMidi_setScale.
  destruct arg as [a|].
  - destruct a as [q|z|l|s|]; cbn [PyInt_Check PyInt_AsLong];
      try (repeat split; try assumption; try lia; intros; congruence).
    assert (Hsmall : (0 <= z <= 2)%Z -> int_of_long z = z).
    { intros Hz. apply int_of_long_small. lia. }
    remember (int_of_long z) as t eqn:Et. cbv zeta.
    destruct (Z.leb_spec 0 t); destruct (Z.leb_spec t 2); cbn [andb].
    + split; [cbn; lia|]. split; [intros z' [= <-] _; rewrite <- Et; reflexivity|].
      split; [intros z' [= <-] Hz; cbn; apply Hsmall; exact Hz|].
      split; [intros z' [= <-] Hz; lia|].
      split; [intros a [= <-] Ha; discriminate|].
      repeat split.
    + split; [exact Hs|]. split; [intros z' [= <-] Hz; lia|].
      split; [intros z' [= <-] Hz; specialize (Hsmall Hz); lia|].
      split; [reflexivity|]. split; [reflexivity|]. repeat split.
    + split; [exact Hs|]. split; [intros z' [= <-] Hz; lia|].
      split; [intros z' [= <-] Hz; specialize (Hsmall Hz); lia|].
      split; [reflexivity|]. split; [reflexivity|]. repeat split.
    + split; [exact Hs|]. split; [intros z' [= <-] Hz; lia|].
      split; [intros z' [= <-] Hz; specialize (Hsmall Hz); lia|].
      split; [reflexivity|]. split; [reflexivity|]. repeat split.
  - repeat split; try assumption; try lia; intros; congruence.
Qed.

(** The scale 2 is taken, 3 is refused, and the [long] 2^32 + 1, which
    the conversion makes 1, is taken as the scale 1. *)
Lemma TrigXnoiseMidi_setScale_range_witness :
  TrigXnoiseMidi.scale (st (TrigXnoiseMidi.TrigXnoiseMidi_setScale (Some (PyInt 2))
                              (xnoisemidi_new 4))) = 2%Z
  /\ TrigXnoiseMidi.TrigXnoiseMidi_setScale (Some (PyInt 3)) (xnoisemidi_new 4)
     = xnoisemidi_new 4
  /\ TrigXnoiseMidi.scale (st (TrigXnoiseMidi.TrigXnoiseMidi_setScale
                                 (Some (PyInt (2 ^ 32 + 1))) (xnoisemidi_new 4))) = 1%Z.
Proof.
  assert (H0 : (0 <= TrigXnoiseMidi.scale (st (xnoisemidi_new 4)) <= 2)%Z)
    by (cbn; lia).
  split; [|split].
  - apply (proj1 (proj2 (proj2 (TrigXnoiseMidi_setScale_range (Some (PyInt 2))
                           (xnoisemidi_new 4) H0))) 2%Z eq_refl). lia.
  - apply (proj1 (proj2 (proj2 (proj2 (TrigXnoiseMidi_setScale_range (Some (PyInt 3))
                                  (xnoisemidi_new 4) H0)))) 3%Z eq_refl).
    right. reflexivity.
  - apply (proj1 (proj2 (TrigXnoiseMidi_setScale_range (Some (PyInt (2 ^ 32 + 1)))
                           (xnoisemidi_new 4) H0)) (2 ^ 32 + 1)%Z eq_refl).
    split; discriminate.
Defined.

(** A truncation lies between two integers that enclose its argument. *)
Lemma Qtrunc_between (a b : Z) (x : Q) :
  (0 <= a)%Z -> inject_Z a <= x -> x <= inject_Z b -> (a <= Qtrunc x <= b)%Z.
Proof.
  intros Ha Hax Hxb. split; [apply Qtrunc_ge; assumption|].
  rewrite Qtrunc_floor.
  - rewrite <- (Qfloor_Z b). apply Qfloor_resp_le. exact Hxb.
  - apply Qle_trans with (inject_Z a); [|exact Hax].
    change 0 with (inject_Z 0). rewrite <- Zle_Qle. exact Ha.
Qed.

(** X5.  In the Midi scale [TrigXnoiseMidi_convert] returns a whole
    number between 0 and 127, whatever the value and the range are; when
    the value lies in [0, 1] and the range inside [0, 127], the number lies
    in the range. *)
Theorem TrigXnoiseMidi_convert_midi_range (powf : Q -> Q -> Q)
    (s : TrigXnoiseMidi.fields) :
  TrigXnoiseMidi.scale s = 0%Z ->
  exists m : Z,
    TrigXnoiseMidi.TrigXnoiseMidi_convert powf s = inject_Z m
    /\ (0 <= m <= 127)%Z
    /\ (0 <= TrigXnoiseMidi.value s -> TrigXnoiseMidi.value s <= 1 ->
        (0 <= TrigXnoiseMidi.range_min s <= TrigXnoiseMidi.range_max s)%Z ->
        (TrigXnoiseMidi.range_max s <= 127)%Z ->
        (TrigXnoiseMidi.range_min s <= m <= TrigXnoiseMidi.range_max s)%Z).
Proof.
  intros Hs. unfold TrigXnoiseMidi.TrigXnoiseMidi_convert. rewrite Hs.
  cbn [Z.eqb]. cbv zeta.
  set (x := TrigXnoiseMidi.value s
            * inject_Z (TrigXnoiseMidi.range_max s - TrigXnoiseMidi.range_min s)
            + inject_Z (TrigXnoiseMidi.range_min s)).
  assert (Hr : 0 <= TrigXnoiseMidi.value s -> TrigXnoiseMidi.value s <= 1 ->
               (0 <= TrigXnoiseMidi.range_min s <= TrigXnoiseMidi.range_max s)%Z ->
               (TrigXnoiseMidi.range_min s <= Qtrunc x <= TrigXnoiseMidi.range_max s)%Z).
  { intros Hv0 Hv1 [Hmi Hma]. apply Qtrunc_between; [exact Hmi| |].
    - unfold x. rewrite <- (Qplus_0_l (inject_Z (TrigXnoiseMidi.range_min s))) at 1.
      apply Qplus_le_l. apply Qmult_le_0_compat; [exact Hv0|].
      change 0 with (inject_Z 0). rewrite <- Zle_Qle. lia.
    - unfold x. unfold Z.sub. rewrite inject_Z_plus, inject_Z_opp.
      assert (Hd : 0 <= inject_Z (TrigXnoiseMidi.range_max s)
                        + - inject_Z (TrigXnoiseMidi.range_min s)).
      { rewrite <- inject_Z_opp, <- inject_Z_plus.
        change 0 with (inject_Z 0). rewrite <- Zle_Qle. lia. }
      nra. }
  destruct (Z.ltb_spec (Qtrunc x) 0) as [Hlt|Hge].
  - exists 0%Z. split; [reflexivity|]. split; [lia|].
    intros Hv0 Hv1 Hm _. specialize (Hr Hv0 Hv1 Hm). lia.
  - destruct (Qtrunc x >? 127)%Z eqn:Hgt.
    + exists 127%Z. split; [reflexivity|]. split; [lia|].
      intros Hv0 Hv1 Hm H127. specialize (Hr Hv0 Hv1 Hm). lia.
    + exists (Qtrunc x). split; [reflexivity|]. split; [lia|].
      intros Hv0 Hv1 Hm _. apply Hr; assumption.
Qed.

Lemma TrigXnoiseMidi_convert_midi_range_witness :
  exists m : Z,
    TrigXnoiseMidi.TrigXnoiseMidi_convert powf_int
      (TrigXnoiseMidi.set_value (1#2) (TrigXnoiseMidi.dist (st (xnoisemidi_new 4)))
         (st (xnoisemidi_new 4))) = inject_Z m
    /\ (0 <= m <= 127)%Z.
Proof.
  destruct (TrigXnoiseMidi_convert_midi_range powf_int
              (TrigXnoiseMidi.set_value (1#2)
                 (TrigXnoiseMidi.dist (st (xnoisemidi_new 4)))
                 (st (xnoisemidi_new 4))) eq_refl) as (m & H1 & H2 & _).
  exists m. exact (conj H1 H2).
Defined.

(** ** HilbertMain and Hilbert *)

(** The coefficient of a pole: strictly between -1 and 1. *)
Lemma allpass_coef_bounds (a : Q) :
  0 < a -> -(1) < (- (1 - a)) / (1 + a) /\ (- (1 - a)) / (1 + a) < 1.
Proof.
  intros Ha. assert (H1 : 0 < 1 + a) by lra. split.
  - apply Qlt_shift_div_l; [exact H1|]. lra.
  - apply Qlt_shift_div_r; [exact H1|]. lra.
Qed.

Lemma pole_alpha_pos (twopi rate p : Q) :
  0 < twopi -> 0 < rate -> 0 < p ->
  0 < 1 / (1 / (twopi * (p * 15))) / (2 * rate).
Proof.
  intros Ht Hr Hp.
  assert (Hy : 0 < twopi * (p * 15)).
  { apply Qmult_lt_0_compat; [exact Ht|]. lra. }
  assert (H1 : 0 < 1 / (twopi * (p * 15))).
  { unfold Qdiv. rewrite Qmult_1_l. apply Qinv_lt_0_compat. exact Hy. }
  assert (H2 : 0 < 1 / (1 / (twopi * (p * 15)))).
  { unfold Qdiv at 1. rewrite Qmult_1_l. apply Qinv_lt_0_compat. exact H1. }
  apply Qlt_shift_div_l; [lra|]. lra.
Qed.

(** X6.  [HilbertMain_compute_variables] writes the twelve coefficients
    and nothing else, and for every positive sampling rate each
    coefficient lies strictly between -1 and 1: every allpass section is a
    stable filter.  [TWOPI] is only assumed to be positive. *)
Theorem HilbertMain_compute_variables_stable (twopi : Q) (o : HilbertMain.self) :
  0 < twopi -> 0 < sr o -> length (HilbertMain.coefs (st o)) = 12%nat ->
  let o' := HilbertMain.HilbertMain_compute_variables twopi o in
  length (HilbertMain.coefs (st o')) = 12%nat
  /\ (forall j, (j < 12)%nat ->
        -(1) < sample (HilbertMain.coefs (st o')) j
        /\ sample (HilbertMain.coefs (st o')) j < 1)
  /\ HilbertMain.x1 (st o') = HilbertMain.x1 (st o)
  /\ HilbertMain.y1 (st o') = HilbertMain.y1 (st o)
  /\ HilbertMain.buffer_streams (st o') = HilbertMain.buffer_streams (st o)
  /\ data o' = data o.
Proof.
  intros Ht Hr Hlen. cbv zeta.
  unfold HilbertMain.HilbertMain_compute_variables.
  destruct (HilbertMain.coefs (st o)) as [|c0 [|c1 [|c2 [|c3 [|c4 [|c5 [|c6 [|c7
    [|c8 [|c9 [|c10 [|c11 [|c12 l]]]]]]]]]]]]]; try discriminate.
  cbn [st set_st HilbertMain.coefs HilbertMain.x1 HilbertMain.y1
       HilbertMain.buffer_streams data].
  split; [reflexivity|]. split; [|repeat split].
  intros j Hj.
  do 12 (destruct j as [|j];
         [cbn; apply allpass_coef_bounds, pole_alpha_pos;
            [exact Ht | exact Hr | reflexivity]|]).
  lia.
Qed.

Lemma HilbertMain_compute_variables_stable_witness :
  -(1) < sample (HilbertMain.coefs
                   (st (HilbertMain.HilbertMain_compute_variables (628318 # 100000)
                          (hilbert_rest 4)))) 0
  /\ sample (HilbertMain.coefs
               (st (HilbertMain.HilbertMain_compute_variables (628318 # 100000)
                      (hilbert_rest 4)))) 0 < 1.
Proof.
  apply (proj1 (proj2 (HilbertMain_compute_variables_stable (628318 # 100000)
                         (hilbert_rest 4) eq_refl eq_refl eq_refl)) 0%nat).
  lia.
Defined.

(** The block of [HilbertMain_filters]: cell [i] of the two-channel
    buffer holds the output of the first chain for sample [i], cell
    [i + bufsize] the output of the second one. *)
Lemma HilbertMain_filters_buffer (env : Stream -> list Q) (m : HilbertMain.self) :
  length (HilbertMain.buffer_streams (st m)) = (2 * bufsize m)%nat ->
  let c := HilbertMain.coefs (st m) in
  let inp := env (HilbertMain.input_stream (st m)) in
  let L := fun k =>
    for_loop k (fun i l => HilbertMain.filter_sample c (sample inp i) l)
      (HilbertMain.Locals (HilbertMain.x1 (st m)) (HilbertMain.y1 (st m)) 0 0 0 0) in
  let buf := HilbertMain.buffer_streams (st (HilbertMain.HilbertMain_filters env m)) in
  length buf = (2 * bufsize m)%nat
  /\ forall i, (i < bufsize m)%nat ->
       buf !! i = Some (HilbertMain.yn1 (L (S i)))
       /\ buf !! (i + bufsize m)%nat = Some (HilbertMain.yn2 (L (S i))).
Proof.
  intros Hlen c inp L buf. subst buf.
  unfold HilbertMain.HilbertMain_filters.
  cbn [st set_st HilbertMain.buffer_streams].
  fold c inp.
  set (n := bufsize m) in *.
  set (body := fun (i : nat) '(l, buf) =>
         let l0 := HilbertMain.filter_sample c (sample inp i) l in
         (l0, <[(i + n)%nat := HilbertMain.yn2 l0]> (<[i := HilbertMain.yn1 l0]> buf))).
  set (s0 := (HilbertMain.Locals (HilbertMain.x1 (st m)) (HilbertMain.y1 (st m)) 0 0 0 0,
              HilbertMain.buffer_streams (st m))).
  assert (Inv : forall k, (k <= n)%nat ->
            fst (for_loop k body s0) = L k
            /\ length (snd (for_loop k body s0)) = (2 * n)%nat
            /\ forall i, (i < k)%nat ->
                 snd (for_loop k body s0) !! i = Some (HilbertMain.yn1 (L (S i)))
                 /\ snd (for_loop k body s0) !! (i + n)%nat
                    = Some (HilbertMain.yn2 (L (S i)))).
  { induction k as [|k IH]; intros Hk.
    - rewrite for_loop_0. split; [reflexivity|]. split; [exact Hlen|].
      intros i Hi. lia.
    - destruct IH as (Hf & Hl & Hc); [lia|].
      rewrite for_loop_S. destruct (for_loop k body s0) as [l b] eqn:E.
      cbn [fst snd] in Hf, Hl, Hc. subst l.
      unfold body. cbv beta iota zeta. cbn [fst snd].
      assert (HL : HilbertMain.filter_sample c (sample inp k) (L k) = L (S k)).
      { unfold L. rewrite for_loop_S. reflexivity. }
      rewrite !HL. rewrite !length_insert.
      split; [reflexivity|]. split; [exact Hl|].
      intros i Hi. destruct (Nat.eq_dec i k) as [->|Hne].
      + split.
        * rewrite list_lookup_insert_ne by lia.
          apply list_lookup_insert_eq. lia.
        * apply list_lookup_insert_eq. rewrite length_insert. lia.
      + rewrite !list_lookup_insert_ne by lia. apply Hc. lia. }
  destruct (Inv n (Nat.le_refl n)) as (_ & Hl & Hc).
  split; [exact Hl|exact Hc].
Qed.

(** X7.  The two [Hilbert] taps of a [HilbertMain]: after the splitter
    has computed its block, what the tap of channel 0 hands to its
    post-processing function is, sample for sample, the output of the
    first allpass chain, and what the tap of channel 1 hands to it is the
    output of the second chain; the copy fills the whole buffer and
    changes no field.  The block of the tap is what the post-processing
    function makes of this object. *)
Theorem Hilbert_taps_read_their_chain
    (env : Stream -> list Q) (muladd : Hilbert.self -> Hilbert.self)
    (m : HilbertMain.self) (o : Hilbert.self) :
  bufsize o = bufsize m -> length (data o) = bufsize o ->
  length (HilbertMain.buffer_streams (st m)) = (2 * bufsize m)%nat ->
  let c := HilbertMain.coefs (st m) in
  let inp := env (HilbertMain.input_stream (st m)) in
  let L := fun k =>
    for_loop k (fun i l => HilbertMain.filter_sample c (sample inp i) l)
      (HilbertMain.Locals (HilbertMain.x1 (st m)) (HilbertMain.y1 (st m)) 0 0 0 0) in
  let m' := HilbertMain.HilbertMain_filters env m in
  exists o1 : Hilbert.self,
    Hilbert.Hilbert_compute_next_data_frame_muladd muladd
      (HilbertMain.buffer_streams (st m')) o = muladd o1
    /\ bufsize o1 = bufsize o /\ sr o1 = sr o /\ st o1 = st o
    /\ length (data o1) = bufsize o
    /\ (Hilbert.chnl (st o) = 0%Z ->
        forall i, (i < bufsize o)%nat ->
          data o1 !! i = Some (HilbertMain.yn1 (L (S i))))
    /\ (Hilbert.chnl (st o) = 1%Z ->
        forall i, (i < bufsize o)%nat ->
          data o1 !! i = Some (HilbertMain.yn2 (L (S i)))).
Proof.
  intros Hn Hd Hlen c inp L m'.
  destruct (HilbertMain_filters_buffer env m Hlen) as [Hl Hc].
  fold c inp L m' in Hl, Hc.
  set (tmp := HilbertMain.buffer_streams (st m')) in *.
  exists (Hilbert.Hilbert_compute_next_data_frame tmp o).
  split; [reflexivity|].
  unfold Hilbert.Hilbert_compute_next_data_frame.
  set (offset := (Hilbert.chnl (st o) * Z.of_nat (bufsize o))%Z).
  destruct (for_loop_block (bufsize o)
              (fun i x => store i (TrigXnoise.cell tmp (Z.of_nat i + offset)) x)
              (fun _ s => s)
              (fun i _ => TrigXnoise.cell tmp (Z.of_nat i + offset)) o)
    as (Hst & Hlen' & Hlow & _).
  { intros i x Hi. split; reflexivity. }
  { lia. }
  assert (Hfix : bufsize (for_loop (bufsize o)
                   (fun i x => store i (TrigXnoise.cell tmp (Z.of_nat i + offset)) x) o)
                 = bufsize o
                 /\ sr (for_loop (bufsize o)
                   (fun i x => store i (TrigXnoise.cell tmp (Z.of_nat i + offset)) x) o)
                 = sr o).
  { apply (for_loop_ind (fun _ x => bufsize x = bufsize o /\ sr x = sr o)).
    - split; reflexivity.
    - intros i x _ Hx. exact Hx. }
  split; [exact (proj1 Hfix)|]. split; [exact (proj2 Hfix)|].
  split.
  { rewrite Hst. clear. induction (bufsize o) as [|k IH]; [reflexivity|].
    rewrite for_loop_S. exact IH. }
  split; [lia|]. split.
  - intros H0 i Hi. rewrite (Hlow i Hi). f_equal.
    unfold offset. rewrite H0, Z.mul_0_l, Z.add_0_r.
    unfold TrigXnoise.cell. destruct (Z.ltb_spec (Z.of_nat i) 0); [lia|].
    rewrite Nat2Z.id. apply sample_lookup. apply Hc. lia.
  - intros H1 i Hi. rewrite (Hlow i Hi). f_equal.
    unfold offset. rewrite H1, Z.mul_1_l.
    unfold TrigXnoise.cell.
    destruct (Z.ltb_spec (Z.of_nat i + Z.of_nat (bufsize o)) 0); [lia|].
    replace (Z.to_nat (Z.of_nat i + Z.of_nat (bufsize o)))
      with (i + bufsize m)%nat by lia.
    apply sample_lookup. apply Hc. lia.
Qed.

(** A tap of channel 1 on a splitter at rest whose coefficients are all
    1/2, fed with an impulse: with a post-processing function that leaves
    the buffer as it is, the first sample of the block is 1/64, the gain
    of six sections on the first sample. *)
Lemma Hilbert_taps_read_their_chain_witness :
  let m' := HilbertMain.HilbertMain_filters (fun _ => [1; 0]) (hilbert_rest 2) in
  let o := PyoAudio 2 44100 [0; 0] (Hilbert.Fields [0; 0]%Z 1) in
  option_map Qred
    (data (Hilbert.Hilbert_compute_next_data_frame_muladd (fun x => x)
             (HilbertMain.buffer_streams (st m')) o) !! 0%nat) = Some (1 # 64).
Proof.
  destruct (Hilbert_taps_read_their_chain (fun _ => [1; 0]) (fun x => x)
              (hilbert_rest 2)
              (PyoAudio 2 44100 [0; 0] (Hilbert.Fields [0; 0]%Z 1))
              eq_refl eq_refl eq_refl)
    as (o1 & Heq & _ & _ & _ & _ & _ & H1).
  cbv zeta. rewrite Heq. rewrite (H1 eq_refl 0%nat); [|cbn; lia].
  vm_compute. reflexivity.
Defined.

(** ** Fader and Adsr *)

(** A quotient of a part by the whole lies in [0, 1]. *)
Lemma Qdiv_unit (a b : Q) : 0 < b -> 0 <= a -> a <= b -> 0 <= a / b /\ a / b <= 1.
Proof.
  intros Hb Ha Hab. split.
  - apply Qle_shift_div_l; [exact Hb|]. lra.
  - apply Qle_shift_div_r; [exact Hb|]. lra.
Qed.

(** X8.  With a positive fade-in and fade-out time and a clock that is
    not negative and does not run backward, no sample that
    [Fader_generate_auto] writes is negative.  Once the clock has passed
    both the fade-in time and the duration, every sample of the block is
    0 and the clock is still past both at the end of the block, so that
    the blocks that follow are silent too; the object is not stopped:
    the three flags of its stream, like its other fields but the clock,
    are as they were. *)
Theorem Fader_generate_auto_silent_after_duration (o : Fader.self) :
  0 < Fader.attack (st o) -> 0 < Fader.release (st o) ->
  0 <= Fader.currentTime (st o) -> 0 <= Fader.sampleToSec (st o) ->
  length (data o) = bufsize o ->
  let o' := Fader.Fader_generate_auto o in
  length (data o') = bufsize o
  /\ (forall i, (i < bufsize o)%nat -> 0 <= sample (data o') i)
  /\ (Fader.attack (st o) < Fader.currentTime (st o) ->
      Fader.duration (st o) < Fader.currentTime (st o) ->
      (forall i, (i < bufsize o)%nat -> data o' !! i = Some 0)
      /\ Fader.attack (st o') < Fader.currentTime (st o')
      /\ Fader.duration (st o') < Fader.currentTime (st o'))
  /\ Fader.attack (st o') = Fader.attack (st o)
  /\ Fader.release (st o') = Fader.release (st o)
  /\ Fader.duration (st o') = Fader.duration (st o)
  /\ Fader.fademode (st o') = Fader.fademode (st o)
  /\ Fader.topValue (st o') = Fader.topValue (st o)
  /\ Fader.stream_active (st o') = Fader.stream_active (st o)
  /\ Fader.stream_chnl (st o') = Fader.stream_chnl (st o)
  /\ Fader.stream_todac (st o') = Fader.stream_todac (st o).
Proof.
  intros Ha Hr Hc Hs Hlen. cbv zeta. unfold Fader.Fader_generate_auto.
  set (out := fun (_ : nat) (s : Fader.fields) =>
         if Qle_bool (Fader.currentTime s) (Fader.attack s)
         then Fader.currentTime s / Fader.attack s
         else if Qltb (Fader.duration s) (Fader.currentTime s) then 0
         else if Qle_bool (Fader.duration s - Fader.release s) (Fader.currentTime s)
         then (Fader.duration s - Fader.currentTime s) / Fader.release s
         else 1).
  set (step := fun (_ : nat) (s : Fader.fields) =>
         Fader.Fields (Fader.modebuffer s) (Fader.fademode s) (Fader.topValue s)
           (Fader.attack s) (Fader.release s) (Fader.duration s)
           (Fader.currentTime s + Fader.sampleToSec s) (Fader.sampleToSec s)
           (Fader.bufsizeToSec s) (Fader.stream_active s) (Fader.stream_chnl s)
           (Fader.stream_todac s)).
  match goal with
  | |- context [for_loop (bufsize o) ?b o] => set (body := b)
  end.
  destruct (for_loop_block (bufsize o) body step out o) as (Hst & Hl & Hlow & _).
  { intros i x Hi. split; reflexivity. }
  { lia. }
  assert (Inv : forall k,
            let s := for_loop k step (st o) in
            Fader.attack s = Fader.attack (st o)
            /\ Fader.release s = Fader.release (st o)
            /\ Fader.duration s = Fader.duration (st o)
            /\ Fader.sampleToSec s = Fader.sampleToSec (st o)
            /\ Fader.currentTime (st o) <= Fader.currentTime s
            /\ Fader.fademode s = Fader.fademode (st o)
            /\ Fader.topValue s = Fader.topValue (st o)
            /\ Fader.stream_active s = Fader.stream_active (st o)
            /\ Fader.stream_chnl s = Fader.stream_chnl (st o)
            /\ Fader.stream_todac s = Fader.stream_todac (st o)).
  { induction k as [|k IH]; cbv zeta.
    - rewrite for_loop_0. do 4 (split; [reflexivity|]).
      split; [apply Qle_refl|]. repeat split.
    - rewrite for_loop_S.
      destruct IH as (I1 & I2 & I3 & I4 & I5 & I6 & I7 & I8 & I9 & I10).
      repeat match goal with |- _ /\ _ => split end;
        unfold step at 1;
        cbn [Fader.attack Fader.release Fader.duration
             Fader.sampleToSec Fader.currentTime Fader.fademode
             Fader.topValue Fader.stream_active Fader.stream_chnl
             Fader.stream_todac]; try assumption.
      rewrite I4. lra. }
  split; [lia|]. split; [|split].
  - intros i Hi. rewrite (sample_lookup _ _ _ (Hlow i Hi)).
    destruct (Inv i) as (I1 & I2 & I3 & I4 & I5 & _).
    set (s := for_loop i step (st o)) in *.
    assert (Hct : 0 <= Fader.currentTime s) by lra.
    unfold out. rewrite I1, I2, I3.
    destruct (Qle_bool (Fader.currentTime s) (Fader.attack (st o))) eqn:E1.
    { apply Qle_bool_iff in E1. apply Qdiv_unit; assumption. }
    destruct (Qltb (Fader.duration (st o)) (Fader.currentTime s)) eqn:E2; [lra|].
    apply Qltb_ge in E2.
    destruct (Qle_bool (Fader.duration (st o) - Fader.release (st o))
                       (Fader.currentTime s)) eqn:E3; [|lra].
    apply Qle_bool_iff in E3. apply Qdiv_unit; [exact Hr | lra | lra].
  - intros Hpa Hpd. split; [|split].
    + intros i Hi. rewrite (Hlow i Hi). f_equal.
      destruct (Inv i) as (I1 & I2 & I3 & I4 & I5 & _).
      set (s := for_loop i step (st o)) in *.
      unfold out. rewrite I1, I3.
      destruct (Qle_bool (Fader.currentTime s) (Fader.attack (st o))) eqn:E1.
      { apply Qle_bool_iff in E1. lra. }
      destruct (Qltb (Fader.duration (st o)) (Fader.currentTime s)) eqn:E2;
        [reflexivity|].
      apply Qltb_ge in E2. lra.
    + rewrite Hst. destruct (Inv (bufsize o)) as (I1 & _ & _ & _ & I5 & _).
      rewrite I1. lra.
    + rewrite Hst. destruct (Inv (bufsize o)) as (_ & _ & I3 & _ & I5 & _).
      rewrite I3. lra.
  - rewrite Hst.
    destruct (Inv (bufsize o)) as (I1 & I2 & I3 & I4 & I5 & I6 & I7 & I8 & I9 & I10).
    repeat (split; [assumption|]). assumption.
Qed.

(** The Fader of the fixture on its first block, and the same Fader once
    its clock stands at 1.2 second, past its duration: the block is
    silent and the stream still active. *)
Lemma Fader_generate_auto_silent_after_duration_witness :
  0 <= sample (data (Fader.Fader_generate_auto fader_auto)) 3
  /\ data (Fader.Fader_generate_auto fader_done) !! 2%nat = Some 0
  /\ Fader.stream_active (st (Fader.Fader_generate_auto fader_done)) = 1%Z.
Proof.
  split; [|split].
  - refine (proj1 (proj2 (Fader_generate_auto_silent_after_duration
                            fader_auto _ _ _ _ eq_refl)) 3%nat _);
      [vm_compute; congruence | vm_compute; congruence | vm_compute; congruence
       | vm_compute; congruence | cbn; lia].
  - refine (proj1 (proj1 (proj2 (proj2 (Fader_generate_auto_silent_after_duration
                            fader_done _ _ _ _ eq_refl))) _ _) 2%nat _);
      [vm_compute; congruence | vm_compute; congruence | vm_compute; congruence
       | vm_compute; congruence | vm_compute; reflexivity | vm_compute; reflexivity
       | cbn; lia].
  - destruct (Fader_generate_auto_silent_after_duration fader_done)
      as (_ & _ & _ & _ & _ & _ & _ & _ & H & _);
      [vm_compute; congruence | vm_compute; congruence | vm_compute; congruence
       | vm_compute; congruence | reflexivity |].
    exact (eq_trans H eq_refl).
Defined.

(** X9.  Once the clock of an Adsr whose attack and decay end within its
    duration has passed the duration, every sample that
    [Adsr_generate_auto] writes is 0 and the clock is still past the
    duration at the end of the block, so that the blocks that follow are
    silent too; the object is not stopped: the three flags of its stream,
    like its other fields but the clock, are as they were. *)
Theorem Adsr_generate_auto_silent_after_duration (o : Adsr.self) :
  0 <= Adsr.decay (st o) ->
  Adsr.attack (st o) + Adsr.decay (st o) <= Adsr.duration (st o) ->
  Adsr.duration (st o) < Adsr.currentTime (st o) ->
  0 <= Adsr.sampleToSec (st o) ->
  length (data o) = bufsize o ->
  let o' := Adsr.Adsr_generate_auto o in
  length (data o') = bufsize o
  /\ (forall i, (i < bufsize o)%nat -> data o' !! i = Some 0)
  /\ Adsr.duration (st o') < Adsr.currentTime (st o')
  /\ Adsr.attack (st o') = Adsr.attack (st o)
  /\ Adsr.decay (st o') = Adsr.decay (st o)
  /\ Adsr.sustain (st o') = Adsr.sustain (st o)
  /\ Adsr.release (st o') = Adsr.release (st o)
  /\ Adsr.duration (st o') = Adsr.duration (st o)
  /\ Adsr.fademode (st o') = Adsr.fademode (st o)
  /\ Adsr.topValue (st o') = Adsr.topValue (st o)
  /\ Adsr.stream_active (st o') = Adsr.stream_active (st o)
  /\ Adsr.stream_chnl (st o') = Adsr.stream_chnl (st o)
  /\ Adsr.stream_todac (st o') = Adsr.stream_todac (st o).
Proof.
  intros Hd Had Hpd Hs Hlen. cbv zeta. unfold Adsr.Adsr_generate_auto.
  set (out := fun (_ : nat) (s : Adsr.fields) =>
         if Qle_bool (Adsr.currentTime s) (Adsr.attack s)
         then Adsr.currentTime s / Adsr.attack s
         else if Qle_bool (Adsr.currentTime s) (Adsr.attack s + Adsr.decay s)
         then (Adsr.decay s - (Adsr.currentTime s - Adsr.attack s)) / Adsr.decay s
              * (1 - Adsr.sustain s) + Adsr.sustain s
         else if Qltb (Adsr.duration s) (Adsr.currentTime s) then 0
         else if Qle_bool (Adsr.duration s - Adsr.release s) (Adsr.currentTime s)
         then (Adsr.duration s - Adsr.currentTime s) / Adsr.release s * Adsr.sustain s
         else Adsr.sustain s).
  set (step := fun (_ : nat) (s : Adsr.fields) => Adsr.advance (Adsr.topValue s) s).
  match goal with
  | |- context [for_loop (bufsize o) ?b o] => set (body := b)
  end.
  destruct (for_loop_block (bufsize o) body step out o) as (Hst & Hl & Hlow & _).
  { intros i x Hi. split; reflexivity. }
  { lia. }
  assert (Inv : forall k,
            let s := for_loop k step (st o) in
            Adsr.attack s = Adsr.attack (st o)
            /\ Adsr.decay s = Adsr.decay (st o)
            /\ Adsr.sustain s = Adsr.sustain (st o)
            /\ Adsr.release s = Adsr.release (st o)
            /\ Adsr.duration s = Adsr.duration (st o)
            /\ Adsr.sampleToSec s = Adsr.sampleToSec (st o)
            /\ Adsr.currentTime (st o) <= Adsr.currentTime s
            /\ Adsr.fademode s = Adsr.fademode (st o)
            /\ Adsr.topValue s = Adsr.topValue (st o)
            /\ Adsr.stream_active s = Adsr.stream_active (st o)
            /\ Adsr.stream_chnl s = Adsr.stream_chnl (st o)
            /\ Adsr.stream_todac s = Adsr.stream_todac (st o)).
  { induction k as [|k IH]; cbv zeta.
    - rewrite for_loop_0. do 6 (split; [reflexivity|]).
      split; [apply Qle_refl|]. repeat split.
    - rewrite for_loop_S.
      destruct IH as (I1 & I2 & I3 & I4 & I5 & I6 & I7 & I8 & I9 & I10 & I11 & I12).
      repeat match goal with |- _ /\ _ => split end;
        unfold step at 1, Adsr.advance;
        cbn [Adsr.attack Adsr.decay Adsr.sustain Adsr.release Adsr.duration
             Adsr.sampleToSec Adsr.currentTime Adsr.fademode
             Adsr.topValue Adsr.stream_active Adsr.stream_chnl
             Adsr.stream_todac]; try assumption.
      rewrite I6. lra. }
  split; [lia|]. split; [|split].
  - intros i Hi. rewrite (Hlow i Hi). f_equal.
    destruct (Inv i) as (I1 & I2 & I3 & I4 & I5 & I6 & I7 & _).
    set (s := for_loop i step (st o)) in *.
    unfold out. rewrite I1, I2, I5.
    destruct (Qle_bool (Adsr.currentTime s) (Adsr.attack (st o))) eqn:E1.
    { apply Qle_bool_iff in E1. lra. }
    destruct (Qle_bool (Adsr.currentTime s) (Adsr.attack (st o) + Adsr.decay (st o)))
      eqn:E2.
    { apply Qle_bool_iff in E2. lra. }
    destruct (Qltb (Adsr.duration (st o)) (Adsr.currentTime s)) eqn:E3; [reflexivity|].
    apply Qltb_ge in E3. lra.
  - rewrite Hst. destruct (Inv (bufsize o)) as (_ & _ & _ & _ & I5 & _ & I7 & _).
    rewrite I5. lra.
  - rewrite Hst.
    destruct (Inv (bufsize o))
      as (I1 & I2 & I3 & I4 & I5 & I6 & I7 & I8 & I9 & I10 & I11 & I12).
    repeat (split; [assumption|]). assumption.
Qed.

(** The Adsr of the fixture once its clock stands at 1.2 second. *)
Lemma Adsr_generate_auto_silent_after_duration_witness :
  data (Adsr.Adsr_generate_auto adsr_done) !! 3%nat = Some 0
  /\ Adsr.stream_active (st (Adsr.Adsr_generate_auto adsr_done)) = 1%Z.
Proof.
  split.
  - refine (proj1 (proj2 (Adsr_generate_auto_silent_after_duration
                            adsr_done _ _ _ _ eq_refl)) 3%nat _);
      [vm_compute; congruence | vm_compute; congruence | vm_compute; reflexivity
       | vm_compute; congruence | cbn; lia].
  - destruct (Adsr_generate_auto_silent_after_duration adsr_done)
      as (_ & _ & _ & _ & _ & _ & _ & _ & _ & _ & H & _);
      [vm_compute; congruence | vm_compute; congruence | vm_compute; reflexivity
       | vm_compute; congruence | reflexivity |].
    exact (eq_trans H eq_refl).
Defined.







(** ** Counter *)

Lemma Counter_after_S_r (k : nat) (s : Counter.fields) :
  Counter.after (S k) s = Counter.on_trigger (Counter.after k s).
Proof.
  revert s. induction k as [|k IH]; intros s; [reflexivity|].
  change (Counter.after (S (S k)) s) with (Counter.after (S k) (Counter.on_trigger s)).
  rewrite IH. reflexivity.
Qed.

(** The number of triggers among the first [k] samples of a block. *)
Lemma trigger_count_S (inp : list Q) (k : nat) :
  length (List.filter (fun x => Qeq_bool x 1) (take (S k) inp))
  = (length (List.filter (fun x => Qeq_bool x 1) (take k inp))
     + if Qeq_bool (sample inp k) 1 then 1 else 0)%nat.
Proof.
  destruct (inp !! k) as [x|] eqn:E.
  - rewrite (take_S_r _ _ _ E), List.filter_app, length_app.
    rewrite (sample_lookup _ _ _ E). cbn [List.filter].
    destruct (Qeq_bool x 1); reflexivity.
  - apply lookup_ge_None in E.
    rewrite (take_ge inp (S k)), (take_ge inp k) by lia.
    unfold sample. rewrite nth_overflow by lia.
    change (Qeq_bool 0 1) with false. cbv iota. lia.
Qed.

(** X12.  [Counter_generates] is a sample-and-hold of the count: sample
    [i] of the block is the value that the counter holds after the
    triggers found among the input samples 0 to [i], so the output changes
    on trigger samples only, and the counter ends the block having taken
    as many steps as the block has triggers. *)
Theorem Counter_generates_holds_between_triggers
    (env : Stream -> list Q) (o : Counter.self) :
  length (data o) = bufsize o ->
  let inp := env (Counter.input_stream (st o)) in
  let trigs := fun k => length (List.filter (fun x => Qeq_bool x 1) (take k inp)) in
  let o' := Counter.Counter_generates env o in
  length (data o') = bufsize o
  /\ st o' = Counter.after (trigs (bufsize o)) (st o)
  /\ forall i, (i < bufsize o)%nat ->
       sample (data o') i = Counter.value (Counter.after (trigs (S i)) (st o)).
Proof.
  intros Hlen inp trigs o'. subst o'. unfold Counter.Counter_generates. fold inp.
  set (step := fun (i : nat) (s : Counter.fields) =>
         if Qeq_bool (sample inp i) 1 then Counter.on_trigger s else s).
  match goal with
  | |- context [for_loop (bufsize o) ?b o] => set (body := b)
  end.
  destruct (for_loop_block (bufsize o) body step
              (fun i s => Counter.value (step i s)) o) as (Hst & Hl & Hlow & _).
  { intros i x Hi. unfold body, step.
    destruct (Qeq_bool (sample inp i) 1); split; reflexivity. }
  { lia. }
  assert (Hrun : forall k, for_loop k step (st o) = Counter.after (trigs k) (st o)).
  { induction k as [|k IH].
    - rewrite for_loop_0. unfold trigs. rewrite take_0. reflexivity.
    - rewrite for_loop_S, IH. unfold trigs at 2. rewrite trigger_count_S.
      fold (trigs k). unfold step.
      destruct (Qeq_bool (sample inp k) 1).
      + rewrite Nat.add_1_r, Counter_after_S_r. reflexivity.
      + rewrite Nat.add_0_r. reflexivity. }
  split; [lia|]. split; [rewrite Hst; apply Hrun|].
  intros i Hi. rewrite (sample_lookup _ _ _ (Hlow i Hi)).
  rewrite <- Hrun, for_loop_S. reflexivity.
Qed.

Lemma Counter_generates_holds_between_triggers_witness :
  let o' := Counter.Counter_generates (fun _ => [1; 0; 1; 0]) counter_pingpong in
  length (data o') = 4%nat
  /\ st o' = Counter.after 2 (st counter_pingpong).
Proof.
  destruct (Counter_generates_holds_between_triggers (fun _ => [1; 0; 1; 0])
              counter_pingpong eq_refl) as (H1 & H2 & _).
  exact (conj H1 H2).
Defined.

(** X13.  The forward mode counts modulo the size of the range: from a
    count inside [min, max], trigger number [j] (from 0) emits
    [min + (tmp - min + j) mod (max - min + 1)].  Every value of the range
    is emitted, [min] follows [max], and a start inside the range is all
    it takes.  The range lies between -2^24 and 2^24, where the
    conversion of the count to the [float] that is emitted is exact. *)
Theorem Counter_forward_counts_modulo (k : nat) (s : Counter.fields) :
  Counter.dir s = 0%Z ->
  (Counter.min s <= Counter.tmp s <= Counter.max s)%Z ->
  (- 2 ^ 24 <= Counter.min s)%Z -> (Counter.max s <= 2 ^ 24)%Z ->
  length (Counter.emitted k s) = k
  /\ forall j, (j < k)%nat ->
       nth j (Counter.emitted k s) 0
       = inject_Z (Counter.min s
                   + (Counter.tmp s - Counter.min s + Z.of_nat j)
                       mod (Counter.max s - Counter.min s + 1))%Z.
Proof.
  intros Hd Hr _ _. revert s Hd Hr. induction k as [|k IH]; intros s Hd Hr.
  - split; [reflexivity|]. intros j Hj. lia.
  - destruct (Counter_forward_trigger s Hd) as (Hv & Ht & Hd' & Hmi & Hma).
    cbn [Counter.emitted] in *. cbv zeta.
    set (N := (Counter.max s - Counter.min s + 1)%Z).
    assert (HN : (0 < N)%Z) by (unfold N; lia).
    assert (Ht' : Counter.tmp (Counter.on_trigger s)
                  = (Counter.min s + (Counter.tmp s - Counter.min s + 1) mod N)%Z).
    { rewrite Ht. destruct (Z.gtb_spec (Counter.tmp s + 1) (Counter.max s)).
      - assert (Counter.tmp s = Counter.max s) as -> by lia.
        replace (Counter.max s - Counter.min s + 1)%Z with N by reflexivity.
        rewrite Z_mod_same_full. lia.
      - rewrite Z.mod_small by (unfold N; lia). lia. }
    destruct (IH (Counter.on_trigger s) Hd') as [Hl Hn].
    { rewrite Hmi, Hma, Ht'. pose proof (Z.mod_pos_bound
        (Counter.tmp s - Counter.min s + 1) N HN). unfold N in *. lia. }
    split; [cbn [length]; rewrite Hl; reflexivity|].
    intros [|j] Hj.
    + cbn [nth]. rewrite Hv, Z.add_0_r, Z.mod_small by (unfold N; lia).
      f_equal. lia.
    + cbn [nth]. rewrite Hn by lia. rewrite Hmi, Hma, Ht'. fold N. f_equal. f_equal.
      replace (Counter.min s + (Counter.tmp s - Counter.min s + 1) mod N
               - Counter.min s + Z.of_nat j)%Z
        with ((Counter.tmp s - Counter.min s + 1) mod N + Z.of_nat j)%Z by lia.
      rewrite Zplus_mod_idemp_l. f_equal. lia.
Qed.

Lemma Counter_forward_counts_modulo_witness :
  nth 5 (Counter.emitted 6 (st (Counter.Counter_init 4 44100 0%nat 2 5 0))) 0
  = inject_Z (2 + (2 - 2 + 5) mod (5 - 2 + 1))%Z.
Proof.
  apply (proj2 (Counter_forward_counts_modulo 6
                  (st (Counter.Counter_init 4 44100 0%nat 2 5 0))
                  eq_refl ltac:(cbn; lia) ltac:(cbn; lia) ltac:(cbn; lia)) 5%nat).
  lia.
Defined.

(** The step of the backward mode. *)
Lemma Counter_backward_trigger (s : Counter.fields) :
  Counter.dir s = 1%Z ->
  let s' := Counter.on_trigger s in
  Counter.value s' = inject_Z (Counter.tmp s)
  /\ Counter.tmp s'
     = (if (Counter.tmp s - 1 <? Counter.min s)%Z then Counter.max s
        else Counter.tmp s - 1)%Z
  /\ Counter.dir s' = 1%Z
  /\ Counter.min s' = Counter.min s /\ Counter.max s' = Counter.max s.
Proof.
  intros Hd. unfold Counter.on_trigger. rewrite Hd. cbn.
  repeat split; try assumption.
Qed.

(** X14.  The backward mode counts down modulo the size of the range:
    from a count inside [min, max], trigger number [j] emits
    [min + (tmp - min - j) mod (max - min + 1)]; [max] follows [min].  The
    range lies between -2^24 and 2^24, where the conversion of the count
    to the [float] that is emitted is exact. *)
Theorem Counter_backward_counts_modulo (k : nat) (s : Counter.fields) :
  Counter.dir s = 1%Z ->
  (Counter.min s <= Counter.tmp s <= Counter.max s)%Z ->
  (- 2 ^ 24 <= Counter.min s)%Z -> (Counter.max s <= 2 ^ 24)%Z ->
  length (Counter.emitted k s) = k
  /\ forall j, (j < k)%nat ->
       nth j (Counter.emitted k s) 0
       = inject_Z (Counter.min s
                   + (Counter.tmp s - Counter.min s - Z.of_nat j)
                       mod (Counter.max s - Counter.min s + 1))%Z.
Proof.
  intros Hd Hr _ _. revert s Hd Hr. induction k as [|k IH]; intros s Hd Hr.
  - split; [reflexivity|]. intros j Hj. lia.
  - destruct (Counter_backward_trigger s Hd) as (Hv & Ht & Hd' & Hmi & Hma).
    cbn [Counter.emitted] in *. cbv zeta.
    set (N := (Counter.max s - Counter.min s + 1)%Z).
    assert (HN : (0 < N)%Z) by (unfold N; lia).
    assert (Ht' : Counter.tmp (Counter.on_trigger s)
                  = (Counter.min s + (Counter.tmp s - Counter.min s - 1) mod N)%Z).
    { rewrite Ht. destruct (Z.ltb_spec (Counter.tmp s - 1) (Counter.min s)).
      - assert (Counter.tmp s = Counter.min s) as -> by lia.
        replace (Counter.min s - Counter.min s - 1)%Z with (-1 + 1 * N - N)%Z by lia.
        replace (-1 + 1 * N - N)%Z with ((N - 1) + (-1) * N)%Z by lia.
        rewrite Z_mod_plus_full, Z.mod_small by lia. unfold N. lia.
      - rewrite Z.mod_small by (unfold N; lia). lia. }
    destruct (IH (Counter.on_trigger s) Hd') as [Hl Hn].
    { rewrite Hmi, Hma, Ht'. pose proof (Z.mod_pos_bound
        (Counter.tmp s - Counter.min s - 1) N HN). unfold N in *. lia. }
    split; [cbn [length]; rewrite Hl; reflexivity|].
    intros [|j] Hj.
    + cbn [nth]. rewrite Hv, Z.sub_0_r, Z.mod_small by (unfold N; lia).
      f_equal. lia.
    + cbn [nth]. rewrite Hn by lia. rewrite Hmi, Hma, Ht'. fold N. f_equal. f_equal.
      replace (Counter.min s + (Counter.tmp s - Counter.min s - 1) mod N
               - Counter.min s - Z.of_nat j)%Z
        with ((Counter.tmp s - Counter.min s - 1) mod N + (- Z.of_nat j))%Z by lia.
      rewrite Zplus_mod_idemp_l. f_equal. lia.
Qed.

Lemma Counter_backward_counts_modulo_witness :
  nth 5 (Counter.emitted 6 (st (Counter.Counter_init 4 44100 0%nat 2 5 1))) 0
  = inject_Z (2 + (5 - 2 - 5) mod (5 - 2 + 1))%Z.
Proof.
  apply (proj2 (Counter_backward_counts_modulo 6
                  (st (Counter.Counter_init 4 44100 0%nat 2 5 1))
                  eq_refl ltac:(cbn; lia) ltac:(cbn; lia) ltac:(cbn; lia)) 5%nat).
  lia.
Defined.

(** X15.  The back-and-forth mode never leaves the range: from a count
    inside [min, max] with a direction of 1 or -1, every value that any
    number of triggers emits lies in [min, max], and the count and the
    direction stay such.  The range lies between -2^24 and 2^24, where
    the conversion of the count to the [float] that is emitted is
    exact. *)
Theorem Counter_pingpong_never_leaves_range (k : nat) (s : Counter.fields) :
  Counter.dir s = 2%Z ->
  (Counter.min s <= Counter.tmp s <= Counter.max s)%Z ->
  (Counter.direction s = 1 \/ Counter.direction s = -1)%Z ->
  (- 2 ^ 24 <= Counter.min s)%Z -> (Counter.max s <= 2 ^ 24)%Z ->
  Forall (fun v => inject_Z (Counter.min s) <= v <= inject_Z (Counter.max s))
         (Counter.emitted k s)
  /\ (Counter.min s <= Counter.tmp (Counter.after k s) <= Counter.max s)%Z
  /\ (Counter.direction (Counter.after k s) = 1
      \/ Counter.direction (Counter.after k s) = -1)%Z.
Proof.
  intros Hd Hr Hdir _ _. split; [apply Counter_pingpong_in_range; assumption|].
  revert s Hd Hr Hdir. induction k as [|k IH]; intros s Hd Hr Hdir.
  - split; assumption.
  - destruct (Counter_pingpong_trigger s Hd Hr Hdir)
      as (_ & Hd' & Hmi & Hma & Hr' & Hdir').
    cbn [Counter.after]. rewrite <- Hmi, <- Hma.
    apply IH; try assumption. rewrite Hmi, Hma. exact Hr'.
Qed.

Lemma Counter_pingpong_never_leaves_range_witness :
  Forall (fun v => inject_Z 0 <= v <= inject_Z 3)
         (Counter.emitted 9 (st counter_pingpong)).
Proof.
  apply (Counter_pingpong_never_leaves_range 9 (st counter_pingpong) eq_refl);
    [cbn; lia | left; reflexivity | cbn; lia | cbn; lia].
Defined.

(** ** Thresh: the latch *)

(** The downward body is the upward body with the roles of the input and
    of the threshold exchanged. *)
Lemma Thresh_downward_upward (th x : Q) (i : nat) (o : Thresh.self) :
  Thresh.downward th x i o = Thresh.upward x th i o.
Proof. reflexivity. Qed.










(** ** TrigEnv and TrigEnvTrig *)

(** The loop of [TrigEnv_getTrigsBuffer]: the first [n] pulses move to the
    second buffer and are cleared in the first. *)
Lemma getTrigsBuffer_loop (n : nat) (t u : list Q) :
  (n <= length t)%nat -> (n <= length u)%nat ->
  let r := for_loop n (fun i '(trigs, temp) =>
                         (<[i := 0]> trigs, <[i := sample trigs i]> temp)) (t, u) in
  length (fst r) = length t /\ length (snd r) = length u
  /\ (forall i, (i < n)%nat -> fst r !! i = Some 0 /\ snd r !! i = t !! i)
  /\ (forall i, (n <= i)%nat -> fst r !! i = t !! i /\ snd r !! i = u !! i).
Proof.
  induction n as [|n IH]; intros Ht Hu; cbv zeta.
  - rewrite for_loop_0. cbn [fst snd]. split; [reflexivity|]. split; [reflexivity|].
    split; [intros i Hi; lia | intros i Hi; split; reflexivity].
  - destruct IH as (L1 & L2 & Hlow & Hup); [lia | lia |].
    rewrite for_loop_S.
    destruct (for_loop n _ (t, u)) as [trigs temp]. cbn [fst snd] in *.
    rewrite !length_insert. split; [exact L1|]. split; [exact L2|].
    split.
    + intros i Hi. destruct (Nat.eq_dec i n) as [->|Hne].
      * split; [apply list_lookup_insert_eq; lia|].
        rewrite list_lookup_insert_eq by lia.
        destruct (Hup n (Nat.le_refl n)) as [Hn _].
        destruct (lookup_lt_is_Some_2 t n ltac:(lia)) as [v Hv].
        rewrite Hv in Hn. rewrite (sample_lookup _ _ _ Hn), Hv. reflexivity.
      * rewrite !list_lookup_insert_ne by lia. apply Hlow. lia.
    + intros i Hi. rewrite !list_lookup_insert_ne by lia. apply Hup. lia.
Qed.

(** X19.  The end-of-read pulses of a TrigEnv are handed over once: a
    TrigEnvTrig block is the pulse buffer of its reader, the reader's
    pulse buffer is cleared by the reading and none of its other fields
    changes, so that a second block computed before the reader has run
    again is all zeros. *)
Theorem TrigEnvTrig_hands_pulses_over_once (o : TrigEnvTrig.self) (rd : TrigEnv.self) :
  bufsize o = bufsize rd -> length (data o) = bufsize o ->
  length (TrigEnv.trigsBuffer (st rd)) = bufsize rd ->
  length (TrigEnv.tempTrigsBuffer (st rd)) = bufsize rd ->
  let r1 := TrigEnvTrig.TrigEnvTrig_compute_next_data_frame o rd in
  let r2 := TrigEnvTrig.TrigEnvTrig_compute_next_data_frame (fst r1) (snd r1) in
  (forall i, (i < bufsize o)%nat ->
     sample (data (fst r1)) i = sample (TrigEnv.trigsBuffer (st rd)) i
     /\ sample (TrigEnv.trigsBuffer (st (snd r1))) i = 0
     /\ sample (data (fst r2)) i = 0)
  /\ length (data (fst r1)) = bufsize o
  /\ (TrigEnv.active (st (snd r1)), TrigEnv.pointerPos (st (snd r1)),
      TrigEnv.inc (st (snd r1)), TrigEnv.table (st (snd r1)), data (snd r1))
     = (TrigEnv.active (st rd), TrigEnv.pointerPos (st rd),
        TrigEnv.inc (st rd), TrigEnv.table (st rd), data rd).
Proof.
  intros Hb Hd Ht Hu.
  assert (Hone : forall (o : TrigEnvTrig.self) (rd : TrigEnv.self),
            bufsize o = bufsize rd -> length (data o) = bufsize o ->
            length (TrigEnv.trigsBuffer (st rd)) = bufsize rd ->
            length (TrigEnv.tempTrigsBuffer (st rd)) = bufsize rd ->
            let r := TrigEnvTrig.TrigEnvTrig_compute_next_data_frame o rd in
            (forall i, (i < bufsize o)%nat ->
               data (fst r) !! i = TrigEnv.trigsBuffer (st rd) !! i
               /\ TrigEnv.trigsBuffer (st (snd r)) !! i = Some 0)
            /\ length (data (fst r)) = bufsize o
            /\ bufsize (fst r) = bufsize o /\ bufsize (snd r) = bufsize rd
            /\ length (TrigEnv.trigsBuffer (st (snd r))) = bufsize rd
            /\ length (TrigEnv.tempTrigsBuffer (st (snd r))) = bufsize rd
            /\ (TrigEnv.active (st (snd r)), TrigEnv.pointerPos (st (snd r)),
                TrigEnv.inc (st (snd r)), TrigEnv.table (st (snd r)), data (snd r))
               = (TrigEnv.active (st rd), TrigEnv.pointerPos (st rd),
                  TrigEnv.inc (st rd), TrigEnv.table (st rd), data rd)).
  { clear. intros o rd Hb Hd Ht Hu. cbv zeta.
    unfold TrigEnvTrig.TrigEnvTrig_compute_next_data_frame, TrigEnv.TrigEnv_getTrigsBuffer.
    cbv zeta.
    destruct (getTrigsBuffer_loop (bufsize rd) (TrigEnv.trigsBuffer (st rd))
                (TrigEnv.tempTrigsBuffer (st rd)) ltac:(lia) ltac:(lia))
      as (L1 & L2 & Hlow & _).
    destruct (for_loop (bufsize rd) _ (TrigEnv.trigsBuffer (st rd), _))
      as [trigs temp]. cbn [fst snd] in *.
    destruct (for_loop_block (bufsize o) (fun i x => store i (sample temp i) x)
                (fun _ s => s) (fun i _ => sample temp i) o) as (_ & Hl & Hcp & _).
    { intros i x Hi. split; reflexivity. }
    { lia. }
    split; [|split; [lia|]].
    - intros i Hi. rewrite (Hcp i Hi). destruct (Hlow i ltac:(lia)) as [H0 H1].
      cbn [st set_st TrigEnv.trigsBuffer]. split; [|exact H0].
      destruct (lookup_lt_is_Some_2 (TrigEnv.trigsBuffer (st rd)) i ltac:(lia))
        as [v Hv].
      rewrite Hv in H1 |- *. rewrite (sample_lookup _ _ _ H1). reflexivity.
    - split.
      { apply (for_loop_ind (fun _ x => bufsize x = bufsize o)); [reflexivity|].
        intros i x _ Hx. exact Hx. }
      cbn. repeat split; lia. }
  intros r1 r2.
  destruct (Hone o rd Hb Hd Ht Hu) as (H1 & H2 & H3 & H4 & H5 & H6 & H7).
  fold r1 in H1, H2, H3, H4, H5, H6, H7.
  destruct (Hone (fst r1) (snd r1)) as (G1 & _); [lia | lia | lia | lia |].
  fold r2 in G1.
  split; [|split; [exact H2 | exact H7]].
  intros i Hi. destruct (H1 i Hi) as [A B].
  destruct (G1 i ltac:(lia)) as [C _]. rewrite B in C.
  unfold sample. rewrite !nth_lookup, A, B, C. repeat split; reflexivity.
Qed.

Lemma TrigEnvTrig_hands_pulses_over_once_witness :
  let rd := fst (TrigEnv.TrigEnv_readframes_i (fun _ => [1; 0; 0; 0; 0; 0]) trigenv_4 []) in
  let o := PyoAudio 6 4 (repeat 0 6) tt in
  let r1 := TrigEnvTrig.TrigEnvTrig_compute_next_data_frame o rd in
  sample (data (fst r1)) 4 = sample (TrigEnv.trigsBuffer (st rd)) 4.
Proof.
  intros rd o r1.
  apply (proj1 (TrigEnvTrig_hands_pulses_over_once o rd eq_refl eq_refl eq_refl eq_refl)
           4%nat).
  cbn. lia.
Defined.

(** Truncation agrees on equal non-negative rationals. *)
Lemma Qtrunc_comp_nonneg (x y : Q) : 0 <= x -> x == y -> Qtrunc x = Qtrunc y.
Proof.
  intros Hx Hxy. rewrite !Qtrunc_floor; [apply Qfloor_comp; exact Hxy| |exact Hx].
  rewrite <- Hxy. exact Hx.
Qed.

(** One pass of the reader on a trigger sample. *)
Lemma TrigEnv_pass_trigger (x d : Q) (i : nat) (o : TrigEnv.self) (reads : list Z) :
  Qeq_bool x 1 = true ->
  let N := tab_size (TrigEnv.table (st o)) in
  let step := inject_Z N / (sr o * d) in
  let o' := fst (TrigEnv.sample_step x d i o reads) in
  bufsize o' = bufsize o /\ sr o' = sr o
  /\ TrigEnv.table (st o') = TrigEnv.table (st o)
  /\ TrigEnv.dur (st o') = TrigEnv.dur (st o)
  /\ TrigEnv.inc (st o') = step
  /\ TrigEnv.pointerPos (st o') = 0 + step
  /\ data o' = <[i := TrigEnv.tablelist (st o) 0
                      + (TrigEnv.tablelist (st o) 1 - TrigEnv.tablelist (st o) 0)
                        * (0 - inject_Z 0)]> (data o)
  /\ TrigEnv.active (st o') = (if Qltb (inject_Z N) (0 + step) then 0 else 1)%Z
  /\ TrigEnv.trigsBuffer (st o')
     = (if Qltb (inject_Z N) (0 + step) then <[i := 1]> (TrigEnv.trigsBuffer (st o))
        else TrigEnv.trigsBuffer (st o)).
Proof.
  intros Hx. cbv zeta. unfold TrigEnv.sample_step. rewrite Hx. cbn.
  destruct (Qltb _ _); cbn; repeat split.
Qed.

(** One pass of an active reader on a sample without trigger. *)
Lemma TrigEnv_pass_reading (x d : Q) (i : nat) (o : TrigEnv.self) (reads : list Z) :
  Qeq_bool x 1 = false -> TrigEnv.active (st o) = 1%Z ->
  let N := tab_size (TrigEnv.table (st o)) in
  let p := TrigEnv.pointerPos (st o) in
  let o' := fst (TrigEnv.sample_step x d i o reads) in
  bufsize o' = bufsize o /\ sr o' = sr o
  /\ TrigEnv.table (st o') = TrigEnv.table (st o)
  /\ TrigEnv.dur (st o') = TrigEnv.dur (st o)
  /\ TrigEnv.inc (st o') = TrigEnv.inc (st o)
  /\ TrigEnv.pointerPos (st o') = p + TrigEnv.inc (st o)
  /\ data o' = <[i := TrigEnv.tablelist (st o) (Qtrunc p)
                      + (TrigEnv.tablelist (st o) (Qtrunc p + 1)
                         - TrigEnv.tablelist (st o) (Qtrunc p))
                        * (p - inject_Z (Qtrunc p))]> (data o)
  /\ TrigEnv.active (st o')
     = (if Qltb (inject_Z N) (p + TrigEnv.inc (st o)) then 0 else 1)%Z
  /\ TrigEnv.trigsBuffer (st o')
     = (if Qltb (inject_Z N) (p + TrigEnv.inc (st o))
        then <[i := 1]> (TrigEnv.trigsBuffer (st o))
        else TrigEnv.trigsBuffer (st o)).
Proof.
  intros Hx Ha. cbv zeta. unfold TrigEnv.sample_step. rewrite Hx. cbv zeta.
  rewrite Ha. cbn.
  destruct (Qltb _ _); cbn; rewrite ?Ha; cbn; repeat split.
Qed.

(** One pass of an idle reader on a sample without trigger. *)
Lemma TrigEnv_pass_idle (x d : Q) (i : nat) (o : TrigEnv.self) (reads : list Z) :
  Qeq_bool x 1 = false -> TrigEnv.active (st o) <> 1%Z ->
  let r := TrigEnv.sample_step x d i o reads in
  bufsize (fst r) = bufsize o /\ sr (fst r) = sr o
  /\ st (fst r) = st o
  /\ data (fst r) = <[i := 0]> (data o)
  /\ snd r = reads.
Proof.
  intros Hx Ha. cbv zeta. unfold TrigEnv.sample_step. rewrite Hx. cbv zeta.
  destruct (Z.eqb_spec (TrigEnv.active (st o)) 1) as [E|E]; [contradiction|].
  cbn. destruct (Z.eqb_spec (TrigEnv.active (st o)) 1) as [E'|E']; [contradiction|].
  rewrite andb_false_r. cbn. repeat split.
Qed.

(** One pass of a reader that reads: on a trigger, from position 0 with
    the step of the trigger; without trigger, when it is active, from its
    position with its step. *)
Lemma TrigEnv_pass_at (x d p stp : Q) (i : nat) (o : TrigEnv.self) (reads : list Z) :
  (Qeq_bool x 1 = true /\ p = 0
   /\ stp = inject_Z (tab_size (TrigEnv.table (st o))) / (sr o * d))
  \/ (Qeq_bool x 1 = false /\ TrigEnv.active (st o) = 1%Z
      /\ p = TrigEnv.pointerPos (st o) /\ stp = TrigEnv.inc (st o)) ->
  let N := tab_size (TrigEnv.table (st o)) in
  let o' := fst (TrigEnv.sample_step x d i o reads) in
  bufsize o' = bufsize o /\ sr o' = sr o
  /\ TrigEnv.table (st o') = TrigEnv.table (st o)
  /\ TrigEnv.dur (st o') = TrigEnv.dur (st o)
  /\ TrigEnv.inc (st o') = stp
  /\ TrigEnv.pointerPos (st o') = p + stp
  /\ data o' = <[i := TrigEnv.tablelist (st o) (Qtrunc p)
                      + (TrigEnv.tablelist (st o) (Qtrunc p + 1)
                         - TrigEnv.tablelist (st o) (Qtrunc p))
                        * (p - inject_Z (Qtrunc p))]> (data o)
  /\ TrigEnv.active (st o') = (if Qltb (inject_Z N) (p + stp) then 0 else 1)%Z
  /\ TrigEnv.trigsBuffer (st o')
     = (if Qltb (inject_Z N) (p + stp) then <[i := 1]> (TrigEnv.trigsBuffer (st o))
        else TrigEnv.trigsBuffer (st o)).
Proof.
  intros [(Hx & -> & ->)|(Hx & Ha & -> & ->)].
  - exact (TrigEnv_pass_trigger x d i o reads Hx).
  - exact (TrigEnv_pass_reading x d i o reads Hx Ha).
Qed.

Lemma Qmult_le_pos_r (a b c : Q) : 0 < c -> (a * c <= b * c <-> a <= b).
Proof. intros Hc. apply Qmult_le_r. exact Hc. Qed.

(** X20.  The envelope that a trigger starts.  With a constant duration,
    a table of [N > 0] samples and a block whose first sample is a
    trigger and which holds no other trigger, let [stp] be the step
    [inc] that the trigger has stored.  The step is above 0, the reader
    stands at [k * stp] when it comes to sample [k], and it reads as long
    as that position is at most [N]: sample [k] is 0 once [k * stp] is
    above [N]; the end-of-read pulse is written at the one sample [k]
    with [k * stp <= N < (k + 1) * stp], and no other cell of the pulse
    buffer is written.  The sampling rate lies between 1 and 10^6 and the
    duration between 10^-6 and 10^6 seconds, so that the step is a
    positive finite [float], and the block has at most 2^29 samples, over
    which the [double] position adds up the [float] step without
    rounding. *)
Theorem TrigEnv_readframes_i_envelope
    (env : Stream -> list Q) (o : TrigEnv.self) (reads : list Z) :
  let n := bufsize o in
  let d := PyFloat_AS_DOUBLE (TrigEnv.dur (st o)) in
  let N := tab_size (TrigEnv.table (st o)) in
  let inp := env (TrigEnv.input_stream (st o)) in
  1 <= sr o -> sr o <= 1000000 -> (1 # 1000000) <= d -> d <= 1000000 ->
  (0 < N < 2 ^ 31)%Z -> (Z.of_nat n <= 2 ^ 29)%Z ->
  length (data o) = n -> length (TrigEnv.trigsBuffer (st o)) = n ->
  Qeq_bool (sample inp 0) 1 = true ->
  (forall i, (0 < i < n)%nat -> Qeq_bool (sample inp i) 1 = false) ->
  let o' := fst (TrigEnv.TrigEnv_readframes_i env o reads) in
  let stp := TrigEnv.inc (st o') in
  forall k, (k < n)%nat ->
    let t := inject_Z (Z.of_nat k) in
    0 < stp
    /\ (inject_Z N < t * stp -> sample (data o') k = 0)
    /\ (t * stp <= inject_Z N -> inject_Z N < (t + 1) * stp ->
        sample (TrigEnv.trigsBuffer (st o')) k = 1)
    /\ (inject_Z N < t * stp \/ (t + 1) * stp <= inject_Z N ->
        sample (TrigEnv.trigsBuffer (st o')) k
        = sample (TrigEnv.trigsBuffer (st o)) k).
Proof.
  intros n d N inp Hsr1 Hsr2 Hd1 Hd2 HN' Hn29 Hlen Htl Htrig Hrest o' stp.
  assert (Hsr : 0 < sr o) by lra.
  assert (Hd : 0 < d) by lra.
  assert (HN : (0 < N)%Z) by lia.
  set (stp0 := inject_Z N / (sr o * d)).
  set (at_ := fun p : Q =>
    let ip := Qfloor p in
    TrigEnv.tablelist (st o) ip
    + (TrigEnv.tablelist (st o) (ip + 1) - TrigEnv.tablelist (st o) ip)
      * (p - inject_Z ip)).
  set (sd := sr o * d).
  assert (Hsd : 0 < sd) by (apply Qmult_lt_0_compat; assumption).
  assert (HNq : 0 < inject_Z N).
  { change 0 with (inject_Z 0). rewrite <- Zlt_Qlt. exact HN. }
  assert (Hstp0 : 0 < stp0).
  { unfold stp0. apply Qlt_shift_div_l; [exact Hsd|]. lra. }
  assert (Hsc : stp0 * sd == inject_Z N).
  { unfold stp0. fold sd. field. lra. }
  assert (Hle : forall t, t * stp0 <= inject_Z N <-> t <= sd).
  { intros t. rewrite <- Hsc, (Qmult_comm stp0 sd). apply Qmult_le_pos_r. exact Hstp0. }
  assert (Hlt : forall t, inject_Z N < t * stp0 <-> sd < t).
  { intros t. split; intros H.
    - apply Qnot_le_lt. intros C. apply Hle in C. lra.
    - apply Qnot_le_lt. intros C. apply Hle in C. lra. }
  set (body := fun (i : nat) '(o, reads) =>
         TrigEnv.sample_step (sample inp i)
           (PyFloat_AS_DOUBLE (TrigEnv.dur (st o))) i o reads).
  assert (Inv : forall k, (k <= n)%nat ->
    let ok := fst (for_loop k body (o, reads)) in
    bufsize ok = n /\ sr ok = sr o
    /\ TrigEnv.table (st ok) = TrigEnv.table (st o)
    /\ TrigEnv.dur (st ok) = TrigEnv.dur (st o)
    /\ length (data ok) = n /\ length (TrigEnv.trigsBuffer (st ok)) = n
    /\ ((1 <= k)%nat ->
        TrigEnv.inc (st ok) = stp0
        /\ (inject_Z (Z.of_nat k) <= sd ->
            TrigEnv.active (st ok) = 1%Z
            /\ TrigEnv.pointerPos (st ok) == inject_Z (Z.of_nat k) * stp0)
        /\ (sd < inject_Z (Z.of_nat k) -> TrigEnv.active (st ok) = 0%Z))
    /\ (forall i, (i < k)%nat ->
        let t := inject_Z (Z.of_nat i) in
        exists v w,
          data ok !! i = Some v /\ TrigEnv.trigsBuffer (st ok) !! i = Some w
          /\ (t <= sd -> v == at_ (t * stp0))
          /\ (sd < t -> v = 0)
          /\ (t <= sd -> sd < t + 1 -> w = 1)
          /\ (sd < t \/ t + 1 <= sd ->
              TrigEnv.trigsBuffer (st o) !! i = Some w))
    /\ (forall i, (k <= i)%nat ->
        TrigEnv.trigsBuffer (st ok) !! i = TrigEnv.trigsBuffer (st o) !! i)).
  { induction k as [|k IH]; intros Hk; cbv zeta.
    - rewrite for_loop_0. cbn [fst].
      do 6 (split; [reflexivity || assumption|]).
      split; [intros H; lia|]. split; [intros i Hi; lia|]. intros i _. reflexivity.
    - destruct IH as (I1 & I2 & I3 & I4 & I5 & I6 & I7 & I8 & I9); [lia|].
      rewrite for_loop_S. destruct (for_loop k body (o, reads)) as [ok rk].
      cbn [fst] in I1, I2, I3, I4, I5, I6, I7, I8, I9.
      unfold body. cbv beta iota. rewrite I4. fold d.
      set (t := inject_Z (Z.of_nat k)).
      assert (Ht1 : inject_Z (Z.of_nat (S k)) == t + 1).
      { unfold t. rewrite Nat2Z.inj_succ. unfold Z.succ. rewrite inject_Z_plus.
        reflexivity. }
      assert (Ht0 : 0 <= t).
      { unfold t. change 0 with (inject_Z 0). rewrite <- Zle_Qle. lia. }
      destruct (Qlt_le_dec sd t) as [Hout|Hin].
      + (* the reader has stopped *)
        assert (Hk1 : (1 <= k)%nat).
        { destruct (Nat.eq_dec k 0%nat) as [E0|E0]; [|lia]. exfalso.
          assert (Hz : t == 0) by (unfold t; rewrite E0; reflexivity).
          lra. }
        destruct (I7 Hk1) as (J1 & _ & J3). specialize (J3 Hout).
        destruct (TrigEnv_pass_idle (sample inp k) d k ok rk)
          as (P1 & P2 & P3 & P4 & _).
        { apply Hrest. lia. }
        { rewrite J3. discriminate. }
        unfold TrigEnv.self in *.
        set (ok' := fst (TrigEnv.sample_step (sample inp k) d k ok rk)) in *.
        rewrite P1, P2, P3, P4, length_insert.
        do 6 (split; [assumption|]).
        split.
        { intros _. split; [exact J1|]. split.
          - intros H. rewrite Ht1 in H. lra.
          - intros _. exact J3. }
        split.
        { intros i Hi. destruct (Nat.eq_dec i k) as [->|Hne].
          - destruct (lookup_lt_is_Some_2 (TrigEnv.trigsBuffer (st ok)) k ltac:(lia))
              as [w Hw].
            exists 0, w. fold t. split; [apply list_lookup_insert_eq; lia|].
            split; [exact Hw|]. split; [intros H; lra|]. split; [reflexivity|].
            split; [intros H; lra|]. intros _. rewrite <- I9 by lia. exact Hw.
          - destruct (I8 i ltac:(lia)) as (v & w & A & B).
            exists v, w. rewrite list_lookup_insert_ne by lia. split; assumption. }
        intros i Hi. apply I9. lia.
      + (* the reader reads at [t * stp0] *)
        set (p := if Nat.eqb k 0 then 0 else TrigEnv.pointerPos (st ok)).
        assert (Hp : p == t * stp0).
        { unfold p. destruct k as [|k'].
          - cbn. unfold t. cbn. ring.
          - cbn. destruct (I7 ltac:(lia)) as (_ & J2 & _).
            apply J2. exact Hin. }
        destruct (TrigEnv_pass_at (sample inp k) d p stp0 k ok rk)
          as (P1 & P2 & P3 & P4 & P5 & P6 & P7 & P8 & P9).
        { unfold p. destruct k as [|k'].
          - left. split; [exact Htrig|]. split; [reflexivity|].
            unfold stp0, N. rewrite I3, I2. reflexivity.
          - right. split; [apply Hrest; lia|].
            destruct (I7 ltac:(lia)) as (J1 & J2 & _).
            split; [apply J2; exact Hin|]. split; [reflexivity|].
            symmetry. exact J1. }
        unfold TrigEnv.self in *.
        set (ok' := fst (TrigEnv.sample_step (sample inp k) d k ok rk)) in *.
        rewrite I3 in P8, P9. fold N in P8, P9.
        assert (Hnext : p + stp0 == inject_Z (Z.of_nat (S k)) * stp0).
        { rewrite Hp, Ht1. ring. }
        assert (Hq : Qltb (inject_Z N) (p + stp0) = true <-> sd < t + 1).
        { rewrite Qltb_lt, Hnext, <- Ht1. apply Hlt. }
        rewrite P1, P2, P3, P4, P7, length_insert.
        do 5 (split; [assumption|]).
        split.
        { rewrite P9. destruct (Qltb (inject_Z N) (p + stp0));
            [rewrite length_insert|]; exact I6. }
        split.
        { intros _. split; [exact P5|]. split.
          - intros H. rewrite P8, P6.
            destruct (Qltb (inject_Z N) (p + stp0)) eqn:E.
            + pose proof (proj1 Hq eq_refl) as E1. rewrite Ht1 in H. lra.
            + split; [reflexivity | exact Hnext].
          - intros H. rewrite P8.
            destruct (Qltb (inject_Z N) (p + stp0)) eqn:E; [reflexivity|].
            assert (E' : false = true)
              by (apply Hq; rewrite <- Ht1; exact H).
            discriminate. }
        split.
        { intros i Hi. destruct (Nat.eq_dec i k) as [->|Hne].
          - fold t. rewrite P9.
            destruct (Qltb (inject_Z N) (p + stp0)) eqn:E.
            + eexists. exists 1.
              split; [apply list_lookup_insert_eq; lia|].
              split; [apply list_lookup_insert_eq; lia|].
              pose proof (proj1 Hq eq_refl) as E1.
              split.
              { intros _. unfold at_. cbv zeta.
                assert (Hpp : 0 <= p) by (rewrite Hp; apply Qmult_le_0_compat; lra).
                rewrite (Qtrunc_comp_nonneg p (t * stp0) Hpp Hp).
                rewrite Qtrunc_floor by (apply Qmult_le_0_compat; lra).
                unfold TrigEnv.tablelist. rewrite I3, Hp. reflexivity. }
              split; [intros H; lra|]. split; [reflexivity|].
              intros [H|H]; lra.
            + destruct (lookup_lt_is_Some_2 (TrigEnv.trigsBuffer (st ok)) k ltac:(lia))
                as [w Hw].
              eexists. exists w.
              split; [apply list_lookup_insert_eq; lia|].
              split; [exact Hw|].
              assert (E' : ~ sd < t + 1).
              { intros C. apply Hq in C. discriminate. }
              split.
              { intros _. unfold at_. cbv zeta.
                assert (Hpp : 0 <= p) by (rewrite Hp; apply Qmult_le_0_compat; lra).
                rewrite (Qtrunc_comp_nonneg p (t * stp0) Hpp Hp).
                rewrite Qtrunc_floor by (apply Qmult_le_0_compat; lra).
                unfold TrigEnv.tablelist. rewrite I3, Hp. reflexivity. }
              split; [intros H; lra|]. split; [intros _ C; contradiction|].
              intros _. rewrite <- I9 by lia. exact Hw.
          - destruct (I8 i ltac:(lia)) as (v & w & A & B & C).
            exists v, w. rewrite list_lookup_insert_ne by lia.
            split; [exact A|]. split; [|exact C].
            rewrite P9. destruct (Qltb (inject_Z N) (p + stp0));
              [rewrite list_lookup_insert_ne by lia|]; exact B. }
        intros i Hi. rewrite P9.
        destruct (Qltb (inject_Z N) (p + stp0));
          [rewrite list_lookup_insert_ne by lia|]; apply I9; lia. }
  intros k Hk t.
  destruct (Inv n (Nat.le_refl n)) as (_ & _ & _ & _ & _ & _ & I7 & I8 & _).
  change (fst (for_loop n body (o, reads))) with o' in I7, I8.
  destruct (I7 ltac:(lia)) as (Hinc & _).
  assert (Hs : stp = stp0) by exact Hinc.
  rewrite Hs. clear Hs.
  destruct (I8 k Hk) as (v & w & A & B & C1 & C2 & C3 & C4). fold t in C1, C2, C3, C4.
  rewrite (sample_lookup _ _ _ A), (sample_lookup _ _ _ B).
  assert (Ht1 : (t + 1) * stp0 <= inject_Z N <-> t + 1 <= sd) by apply Hle.
  assert (Ht2 : inject_Z N < (t + 1) * stp0 <-> sd < t + 1) by apply Hlt.
  split; [exact Hstp0|].
  split; [intros H; apply C2; apply Hlt; exact H|].
  split.
  - intros H1 H2. apply C3; [apply Hle; exact H1 | apply Ht2; exact H2].
  - intros H. symmetry. apply sample_lookup. apply C4.
    destruct H as [H|H]; [left; apply Hlt; exact H | right; apply Ht1; exact H].
Qed.

(** The TrigEnv of the fixture, a table of four samples read in four
    samples: the step is 1 and the pulse is written at sample 4. *)
Lemma TrigEnv_readframes_i_envelope_witness :
  sample (TrigEnv.trigsBuffer
            (st (fst (TrigEnv.TrigEnv_readframes_i (fun _ => [1; 0; 0; 0; 0; 0])
                        trigenv_4 [])))) 4 = 1.
Proof.
  pose proof (TrigEnv_readframes_i_envelope (fun _ => [1; 0; 0; 0; 0; 0]) trigenv_4 [])
    as H.
  cbv zeta in H.
  refine (proj1 (proj2 (proj2 (H _ _ _ _ _ _ eq_refl eq_refl eq_refl _ 4%nat _))) _ _).
  - vm_compute. congruence.
  - vm_compute. congruence.
  - vm_compute. congruence.
  - vm_compute. congruence.
  - vm_compute. split; reflexivity.
  - vm_compute. congruence.
  - intros i Hi.
    do 6 (destruct i as [|i]; [try reflexivity; exfalso; cbn in Hi; lia|]).
    exfalso. cbn in Hi. lia.
  - cbn. lia.
  - vm_compute. congruence.
  - vm_compute. reflexivity.
Defined.

(** ** TrigXnoise: the distributions *)

Lemma clip01_range (v : Q) : 0 <= TrigXnoise.clip01 v /\ TrigXnoise.clip01 v <= 1.
Proof.
  unfold TrigXnoise.clip01.
  destruct (Qltb v 0) eqn:E1; [lra|]. apply Qltb_ge in E1.
  destruct (Qltb 1 v) eqn:E2; [lra|]. apply Qltb_ge in E2. lra.
Qed.

(** [RANDOM_UNIFORM] on a number that [rand()] can return. *)
Lemma RANDOM_UNIFORM_range (src : RandSrc) (pos : nat) :
  (0 <= src pos <= RAND_MAX)%Z ->
  0 <= fst (RANDOM_UNIFORM src pos) /\ fst (RANDOM_UNIFORM src pos) <= 1.
Proof.
  intros [H0 H1]. unfold RANDOM_UNIFORM. cbn [fst].
  assert (Hd : 0 < inject_Z RAND_MAX + 1) by (vm_compute; reflexivity).
  assert (Hr0 : 0 <= inject_Z (src pos)).
  { change 0 with (inject_Z 0). rewrite <- Zle_Qle. exact H0. }
  assert (Hr1 : inject_Z (src pos) <= inject_Z RAND_MAX).
  { rewrite <- Zle_Qle. exact H1. }
  split.
  - apply Qle_shift_div_l; [exact Hd|]. lra.
  - apply Qle_shift_div_r; [exact Hd|]. lra.
Qed.

(** X21.  Every distribution without memory returns a number between 0
    and 1, for every [rand()] between 0 and [RAND_MAX].  The uniform, the
    two linear, the triangular, the two exponential, the double
    exponential, the Weibull and the Gaussian function always return:
    the first four a combination of uniform draws, the others through
    the clipping test, whatever [logf] and [powf] return.  The Weibull
    function is taken with a locator [x1] other than 0: its value is the
    product of [x1] and of a power that has no bound, and with [x1 = 0]
    the product of 0 and of an overflowed power passes both comparisons
    of the clipping test.  The Cauchy and the Poisson function can fail
    to return (the loop of the first, the empty table of the second); a
    draw of theirs that returns lies between 0 and 1 as well. *)
Theorem TrigXnoise_draws_in_unit_interval
    (logf tanf : Q -> Q) (powf : Q -> Q -> Q) (src : RandSrc) (fuel : nat)
    (f : TrigXnoise.type_func) (s : TrigXnoise.noise) (pos : nat) :
  (forall n, (0 <= src n <= RAND_MAX)%Z) ->
  (f = TrigXnoise.ptr_weibull -> ~ TrigXnoise.xx1 s == 0) ->
  (In f [TrigXnoise.ptr_uniform; TrigXnoise.ptr_linear_min;
         TrigXnoise.ptr_linear_max; TrigXnoise.ptr_triangle;
         TrigXnoise.ptr_expon_min; TrigXnoise.ptr_expon_max;
         TrigXnoise.ptr_biexpon; TrigXnoise.ptr_weibull;
         TrigXnoise.ptr_gaussian] ->
   exists v s' pos',
     TrigXnoise.call_type logf tanf powf src fuel (Some f) s pos = Done (v, s', pos')
     /\ 0 <= v /\ v <= 1)
  /\ (In f [TrigXnoise.ptr_cauchy; TrigXnoise.ptr_poisson] ->
      forall v s' pos',
        TrigXnoise.call_type logf tanf powf src fuel (Some f) s pos
        = Done (v, s', pos') ->
        0 <= v /\ v <= 1).
Proof.
  intros Hsrc _. split.
  - intros Hf. cbn in Hf.
    pose proof (RANDOM_UNIFORM_range src pos (Hsrc pos)) as [A0 A1].
    pose proof (RANDOM_UNIFORM_range src (S pos) (Hsrc (S pos))) as [B0 B1].
    cbn in A0, A1, B0, B1.
    destruct Hf as [<-|[<-|[<-|[<-|[<-|[<-|[<-|[<-|[<-|[]]]]]]]]]];
      cbn [TrigXnoise.call_type].
    + unfold TrigXnoise.TrigXnoise_uniform. cbn.
      eexists. eexists. eexists. split; [reflexivity|]. lra.
    + unfold TrigXnoise.TrigXnoise_linear_min. cbn.
      eexists. eexists. eexists. split; [reflexivity|].
      destruct (Qltb _ _); lra.
    + unfold TrigXnoise.TrigXnoise_linear_max. cbn.
      eexists. eexists. eexists. split; [reflexivity|].
      destruct (Qltb _ _); lra.
    + unfold TrigXnoise.TrigXnoise_triangle. cbn.
      eexists. eexists. eexists. split; [reflexivity|]. lra.
    + unfold TrigXnoise.TrigXnoise_expon_min. cbn.
      eexists. eexists. eexists. split; [reflexivity|]. apply clip01_range.
    + unfold TrigXnoise.TrigXnoise_expon_max. cbn.
      eexists. eexists. eexists. split; [reflexivity|]. apply clip01_range.
    + unfold TrigXnoise.TrigXnoise_biexpon. cbn.
      destruct (Qltb 1 _);
        (eexists; eexists; eexists; split; [reflexivity|]; apply clip01_range).
    + unfold TrigXnoise.TrigXnoise_weibull. cbn.
      eexists. eexists. eexists. split; [reflexivity|]. apply clip01_range.
    + unfold TrigXnoise.TrigXnoise_gaussian. cbn.
      eexists. eexists. eexists. split; [reflexivity|]. apply clip01_range.
  - intros Hf v s' pos' H. cbn in Hf.
    destruct Hf as [<-|[<-|[]]]; cbn [TrigXnoise.call_type] in H.
    + unfold TrigXnoise.TrigXnoise_cauchy in H.
      destruct (TrigXnoise.cauchy_rnd src fuel pos) as [[rnd p]| |]; cbn in H;
        try discriminate.
      injection H as <- _ _. apply clip01_range.
    + unfold TrigXnoise.TrigXnoise_poisson in H. cbv zeta in H.
      destruct (negb _) in H.
      * destruct (TrigXnoise.poisson_fill _ _ _) as [buf tab] in H. cbn in H.
        destruct (c_rem _ _) in H; cbn in H; try discriminate.
        injection H as <- _ _. apply clip01_range.
      * cbn in H. destruct (c_rem _ _) in H; cbn in H; try discriminate.
        injection H as <- _ _. apply clip01_range.
Qed.

(** A Weibull and a Gaussian draw with every uniform number 1/2. *)
Lemma TrigXnoise_draws_in_unit_interval_witness :
  (exists v s' pos',
     TrigXnoise.call_type (fun x => x) (fun x => x) powf_int rand_half 0
       (Some TrigXnoise.ptr_weibull) noise_x1_30 0 = Done (v, s', pos')
     /\ 0 <= v /\ v <= 1)
  /\ (exists v s' pos',
        TrigXnoise.call_type (fun x => x) (fun x => x) powf_int rand_half 0
          (Some TrigXnoise.ptr_gaussian) noise_x1_30 0 = Done (v, s', pos')
        /\ 0 <= v /\ v <= 1).
Proof.
  split.
  - refine (proj1 (TrigXnoise_draws_in_unit_interval (fun x => x) (fun x => x)
                     powf_int rand_half 0 TrigXnoise.ptr_weibull noise_x1_30 0 _ _) _).
    + intros n. vm_compute. split; discriminate.
    + intros _ H. vm_compute in H. discriminate H.
    + cbn. tauto.
  - refine (proj1 (TrigXnoise_draws_in_unit_interval (fun x => x) (fun x => x)
                     powf_int rand_half 0 TrigXnoise.ptr_gaussian noise_x1_30 0 _ _) _).
    + intros n. vm_compute. split; discriminate.
    + intros H. discriminate H.
    + cbn. tauto.
Defined.
(** X22.  The random walk stays between 0 and [x1] and never divides by
    0: for [x1 >= 0] and [x2] up to 2 000 000 (so that a thousand times
    [x2] is an [int]), wherever the walk stands, the walker returns, uses
    two random numbers, and its new value, which is also the value it
    keeps, lies in [0, x1].  The divisor of [rand() % modulo] is at least
    2, [x2] being taken as 0.002 when it is smaller. *)
Theorem TrigXnoise_walker_bounded (src : RandSrc) (s : TrigXnoise.noise) (pos : nat) :
  0 <= TrigXnoise.xx1 s ->
  TrigXnoise.xx2 s <= 2000000 ->
  exists v s',
    TrigXnoise.TrigXnoise_walker src s pos = Done (v, s', S (S pos))
    /\ TrigXnoise.walkerValue s' = v
    /\ TrigXnoise.xx1 s' = TrigXnoise.xx1 s
    /\ (2 <= Qtrunc (TrigXnoise.xx2 s' * 1000))%Z
    /\ 0 <= v /\ v <= TrigXnoise.xx1 s.
Proof.
  intros Hx1 _.
  unfold TrigXnoise.TrigXnoise_walker, TrigXnoise.walk. cbv zeta.
  set (s1 := if Qltb (TrigXnoise.xx2 s) (2#1000)
             then TrigXnoise.set_xx2 (2#1000) s else s).
  assert (Hs1 : TrigXnoise.xx1 s1 = TrigXnoise.xx1 s
                /\ (2#1000) <= TrigXnoise.xx2 s1).
  { unfold s1. destruct (Qltb (TrigXnoise.xx2 s) (2#1000)) eqn:E.
    - cbn. split; [reflexivity|]. lra.
    - apply Qltb_ge in E. split; [reflexivity|exact E]. }
  destruct Hs1 as (E1 & E4). clearbody s1.
  set (m := Qtrunc (TrigXnoise.xx2 s1 * 1000)).
  assert (Hm2 : (2 <= m)%Z).
  { apply Qtrunc_ge; [lia|]. change (inject_Z 2) with 2. lra. }
  cbn [rand]. unfold c_rem.
  destruct (Z.eqb_spec m 0) as [E0|_]; [lia|]. cbn [bind].
  set (r := Z.rem (src (S pos)) m).
  set (q := Z.quot m 2).
  set (delta := inject_Z (r - q) * (1#1000)).
  set (w := if (Z.rem (src pos) 2 =? 0)%Z
            then TrigXnoise.walkerValue s1 + delta
            else TrigXnoise.walkerValue s1 - delta).
  eexists. eexists. split; [reflexivity|].
  cbn [TrigXnoise.walkerValue TrigXnoise.xx1 TrigXnoise.xx2 TrigXnoise.set_walkerValue].
  fold m r q delta w. rewrite E1.
  split; [reflexivity|]. split; [reflexivity|]. split; [exact Hm2|].
  destruct (Qltb (TrigXnoise.xx1 s) w) eqn:F1.
  - destruct (Qltb (TrigXnoise.xx1 s) 0) eqn:F2.
    + apply Qltb_lt in F2. lra.
    + apply Qltb_lt in F1. lra.
  - apply Qltb_ge in F1. destruct (Qltb w 0) eqn:F2.
    + apply Qltb_lt in F2. lra.
    + apply Qltb_ge in F2. lra.
Qed.

Lemma TrigXnoise_walker_bounded_witness :
  let s := fst (TrigXnoise.noise_new (rand_const 0) 0) in
  exists v s',
    TrigXnoise.TrigXnoise_walker (rand_const 0) s 1 = Done (v, s', 3%nat)
    /\ 0 <= v /\ v <= 1#2.
Proof.
  intros s.
  destruct (TrigXnoise_walker_bounded (rand_const 0) s 1)
    as (v & s' & H1 & _ & _ & _ & H2 & H3).
  - vm_compute. discriminate.
  - vm_compute. discriminate.
  - exists v, s'. exact (conj H1 (conj H2 H3)).
Defined.

(** X23.  The table of the Poisson distribution is a cache keyed by
    [x1]: a draw that returns leaves [x1] and [x2] clamped to at least 0.1
    and records the clamped [x1] in [lastPoissonX1]; a draw made with the
    recorded [x1] neither rebuilds nor changes the table and returns a
    cell of it; a draw made with another [x1] rebuilds the table for it.
    The divisor is the number of cells of the table in force. *)
Theorem TrigXnoise_poisson_table_is_cached
    (powf : Q -> Q -> Q) (src : RandSrc) (s : TrigXnoise.noise) (pos : nat)
    (v : Q) (s' : TrigXnoise.noise) (pos' : nat) :
  TrigXnoise.TrigXnoise_poisson powf src s pos = Done (v, s', pos') ->
  let c1 := if Qltb (TrigXnoise.xx1 s) (1#10) then 1#10 else TrigXnoise.xx1 s in
  pos' = S pos
  /\ TrigXnoise.xx1 s' = c1 /\ (1#10) <= TrigXnoise.xx1 s'
  /\ (1#10) <= TrigXnoise.xx2 s'
  /\ TrigXnoise.lastPoissonX1 s' == c1
  /\ TrigXnoise.poisson_tab s' <> 0%Z
  /\ v = TrigXnoise.clip01
           (TrigXnoise.cell (TrigXnoise.poisson_buffer s')
              (Z.rem (src pos) (TrigXnoise.poisson_tab s')) / 12
            * TrigXnoise.xx2 s')
  /\ (c1 == TrigXnoise.lastPoissonX1 s ->
      TrigXnoise.poisson_buffer s' = TrigXnoise.poisson_buffer s
      /\ TrigXnoise.poisson_tab s' = TrigXnoise.poisson_tab s)
  /\ (~ c1 == TrigXnoise.lastPoissonX1 s ->
      (TrigXnoise.poisson_buffer s', TrigXnoise.poisson_tab s')
      = TrigXnoise.poisson_fill powf c1 (TrigXnoise.poisson_buffer s)).
Proof.
  intros H. cbv zeta. unfold TrigXnoise.TrigXnoise_poisson in H. cbv zeta in H.
  set (s1 := if Qltb (TrigXnoise.xx1 s) (1#10)
             then TrigXnoise.set_xx1 (1#10) s else s) in H.
  assert (A : TrigXnoise.xx1 s1
              = (if Qltb (TrigXnoise.xx1 s) (1#10) then 1#10 else TrigXnoise.xx1 s)
              /\ (1#10) <= TrigXnoise.xx1 s1
              /\ TrigXnoise.xx2 s1 = TrigXnoise.xx2 s
              /\ TrigXnoise.lastPoissonX1 s1 = TrigXnoise.lastPoissonX1 s
              /\ TrigXnoise.poisson_buffer s1 = TrigXnoise.poisson_buffer s
              /\ TrigXnoise.poisson_tab s1 = TrigXnoise.poisson_tab s).
  { unfold s1. destruct (Qltb (TrigXnoise.xx1 s) (1#10)) eqn:E.
    - cbn. repeat split. lra.
    - apply Qltb_ge in E. repeat split. exact E. }
  destruct A as (A1 & A2 & A3 & A4 & A5 & A6). clearbody s1.
  set (s2 := if Qltb (TrigXnoise.xx2 s1) (1#10)
             then TrigXnoise.set_xx2 (1#10) s1 else s1) in H.
  assert (B : TrigXnoise.xx1 s2 = TrigXnoise.xx1 s1
              /\ (1#10) <= TrigXnoise.xx2 s2
              /\ TrigXnoise.lastPoissonX1 s2 = TrigXnoise.lastPoissonX1 s1
              /\ TrigXnoise.poisson_buffer s2 = TrigXnoise.poisson_buffer s1
              /\ TrigXnoise.poisson_tab s2 = TrigXnoise.poisson_tab s1).
  { unfold s2. destruct (Qltb (TrigXnoise.xx2 s1) (1#10)) eqn:E.
    - cbn. repeat split. lra.
    - apply Qltb_ge in E. repeat split. exact E. }
  destruct B as (B1 & B2 & B3 & B4 & B5). clearbody s2.
  rewrite <- A1, <- B1. rewrite <- B1 in A2.
  rewrite <- A4, <- B3. rewrite <- A5, <- B4, <- A6, <- B5.
  clear A1 A3 A4 A5 A6 B1 B3 B4 B5 s1 s.
  destruct (Qeq_bool (TrigXnoise.xx1 s2) (TrigXnoise.lastPoissonX1 s2)) eqn:E;
    cbn [negb] in H.
  - apply Qeq_bool_iff in E. cbn [rand] in H. unfold c_rem in H.
    destruct (Z.eqb_spec (TrigXnoise.poisson_tab s2) 0) as [E0|E0];
      cbn [bind] in H; [discriminate|].
    injection H as <- <- <-.
    split; [reflexivity|]. split; [reflexivity|]. split; [exact A2|].
    split; [exact B2|]. split; [symmetry; exact E|]. split; [exact E0|].
    split; [reflexivity|]. split; [intros _; split; reflexivity|].
    intros C. contradiction.
  - destruct (TrigXnoise.poisson_fill powf (TrigXnoise.xx1 s2)
                (TrigXnoise.poisson_buffer s2)) as [buf tab] eqn:F.
    cbn [rand TrigXnoise.poisson_tab TrigXnoise.poisson_buffer TrigXnoise.xx2] in H.
    unfold c_rem in H.
    destruct (Z.eqb_spec tab 0) as [E0|E0]; cbn [bind] in H; [discriminate|].
    injection H as <- <- <-.
    cbn [TrigXnoise.xx1 TrigXnoise.xx2 TrigXnoise.lastPoissonX1
         TrigXnoise.poisson_tab TrigXnoise.poisson_buffer].
    split; [reflexivity|]. split; [reflexivity|]. split; [exact A2|].
    split; [exact B2|]. split; [reflexivity|]. split; [exact E0|].
    split; [reflexivity|]. split; [|intros _; reflexivity].
    intros C. apply Qeq_bool_iff in C. congruence.
Qed.

Lemma TrigXnoise_poisson_table_is_cached_witness :
  match TrigXnoise.TrigXnoise_poisson powf_int (rand_const 0)
          (TrigXnoise.set_xx1 1 (fst (TrigXnoise.noise_new (rand_const 0) 0))) 0 with
  | Done (_, s', p) => p = 1%nat /\ TrigXnoise.poisson_tab s' <> 0%Z
  | _ => False
  end.
Proof.
  destruct (TrigXnoise.TrigXnoise_poisson powf_int (rand_const 0)
              (TrigXnoise.set_xx1 1 (fst (TrigXnoise.noise_new (rand_const 0) 0))) 0)
    as [[[v s'] p]| |] eqn:E.
  - destruct (TrigXnoise_poisson_table_is_cached _ _ _ _ _ _ _ E)
      as (H1 & _ & _ & _ & _ & H2 & _).
    exact (conj H1 H2).
  - vm_compute in E. discriminate.
  - vm_compute in E. discriminate.
Defined.

(** ** TrigRand without port time *)

(** A ramp without port time and without length, once at rest, stays at
    rest. *)
Lemma Glide_no_port_ramp (g : Glide.t) :
  (Glide.timeStep g <= 0)%Z -> (0 <= Glide.timeCount g)%Z -> Glide.ramp g = g.
Proof. intros H1 H2. apply Glide_ramp_rest. lia. Qed.

Lemma Glide_no_port_trigger (target : Q) (g : Glide.t) :
  Glide.time g <= 0 ->
  let g' := Glide.trigger target g in
  Glide.time g' = Glide.time g /\ Glide.timeStep g' = Glide.timeStep g
  /\ Glide.timeCount g' = 0%Z /\ Glide.currentValue g' = target.
Proof.
  intros H0. cbv zeta. unfold Glide.trigger.
  apply Qle_bool_iff in H0. rewrite H0. repeat split.
Qed.

(** The samples of the loop body of TrigRand without port time: a sample
    without trigger repeats the sample before it, and the position in the
    random sequence moves by one for each trigger. *)
Lemma TrigRand_outputs_no_port (src : RandSrc) (mi ma : Q) (xs : list Q) :
  forall (s : TrigRand.fields) (pos : nat),
  Glide.time (TrigRand.glide s) <= 0 ->
  (Glide.timeStep (TrigRand.glide s) <= 0)%Z ->
  (0 <= Glide.timeCount (TrigRand.glide s))%Z ->
  let c0 := Glide.currentValue (TrigRand.glide s) in
  let outs := TrigRand.outputs src xs mi ma s pos in
  let r := TrigRand.after src xs mi ma s pos in
  (forall i, (i < length xs)%nat -> Qeq_bool (nth i xs 0) 1 = false ->
     nth i outs 0 = nth i (c0 :: outs) 0)
  /\ snd r = (pos + length (List.filter (fun x => Qeq_bool x 1) xs))%nat
  /\ Glide.currentValue (TrigRand.glide (fst r)) = nth (length xs) (c0 :: outs) 0
  /\ Glide.time (TrigRand.glide (fst r)) <= 0
  /\ (Glide.timeStep (TrigRand.glide (fst r)) <= 0)%Z
  /\ (0 <= Glide.timeCount (TrigRand.glide (fst r)))%Z.
Proof.
  induction xs as [|x xs IH]; intros s pos H0 H1 H2; cbv zeta.
  - cbn. split; [intros i Hi; lia|]. split; [lia|]. split; [reflexivity|].
    split; [exact H0|]. split; assumption.
  - cbn [TrigRand.outputs TrigRand.after List.filter length].
    unfold TrigRand.sample_step. cbv zeta.
    destruct (Qeq_bool x 1) eqn:E.
    + cbn [rand].
      set (t := (ma - mi) * (inject_Z (src pos) / (inject_Z RAND_MAX + 1)) + mi).
      destruct (Glide_no_port_trigger t _ H0) as (T0 & T1 & T2 & Hc).
      rewrite (Glide_no_port_ramp (Glide.trigger t (TrigRand.glide s)))
        by (rewrite ?T1, ?T2; lia).
      set (s1 := TrigRand.set_glide (Glide.trigger t (TrigRand.glide s)) s).
      destruct (IH s1 (S pos)) as (I1 & I2 & I3 & I4).
      { cbn [s1 TrigRand.glide TrigRand.set_glide]. rewrite T0. exact H0. }
      { cbn [s1 TrigRand.glide TrigRand.set_glide]. rewrite T1. exact H1. }
      { cbn [s1 TrigRand.glide TrigRand.set_glide]. rewrite T2. lia. }
      change (TrigRand.glide s1) with (Glide.trigger t (TrigRand.glide s)) in *.
      rewrite Hc in *.
      split.
      { intros [|i] Hi Hx; cbn [nth] in *; [congruence|].
        apply I1; [lia|exact Hx]. }
      split; [rewrite I2; cbn [length]; lia|].
      split; [exact I3|exact I4].
    + rewrite (Glide_no_port_ramp _ H1 H2).
      set (s1 := TrigRand.set_glide (TrigRand.glide s) s).
      destruct (IH s1 pos H0 H1 H2) as (I1 & I2 & I3 & I4).
      change (TrigRand.glide s1) with (TrigRand.glide s) in *.
      split.
      { intros [|i] Hi Hx; cbn [nth] in *; [reflexivity|].
        apply I1; [lia|exact Hx]. }
      split; [exact I2|]. split; [exact I3|exact I4].
Qed.

(** X24.  Without port time (a time of 0 or less, no ramp length, the
    ramp at rest) [TrigRand_generate_ii] is a sample-and-hold: a sample
    without trigger repeats the sample before it (the first one the value
    that the object held), so that the output changes on trigger samples
    only; every trigger reads one random number and no other sample reads
    any; the value held after the block is its last sample, and the
    object is again without port time. *)
Theorem TrigRand_generate_ii_holds_without_port
    (env : Stream -> list Q) (src : RandSrc) (o : TrigRand.self) (pos : nat) :
  let g := TrigRand.glide (st o) in
  let inp := env (TrigRand.input_stream (st o)) in
  Glide.time g <= 0 -> (Glide.timeStep g <= 0)%Z -> (0 <= Glide.timeCount g)%Z ->
  length (data o) = bufsize o -> length inp = bufsize o ->
  let r := TrigRand.TrigRand_generate_ii env src o pos in
  let o' := fst r in
  let g' := TrigRand.glide (st o') in
  length (data o') = bufsize o
  /\ (forall i, (i < bufsize o)%nat -> Qeq_bool (sample inp i) 1 = false ->
        sample (data o') i = sample (Glide.currentValue g :: data o') i)
  /\ snd r = (pos + length (List.filter (fun x => Qeq_bool x 1) inp))%nat
  /\ Glide.currentValue g' = sample (Glide.currentValue g :: data o') (bufsize o)
  /\ Glide.time g' <= 0 /\ (Glide.timeStep g' <= 0)%Z /\ (0 <= Glide.timeCount g')%Z.
Proof.
  intros g inp H0 H1 H2 Hlen Hin r o' g'.
  destruct (TrigRand_generate_ii_outputs env src o pos Hlen Hin) as [Hd Hst].
  cbv zeta in Hd, Hst. fold inp r in Hd, Hst. fold o' in Hd, Hst.
  set (mi := PyFloat_AS_DOUBLE (TrigRand.min (st o))) in *.
  set (ma := PyFloat_AS_DOUBLE (TrigRand.max (st o))) in *.
  destruct (TrigRand_outputs_no_port src mi ma inp (st o) pos H0 H1 H2)
    as (I1 & I2 & I3 & I4).
  rewrite <- Hst in I2, I3, I4. cbn [fst snd] in I2, I3, I4.
  rewrite <- Hd in I1, I3. rewrite Hin in I1, I3.
  split; [rewrite Hd, TrigRand_outputs_length; exact Hin|].
  split; [exact I1|]. split; [exact I2|]. split; [exact I3|exact I4].
Qed.

(** A TrigRand without port time that holds 1/4, on a block whose second
    sample is a trigger: the third sample repeats the second, and one
    random number has been read. *)
Lemma TrigRand_generate_ii_holds_without_port_witness :
  let r := TrigRand.TrigRand_generate_ii (fun _ => [0; 1; 0; 0]) rand_half
             (TrigRand.TrigRand_init 4 10 0%nat 0 (1#4)) 0 in
  sample (data (fst r)) 2 = sample (data (fst r)) 1 /\ snd r = 1%nat.
Proof.
  destruct (TrigRand_generate_ii_holds_without_port (fun _ => [0; 1; 0; 0]) rand_half
              (TrigRand.TrigRand_init 4 10 0%nat 0 (1#4)) 0)
    as (_ & H1 & H2 & _).
  - vm_compute. discriminate.
  - vm_compute. discriminate.
  - vm_compute. discriminate.
  - reflexivity.
  - reflexivity.
  - split; [exact (H1 2%nat ltac:(cbn; lia) eq_refl) | exact H2].
Defined.

(** ** TrigXnoise: a block without trigger *)

(** X25.  Without a trigger there is no draw: on a block that holds no
    trigger sample [TrigXnoise_generate_ii] returns, whatever the selected
    distribution is (and even when none is selected), reads no random
    number, writes the held value in every cell, and changes nothing in
    the object but the copies [xx1] and [xx2] of its two parameters. *)
Theorem TrigXnoise_generate_ii_without_trigger
    (logf tanf : Q -> Q) (powf : Q -> Q -> Q) (src : RandSrc) (fuel : nat)
    (env : Stream -> list Q) (o : TrigXnoise.self) (pos : nat) :
  length (data o) = bufsize o ->
  (forall i, (i < bufsize o)%nat ->
     Qeq_bool (sample (env (TrigXnoise.input_stream (st o))) i) 1 = false) ->
  exists o',
    TrigXnoise.TrigXnoise_generate_ii logf tanf powf src fuel env o pos = Done (o', pos)
    /\ st o'
       = TrigXnoise.set_dist
           (TrigXnoise.set_xx2 (PyFloat_AS_DOUBLE (TrigXnoise.x2 (st o)))
              (TrigXnoise.set_xx1 (PyFloat_AS_DOUBLE (TrigXnoise.x1 (st o)))
                 (TrigXnoise.dist (st o))))
           (st o)
    /\ length (data o') = bufsize o
    /\ forall i, (i < bufsize o)%nat -> sample (data o') i = TrigXnoise.value (st o).
Proof.
  intros Hlen Hno. unfold TrigXnoise.TrigXnoise_generate_ii, TrigXnoise.generate_loop.
  cbv zeta. rewrite bufsize_set_st, st_set_st.
  set (s0 := TrigXnoise.set_dist _ (st o)).
  change (TrigXnoise.input_stream s0) with (TrigXnoise.input_stream (st o)).
  set (inp := env (TrigXnoise.input_stream (st o))) in *.
  match goal with
  | |- context [for_loop (bufsize o) ?b ?x] => set (body := b); set (x0 := x)
  end.
  assert (Inv : forall k, (k <= bufsize o)%nat ->
            exists ok, for_loop k body x0 = Done (ok, pos)
                       /\ st ok = s0 /\ length (data ok) = bufsize o
                       /\ forall i, (i < k)%nat ->
                            data ok !! i = Some (TrigXnoise.value (st o))).
  { induction k as [|k IH]; intros Hk.
    - exists (set_st s0 o). rewrite for_loop_0.
      split; [reflexivity|]. split; [reflexivity|]. split; [exact Hlen|].
      intros i Hi. lia.
    - destruct IH as (ok & E & Hs & Hl & Hc); [lia|].
      rewrite for_loop_S, E. unfold body. cbn [bind].
      unfold TrigXnoise.sample_step. rewrite (Hno k ltac:(lia)). cbn [bind].
      eexists. split; [reflexivity|].
      rewrite st_store, st_set_st. split; [exact Hs|].
      cbn [data store set_data set_st]. rewrite length_insert. split; [exact Hl|].
      intros i Hi. destruct (Nat.eq_dec i k) as [->|Hne].
      + rewrite list_lookup_insert_eq by lia. rewrite Hs. reflexivity.
      + rewrite list_lookup_insert_ne by lia. apply Hc. lia. }
  destruct (Inv (bufsize o) (Nat.le_refl _)) as (ok & E & Hs & Hl & Hc).
  exists ok. split; [exact E|]. split; [exact Hs|]. split; [exact Hl|].
  intros i Hi. apply sample_lookup, Hc, Hi.
Qed.

Lemma TrigXnoise_generate_ii_without_trigger_witness :
  exists o',
    TrigXnoise.TrigXnoise_generate_ii (fun x => x) (fun x => x) powf_int
      (rand_const 0) 0 (fun _ => [0]) xnoise_poisson_30 7 = Done (o', 7%nat)
    /\ length (data o') = 1%nat.
Proof.
  destruct (TrigXnoise_generate_ii_without_trigger (fun x => x) (fun x => x) powf_int
              (rand_const 0) 0 (fun _ => [0]) xnoise_poisson_30 7 eq_refl)
    as (o' & H1 & _ & H2 & _).
  - intros i Hi. destruct i as [|i]; [reflexivity|]. cbn in Hi. lia.
  - exists o'. exact (conj H1 H2).
Defined.
